(** * Dice Roll extension: a shallow embedding of [__init__.py]

    The extension parses a query such as ["2d6 3d8 1D20"], rolls the dice
    with Python's [random] module and returns one launcher item per group of
    dice, plus an overall total when there are several groups.

    Conventions of the embedding.
    - A Python [str] is a [string]; an [ascii] stands for the code point of
      the same number, so the model covers the texts over U+0000..U+00FF.
      On that alphabet [\d] is [0-9] and [str.strip] removes the eleven
      characters of [is_space].
    - A Python [int] is a [Z]. The conversions between [int] and [str]
      raise [ValueError] beyond [int_max_str_digits] digits, as CPython
      does.
    - [re] is a backtracking matcher over a small pattern syntax, with the
      priorities of the [sre] engine: greedy repetition, ordered
      alternation, capture groups restored on backtracking.
    - [random] is an entropy tape read from left to right: every sequence
      of outcomes is the run of some tape.
    - [Path.exists] asks the installation, which answers with a boolean
      or fails with an [OSError] (a name too long, a directory that
      cannot be searched).
    - Exceptions and the two effects of the program (drawing random numbers,
      writing to the host's diagnostic channel) live in the monad [Py]. *)

From Stdlib Require Import ZArith NArith List String Ascii Bool Arith Lia.
From Stdlib Require Import DecimalString DecimalZ DecimalPos DecimalFacts.
Import ListNotations.

Local Open Scope string_scope.
Local Open Scope Z_scope.

Set Implicit Arguments.

(* ================================================================= *)
(** ** Python built-ins used by the program *)

Module PyStr.

(** Code point of a character. *)
Definition ord (c : ascii) : nat := nat_of_ascii c.

(** The class [\d] on the alphabet of the model. *)
Definition is_digit (c : ascii) : bool :=
  (48 <=? ord c)%nat && (ord c <=? 57)%nat.

(** [str.isspace] on U+0000..U+00FF: TAB..CR, FS..US, SPACE, NEL, NBSP. *)
Definition is_space (c : ascii) : bool :=
  let n := ord c in
  ((9 <=? n)%nat && (n <=? 13)%nat)
  || ((28 <=? n)%nat && (n <=? 32)%nat)
  || (n =? 133)%nat || (n =? 160)%nat.

(** Simple case folding: [A-Z] and the Latin-1 capitals but the
    multiplication sign. *)
Definition lower (c : ascii) : ascii :=
  let n := ord c in
  if ((65 <=? n)%nat && (n <=? 90)%nat)
     || ((192 <=? n)%nat && (n <=? 222)%nat && negb (n =? 215)%nat)
  then ascii_of_nat (n + 32) else c.

(** [s.lstrip()] *)
Fixpoint lstrip (s : string) : string :=
  match s with
  | String c t => if is_space c then lstrip t else s
  | EmptyString => s
  end.

(** [s.rstrip()]: a character is kept when it is not a space or when
    something is kept after it. *)
Fixpoint rstrip (s : string) : string :=
  match s with
  | String c t =>
      match rstrip t with
      | EmptyString => if is_space c then EmptyString else String c EmptyString
      | t' => String c t'
      end
  | EmptyString => EmptyString
  end.

(** [s.strip()] *)
Definition strip (s : string) : string := rstrip (lstrip s).

(** The decimal numeral of an [int]: what [str(n)] returns when it
    returns. *)
Definition decimal (n : Z) : string := NilZero.string_of_int (Z.to_int n).

(** The same for an [Optional[int]]. *)
Definition decimal_opt (x : option Z) : string :=
  match x with
  | Some n => decimal n
  | None => "None"
  end.

(** The value [int(s)] denotes, when [s] is a decimal literal. *)
Definition parse_int (s : string) : option Z :=
  option_map Z.of_int (NilZero.int_of_string s).

(** [sys.get_int_max_str_digits()], as CPython sets it. *)
Definition int_max_str_digits : nat := 4300.

(** The digits of a literal, without its sign. *)
Definition literal_digits (s : string) : string :=
  match s with
  | String c t => if Ascii.eqb c "-" then t else s
  | EmptyString => s
  end.

(** An [int] that can be converted to text: it has no more digits than
    the limit. *)
Definition fits (n : Z) : bool :=
  (String.length (decimal (Z.abs n)) <=? int_max_str_digits)%nat.

Definition fits_opt (x : option Z) : bool :=
  match x with
  | Some n => fits n
  | None => true
  end.

(** [sep.join(xs)] *)
Definition join (sep : string) (xs : list string) : string :=
  String.concat sep xs.

(** [sum(xs)] *)
Definition sum (xs : list Z) : Z := fold_left Z.add xs 0.

(** [range(n)] *)
Definition range (n : Z) : list Z := map Z.of_nat (seq 0 (Z.to_nat n)).

(** Truth value of an [Optional[int]]: [None] and [0] are false. *)
Definition truthy (x : option Z) : bool :=
  match x with
  | Some n => negb (n =? 0)
  | None => false
  end.

End PyStr.

Import PyStr.

(* ================================================================= *)
(** ** The [re] module *)

Module Re.

(** Pattern syntax, as far as the two patterns of the program need it. A
    non-capturing group [(?:...)] only brackets and has no node. *)
Inductive regex : Type :=
| Digit                          (* \d *)
| NonDigit                       (* \D *)
| Lit (c : ascii)                (* a literal character *)
| Cat (r1 r2 : regex)            (* r1 r2 *)
| Alt (r1 r2 : regex)            (* r1|r2 *)
| Plus (r : regex)               (* r+, greedy *)
| Group (i : nat) (r : regex)    (* ( r ), capture group number i *)
| Eos.                           (* $ *)

(** A compiled pattern: syntax, the flag [re.I] and the number of groups. *)
Record pattern : Type := compile {
  rx : regex;
  ignorecase : bool;
  ngroups : nat
}.

(** Captured groups, most recent binding first. *)
Definition caps : Type := list (nat * string).

Fixpoint group (c : caps) (i : nat) : string :=
  match c with
  | (j, v) :: c' => if (i =? j)%nat then v else group c' i
  | [] => EmptyString
  end.

(** The text between two positions: [s1] is a suffix of [s]. *)
Definition consumed (s s1 : string) : string :=
  substring 0 (String.length s - String.length s1) s.

Definition lit_matches (I : bool) (c x : ascii) : bool :=
  if I then Ascii.eqb (lower c) (lower x) else Ascii.eqb c x.

(** [$] holds at the end of the text and before a final newline. *)
Definition at_eos (s : string) : bool :=
  match s with
  | EmptyString => true
  | String c EmptyString => Ascii.eqb c "010"%char
  | _ => false
  end.

Definition orelse {A} (x y : option A) : option A :=
  match x with
  | Some _ => x
  | None => y
  end.

Section Engine.

Variable A : Type.

(** What remains to be matched after a node: it receives the rest of the
    text and the groups. *)
Definition kont : Type := string -> caps -> option A.

Definition matcher : Type := string -> caps -> kont -> option A.

Definition one_char (p : ascii -> bool) : matcher :=
  fun s c k =>
    match s with
    | String x t => if p x then k t c else None
    | EmptyString => None
    end.

(** Greedy [body+]: after one round of [body], another round is tried
    first when the round consumed something, the continuation afterwards.
    [fuel] bounds the number of further rounds; [String.length s] is
    enough since each of them consumes a character. *)
Fixpoint plus_loop (body : matcher) (fuel : nat) (s : string) (c : caps)
         (k : kont) {struct fuel} : option A :=
  body s c (fun s1 c1 =>
    if (String.length s1 <? String.length s)%nat then
      match fuel with
      | S fuel' => orelse (plus_loop body fuel' s1 c1 k) (k s1 c1)
      | O => k s1 c1
      end
    else k s1 c1).

Fixpoint run (I : bool) (r : regex) {struct r} : matcher :=
  match r with
  | Digit => one_char is_digit
  | NonDigit => one_char (fun x => negb (is_digit x))
  | Lit ch => one_char (lit_matches I ch)
  | Cat r1 r2 => fun s c k => run I r1 s c (fun s1 c1 => run I r2 s1 c1 k)
  | Alt r1 r2 => fun s c k => orelse (run I r1 s c k) (run I r2 s c k)
  | Plus r1 => fun s c k => plus_loop (run I r1) (String.length s) s c k
  | Group i r1 =>
      fun s c k => run I r1 s c (fun s1 c1 => k s1 ((i, consumed s s1) :: c1))
  | Eos => fun s c k => if at_eos s then k s c else None
  end.

End Engine.

(** [p.fullmatch(s)]: the match must end at the end of the text; the
    result stands for the match object. *)
Definition fullmatch (p : pattern) (s : string) : option caps :=
  run (ignorecase p) (rx p) s []
      (fun s1 c1 => match s1 with EmptyString => Some c1 | _ => None end).

(** [p.match(s)] at the current position: the first match in priority
    order, with the rest of the text. *)
Definition match_here (p : pattern) (s : string) : option (string * caps) :=
  run (ignorecase p) (rx p) s [] (fun s1 c1 => Some (s1, c1)).

(** The tuple [findall] builds for one match of a pattern with several
    groups. *)
Definition groups_tuple (p : pattern) (c : caps) : list string :=
  map (group c) (seq 1 (ngroups p)).

(** The scan of [findall]: [skip] characters belong to the match just
    found; then a match is tried at each position in turn and the scan
    resumes after it (one character further when it was empty). *)
Fixpoint scan (p : pattern) (s : string) (skip : nat) : list (list string) :=
  match skip, s with
  | S n, String _ t => scan p t n
  | S _, EmptyString => []
  | O, String _ t =>
      match match_here p s with
      | Some (rest, c) =>
          groups_tuple p c
            :: scan p t (String.length s - String.length rest - 1)
      | None => scan p t 0
      end
  | O, EmptyString =>
      match match_here p s with
      | Some (_, c) => [groups_tuple p c]
      | None => []
      end
  end.

(** [p.findall(s)] for a pattern with two groups or more. *)
Definition findall (p : pattern) (s : string) : list (list string) :=
  scan p s 0.

End Re.

Import Re.


(* ================================================================= *)
(** ** Effects: exceptions, the random source, the host's log *)

(** The exceptions the modelled built-ins raise. *)
Inductive exn : Type :=
| ValueError (msg : string)
| IndexError (msg : string)
| OSError (msg : string).

(** A call on the host's diagnostic channel. *)
Inductive diag : Type :=
| WarnCall (e : exn)          (* albert.warn(e) *)
| InfoCall (msg : string).    (* albert.info(msg) *)

(** The world of one query. The shared generator of [random] is the
    entropy [tape] it delivers and the number [drawn] of values taken from
    it so far; [diagnostics] are the calls made on the host's channel,
    oldest first. *)
Record World : Type := mkWorld {
  tape : nat -> Z;
  drawn : nat;
  diagnostics : list diag
}.

Inductive outcome (A : Type) : Type :=
| Ok (a : A)
| Raise (e : exn).

Arguments Ok {A} a.
Arguments Raise {A} e.

(** A computation: it ends with a value or an exception, in a new world. *)
Definition Py (A : Type) : Type := World -> outcome A * World.

Definition ret {A} (a : A) : Py A := fun w => (Ok a, w).

Definition raise {A} (e : exn) : Py A := fun w => (Raise e, w).

Definition bind {A B} (m : Py A) (f : A -> Py B) : Py B :=
  fun w =>
    match m w with
    | (Ok a, w') => f a w'
    | (Raise e, w') => (Raise e, w')
    end.

(** [try: m except Exception as e: h(e)] *)
Definition try_except {A} (m : Py A) (h : exn -> Py A) : Py A :=
  fun w =>
    match m w with
    | (Ok a, w') => (Ok a, w')
    | (Raise e, w') => h e w'
    end.

Declare Scope py_scope.
Delimit Scope py_scope with py.
Notation "x <- m ;; k" := (bind m (fun x => k))
  (at level 61, m at next level, right associativity) : py_scope.
Notation "' pat <- m ;; k" := (bind m (fun x => match x with pat => k end))
  (at level 61, pat pattern, m at next level, right associativity) : py_scope.
Notation "m ;;; k" := (bind m (fun _ => k))
  (at level 61, right associativity) : py_scope.

Local Open Scope py_scope.

(** A list comprehension [[f(x) for x in xs]], and [map(f, xs)] once it
    is consumed. *)
Fixpoint comprehension {A B} (f : A -> Py B) (xs : list A) : Py (list B) :=
  match xs with
  | [] => ret []
  | x :: xs' =>
      y <- f x ;;
      ys <- comprehension f xs' ;;
      ret (y :: ys)
  end.

(** A [for] loop over [xs] whose body updates the local variables [st]. *)
Fixpoint for_each {A S} (xs : list A) (body : S -> A -> Py S) (st : S)
  : Py S :=
  match xs with
  | [] => ret st
  | x :: xs' => st' <- body st x ;; for_each xs' body st'
  end.

(** [t[i]] on a tuple. *)
Definition index (t : list string) (i : nat) : Py string :=
  match nth_error t i with
  | Some v => ret v
  | None => raise (IndexError "tuple index out of range")
  end.

(** What [int] says of a literal with too many digits. *)
Definition int_limit_message (s : string) : string :=
  "Exceeds the limit (4300 digits) for integer string conversion: value has "
  ++ decimal (Z.of_nat (String.length (literal_digits s)))
  ++ " digits; use sys.set_int_max_str_digits() to increase the limit".

(** What [str] says of an [int] with too many digits. *)
Definition str_limit_message : string :=
  "Exceeds the limit (4300 digits) for integer string conversion; "
  ++ "use sys.set_int_max_str_digits() to increase the limit".

(** [int(s)] on a text of decimal digits, with an optional minus sign:
    [ValueError] when there are more digits than the limit, leading zeros
    counted, or when the text is no literal. (The built-in also takes a
    plus sign, blanks and underscores; a group captured by [\d+] has none
    of them.) *)
Definition int (s : string) : Py Z :=
  if (int_max_str_digits <? String.length (literal_digits s))%nat
  then raise (ValueError (int_limit_message s))
  else
    match parse_int s with
    | Some n => ret n
    | None => raise (ValueError "invalid literal for int() with base 10")
    end.

(** [str(n)], and [{n}] in an f-string: [ValueError] when [n] has more
    digits than the limit. *)
Definition str (n : Z) : Py string :=
  if fits n then ret (decimal n) else raise (ValueError str_limit_message).

(** [{x}] in an f-string, for an [Optional[int]]. *)
Definition fmt_opt (x : option Z) : Py string :=
  match x with
  | Some n => str n
  | None => ret "None"
  end.

Module random.

(** The generator after one draw. *)
Definition advance (w : World) : World :=
  mkWorld (tape w) (S (drawn w)) (diagnostics w).

(** [random.randint(a, b)] is [randrange(a, b+1)]: with [width = b+1-a], a
    number below [width] is drawn and added to [a]; an empty range raises
    [ValueError] and draws nothing. (The text of the exception stands for
    the one of the interpreter, which also names the bounds.) *)
Definition randint (a b : Z) : Py Z :=
  fun w =>
    let width := b + 1 - a in
    if 0 <? width
    then (Ok (a + tape w (drawn w) mod width), advance w)
    else (Raise (ValueError "empty range for randrange()"), w).

End random.

Module albert.

(** [albert.ClipAction(text, clipboardText)] *)
Record ClipAction : Type := mkClipAction {
  action_text : string;
  clipboard : string
}.

(** [albert.Item(id=, icon=, text=, subtext=, actions=)] *)
Record Item : Type := mkItem {
  id : string;
  icon : string;
  text : string;
  subtext : string;
  actions : list ClipAction
}.

(** [albert.Query]: the program reads its attribute [string]. *)
Record Query : Type := mkQuery {
  query_string : string
}.

Definition log (d : diag) : Py unit :=
  fun w => (Ok tt, mkWorld (tape w) (drawn w) (diagnostics w ++ [d])%list).

Definition warn (e : exn) : Py unit := log (WarnCall e).

Definition info (msg : string) : Py unit := log (InfoCall msg).

End albert.

(** The installation: the directory of the module and, for each path,
    what [stat] answers. [stat_error p] is the error of a [stat] that
    fails in a way [Path.exists] does not take for an absent file (the
    name is too long, a directory on the way cannot be searched);
    otherwise [file_exists p] tells whether the file is there. The
    installation does not change during a query. *)
Record Host : Type := mkHost {
  module_dir : string;
  file_exists : string -> bool;
  stat_error : string -> option string
}.

(** [p / name] on a [Path], as its text, for a directory [p] that is not
    the root and a relative [name]. *)
Definition child (p name : string) : string := p ++ "/" ++ name.

(** [Path(p).exists()] *)
Definition path_exists (host : Host) (p : string) : Py bool :=
  match stat_error host p with
  | Some msg => raise (OSError msg)
  | None => ret (file_exists host p)
  end.

(* ================================================================= *)
(** ** The program *)

Definition __title__ : string := "Dice Roll".

(** [re.compile(r"(\d+)d(\d+)", re.I)] *)
Definition single_dice_regex : pattern :=
  compile (Cat (Group 1 (Plus Digit))
               (Cat (Lit "d") (Group 2 (Plus Digit))))
          true 2.

(** [re.compile(r"(?:(\d+)d(\d+)(?:\D+|$))+", re.I)] *)
Definition multiple_dice_regex : pattern :=
  compile (Plus (Cat (Group 1 (Plus Digit))
                     (Cat (Lit "d")
                          (Cat (Group 2 (Plus Digit))
                               (Alt (Plus NonDigit) Eos)))))
          true 2.

Section Program.

Variable host : Host.

(** The condition of the conditional expression is evaluated first: the
    name is formatted and [exists] is called, for [None] too; the name is
    formatted again when the file is there. *)
Definition get_icon_path (num_sides : option Z) : Py string :=
  let icons_path := child (module_dir host) "icons" in
  name <- fmt_opt num_sides ;;
  found <- path_exists host (child icons_path ("d" ++ name ++ ".svg")) ;;
  icon <- (if found
           then name' <- fmt_opt num_sides ;; ret ("d" ++ name')
           else ret "d20") ;;
  let icon := match num_sides with None => "dice" | Some _ => icon end in
  ret (child icons_path (icon ++ ".svg")).

Definition roll_dice (num_dice num_sides : Z) : Py (Z * list Z) :=
  rolls <- comprehension (fun _ => random.randint 1 num_sides)
                         (range num_dice) ;;
  ret (sum rolls, rolls).

(** The arguments of [albert.Item] are evaluated in the order they are
    written. *)
Definition get_item_from_rolls (rolls : list Z) (sum_rolls : Z)
           (num_sides : option Z) : Py albert.Item :=
  icon <- get_icon_path num_sides ;;
  text <- (if truthy num_sides
           then
             count <- str (Z.of_nat (List.length rolls)) ;;
             sides <- fmt_opt num_sides ;;
             total <- str sum_rolls ;;
             ret ("Rolled " ++ count ++ "d" ++ sides ++ " - Total: " ++ total)
           else
             total <- str sum_rolls ;;
             ret ("Overall Total: " ++ total)) ;;
  listed <- comprehension str rolls ;;
  total <- str sum_rolls ;;
  copied <- comprehension str rolls ;;
  ret (albert.mkItem
         __title__
         icon
         text
         ("Rolls: " ++ join ", " listed)
         [ albert.mkClipAction "Copy total to clipboard" total;
           albert.mkClipAction "Copy rolls to clipboard"
                               (join ", " copied) ]).

(** The local variables of [get_items] the loop updates:
    [results], [sum_all_rolls], [all_rolls]. *)
Definition locals : Type := (list albert.Item * Z * list Z)%type.

(** The body of the [for match in matches] loop. *)
Definition get_items_body (st : locals) (match_ : list string) : Py locals :=
  let '(results, sum_all_rolls, all_rolls) := st in
  m0 <- index match_ 0 ;;
  num_dice <- int m0 ;;
  m1 <- index match_ 1 ;;
  num_sides <- int m1 ;;
  '(sum_rolls, rolls) <- roll_dice num_dice num_sides ;;
  let sum_all_rolls := sum_all_rolls + sum_rolls in
  let all_rolls := (all_rolls ++ rolls)%list in
  item <- get_item_from_rolls rolls sum_rolls (Some num_sides) ;;
  ret ((results ++ [item])%list, sum_all_rolls, all_rolls).

Definition get_items (query_string : string) : Py (list albert.Item) :=
  let matches := findall single_dice_regex query_string in
  '(results, sum_all_rolls, all_rolls) <-
     for_each matches get_items_body ([], 0, []) ;;
  if (1 <? List.length matches)%nat
  then
    item <- get_item_from_rolls all_rolls sum_all_rolls None ;;
    ret (results ++ [item])%list
  else ret results.

(** The notice of the handler. *)
Definition format_notice : string :=
  "Something went wrong. Make sure you're using the correct format.".

(** The handler returns the items, or Python's [None] ([None] here) when
    it falls off its end. *)
Definition handleQuery (query : albert.Query)
  : Py (option (list albert.Item)) :=
  let query_string := strip (albert.query_string query) in
  match fullmatch multiple_dice_regex query_string with
  | Some _ =>
      try_except
        (items <- get_items query_string ;; ret (Some items))
        (fun e =>
           albert.warn e ;;;
           albert.info format_notice ;;;
           ret None)
  | None => ret None
  end.

End Program.

(* ================================================================= *)
(** ** Specification-side notions *)

(** *** What a pattern denotes

    [matches I r s s1]: the pattern [r] can match the text from [s] up to
    its suffix [s1]. Priorities and groups play no part in it. *)
Inductive matches (I : bool) : regex -> string -> string -> Prop :=
| M_Digit x t : is_digit x = true -> matches I Digit (String x t) t
| M_NonDigit x t : is_digit x = false -> matches I NonDigit (String x t) t
| M_Lit ch x t : lit_matches I ch x = true -> matches I (Lit ch) (String x t) t
| M_Cat r1 r2 s s1 s2 :
    matches I r1 s s1 -> matches I r2 s1 s2 -> matches I (Cat r1 r2) s s2
| M_AltL r1 r2 s s1 : matches I r1 s s1 -> matches I (Alt r1 r2) s s1
| M_AltR r1 r2 s s1 : matches I r2 s s1 -> matches I (Alt r1 r2) s s1
| M_PlusOne r s s1 : matches I r s s1 -> matches I (Plus r) s s1
| M_PlusMore r s s1 s2 :
    matches I r s s1 -> matches I (Plus r) s1 s2 -> matches I (Plus r) s s2
| M_Group i r s s1 : matches I r s s1 -> matches I (Group i r) s s1
| M_Eos s : at_eos s = true -> matches I Eos s s.

(** A matcher that only looks at its continuation through its results. *)
Definition extensional {A} (m : matcher A) : Prop :=
  forall s c k1 k2,
    (forall s1 c1, k1 s1 c1 = k2 s1 c1) -> m s c k1 = m s c k2.

(** *** Dice notation, in the words of the specification *)

Fixpoint string_forall (p : ascii -> bool) (s : string) : bool :=
  match s with
  | String x t => p x && string_forall p t
  | EmptyString => true
  end.

(** A non-empty run of characters of a class. *)
Definition run_of (p : ascii -> bool) (s : string) : Prop :=
  s <> EmptyString /\ string_forall p s = true.

(** [<digits>] *)
Definition digits : string -> Prop := run_of is_digit.

(** A run of separator characters: anything but digits. *)
Definition separators : string -> Prop :=
  run_of (fun x => negb (is_digit x)).

(** The letter between the two numbers, in either case. *)
Definition is_d (x : ascii) : bool := Ascii.eqb x "d" || Ascii.eqb x "D".

(** The token [<digits>d<digits>]. *)
Inductive token : string -> Prop :=
| token_intro count x sides :
    digits count -> is_d x = true -> digits sides ->
    token (count ++ String x sides).

(** One token or more, each followed by a run of separators or by the end
    of the text. *)
Inductive dice_notation : string -> Prop :=
| dn_token_end t : token t -> dice_notation t
| dn_token_sep t sep : token t -> separators sep -> dice_notation (t ++ sep)
| dn_more t sep rest :
    token t -> separators sep -> dice_notation rest ->
    dice_notation (t ++ sep ++ rest).

(** One round of the validation pattern: a token, then separators or the
    end of the text. *)
Definition round_rx : regex :=
  Cat (Group 1 (Plus Digit))
      (Cat (Lit "d")
           (Cat (Group 2 (Plus Digit)) (Alt (Plus NonDigit) Eos))).

(** The longest digit prefix of a text, and what follows it. *)
Fixpoint span_digits (s : string) : string * string :=
  match s with
  | String x t =>
      if is_digit x
      then let (ds, rest) := span_digits t in (String x ds, rest)
      else (EmptyString, s)
  | EmptyString => (EmptyString, EmptyString)
  end.

(** The token that starts at the head of a text: its two numbers and the
    text after it. *)
Definition token_here (s : string) : option (string * string * string) :=
  match span_digits s with
  | (String _ _ as count, String x r) =>
      if is_d x then
        match span_digits r with
        | (String _ _ as sides, rest) => Some (count, sides, rest)
        | _ => None
        end
      else None
  | _ => None
  end.

(** The occurrences of the token in a text, from left to right, none
    starting inside the one before ([skip] characters of it are left). *)
Fixpoint occurrences (s : string) (skip : nat) : list (string * string) :=
  match skip, s with
  | S n, String _ t => occurrences t n
  | O, String _ t =>
      match token_here s with
      | Some (count, sides, rest) =>
          (count, sides)
            :: occurrences t (String.length s - String.length rest - 1)
      | None => occurrences t 0
      end
  | _, EmptyString => []
  end.

(** The tuple [findall] makes of an occurrence. *)
Definition tuple_of (t : string * string) : list string :=
  [fst t; snd t].

(** *** Reading an entry back *)

(** The characters [decimal] prints. *)
Definition decimal_char (x : ascii) : bool := is_digit x || Ascii.eqb x "-".

Definition no_comma (x : ascii) : bool := negb (Ascii.eqb x ",").

(** [strip_prefix m s]: [s] without its prefix [m], if it starts with it. *)
Fixpoint strip_prefix (m s : string) : option string :=
  match m, s with
  | EmptyString, _ => Some s
  | String a m', String b s' =>
      if Ascii.eqb a b then strip_prefix m' s' else None
  | String _ _, EmptyString => None
  end.

(** The text after the first occurrence of [marker]. *)
Fixpoint after (marker s : string) : option string :=
  match strip_prefix marker s with
  | Some rest => Some rest
  | None =>
      match s with
      | String _ t => after marker t
      | EmptyString => None
      end
  end.

(** [s.split(", ")] *)
Fixpoint split_commas (s : string) : list string :=
  match s with
  | EmptyString => [EmptyString]
  | String c t =>
      let keep :=
        match split_commas t with
        | h :: r => String c h :: r
        | [] => [String c EmptyString]
        end in
      if Ascii.eqb c ","
      then match t with
           | String c' t' =>
               if Ascii.eqb c' " " then EmptyString :: split_commas t'
               else keep
           | EmptyString => keep
           end
      else keep
  end.

Fixpoint parse_all (xs : list string) : option (list Z) :=
  match xs with
  | [] => Some []
  | x :: xs' =>
      match parse_int x, parse_all xs' with
      | Some n, Some ns => Some (n :: ns)
      | _, _ => None
      end
  end.

(** The integer a headline shows after ["Total: "]. *)
Definition shown_total (headline : string) : option Z :=
  match after "Total: " headline with
  | Some t => parse_int t
  | None => None
  end.

(** The values a subtext lists after ["Rolls: "], split at [", "]. *)
Definition listed_rolls (subtext : string) : option (list Z) :=
  match strip_prefix "Rolls: " subtext with
  | Some EmptyString => Some []
  | Some t => parse_all (split_commas t)
  | None => None
  end.

(** *** What one matched token leads to *)

(** The two numbers of a tuple of [findall]. *)
Definition token_values (m : list string) : option (Z * Z) :=
  match nth_error m 0, nth_error m 1 with
  | Some a, Some b =>
      match parse_int a, parse_int b with
      | Some count, Some sides => Some (count, sides)
      | _, _ => None
      end
  | _, _ => None
  end.

(** The outcome of the [i]-th draw from now on, for dice of [sides]
    sides. *)
Definition draw (w : World) (sides : Z) (i : nat) : Z :=
  1 + tape w (drawn w + i)%nat mod sides.

(** The world after [n] draws. *)
Definition after_draws (w : World) (n : nat) : World :=
  mkWorld (tape w) (drawn w + n) (diagnostics w).

(** A group of dice as rolled: the number of sides and the outcomes. *)
Definition rolled : Type := (Z * list Z)%type.

(** The path whose existence [get_icon_path] asks for. *)
Definition icon_check_path (host : Host) (num_sides : option Z) : string :=
  child (child (module_dir host) "icons")
        ("d" ++ decimal_opt num_sides ++ ".svg").

(** The icon [get_icon_path] returns, when it returns. *)
Definition icon_of (host : Host) (num_sides : option Z) : string :=
  child (child (module_dir host) "icons")
        (match num_sides with
         | None => "dice"
         | Some _ =>
             if file_exists host (icon_check_path host num_sides)
             then "d" ++ decimal_opt num_sides
             else "d20"
         end ++ ".svg").

(** The item [get_item_from_rolls] returns, when it returns. *)
Definition entry (host : Host) (rolls : list Z) (sum_rolls : Z)
           (num_sides : option Z) : albert.Item :=
  albert.mkItem
    __title__
    (icon_of host num_sides)
    (if truthy num_sides
     then "Rolled " ++ decimal (Z.of_nat (List.length rolls)) ++ "d"
          ++ decimal_opt num_sides ++ " - Total: " ++ decimal sum_rolls
     else "Overall Total: " ++ decimal sum_rolls)
    ("Rolls: " ++ join ", " (map decimal rolls))
    [ albert.mkClipAction "Copy total to clipboard" (decimal sum_rolls);
      albert.mkClipAction "Copy rolls to clipboard"
                          (join ", " (map decimal rolls)) ].

(** The numbers [get_item_from_rolls] prints can all be printed. *)
Definition printable (rolls : list Z) (sum_rolls : Z)
           (num_sides : option Z) : bool :=
  (if truthy num_sides then fits (Z.of_nat (List.length rolls)) else true)
  && fits sum_rolls && forallb fits rolls.

Definition group_entry (host : Host) (g : rolled) : albert.Item :=
  entry host (snd g) (sum (snd g)) (Some (fst g)).

Definition summary_entry (host : Host) (gs : list rolled) : albert.Item :=
  entry host (List.concat (map snd gs))
        (sum (map (fun g => sum (snd g)) gs)) None.

(** The group [g] answers the tuple [m]: the sides are those of the token
    and there are as many outcomes as the token asks for. *)
Definition answers (m : list string) (g : rolled) : Prop :=
  token_values m = Some (Z.of_nat (List.length (snd g)), fst g).

(** *** The headline of a group entry as the specification words it

    The specification writes the headline with the dash U+2014. That
    character is outside the alphabet of the model; it stands here as the
    three bytes of its UTF-8 form. *)
Definition claimed_group_headline (count sides total : Z) : string :=
  "Rolled " ++ decimal count ++ "d" ++ decimal sides ++ " — Total: " ++ decimal total.

(** *** Sample installation and worlds *)

Definition sample_host : Host :=
  mkHost "/usr/share/albert/dice_roll"
         (fun p => String.eqb p "/usr/share/albert/dice_roll/icons/d6.svg")
         (fun _ => None).

(** The same installation on a file system that refuses names of more
    than 255 bytes (NAME_MAX). *)
Definition name_max_host : Host :=
  mkHost "/usr/share/albert/dice_roll"
         (fun p => String.eqb p "/usr/share/albert/dice_roll/icons/d6.svg")
         (fun p =>
            if (String.length "/usr/share/albert/dice_roll/icons/" + 255
                <? String.length p)%nat
            then Some "[Errno 36] File name too long"
            else None).

(** The same installation with an icons directory that cannot be
    searched. *)
Definition unsearchable_host : Host :=
  mkHost "/usr/share/albert/dice_roll"
         (fun _ => false)
         (fun _ => Some "[Errno 13] Permission denied").

Definition sample_tape (i : nat) : Z := nth i [3; 10; 17; 24; 31; 38] 0.

Definition sample_world : World := mkWorld sample_tape 0 [].

(** An installation with the icon of the six-sided die and the two
    fallback icons. *)
Definition stocked_host : Host :=
  mkHost "/usr/share/albert/dice_roll"
         (fun p =>
            String.eqb p "/usr/share/albert/dice_roll/icons/d6.svg"
            || String.eqb p "/usr/share/albert/dice_roll/icons/d20.svg"
            || String.eqb p "/usr/share/albert/dice_roll/icons/dice.svg")
         (fun _ => None).

(** The entries of ["2d6 3d8 1D20"] on the sample tape. *)
Definition sample_entries : list albert.Item :=
  [ entry sample_host [4; 5] 9 (Some 6);
    entry sample_host [2; 1; 8] 11 (Some 8);
    entry sample_host [19] 19 (Some 20);
    entry sample_host [4; 5; 2; 1; 8; 19] 39 None ].

(** *** A text in dice notation as a list of rounds *)

(** One round: the two numbers, the letter between them and the
    separators that follow. *)
Record round : Type := mkRound {
  round_count : string;
  round_letter : ascii;
  round_sides : string;
  round_sep : string
}.

Definition round_text (u : round) : string :=
  round_count u ++ String (round_letter u) (round_sides u ++ round_sep u).

Fixpoint rounds_text (us : list round) : string :=
  match us with
  | [] => EmptyString
  | u :: us' => round_text u ++ rounds_text us'
  end.

Definition round_token (u : round) : Prop :=
  digits (round_count u) /\ is_d (round_letter u) = true
  /\ digits (round_sides u).

(** A round at least; separators between two rounds; after the last
    round, separators or nothing. *)
Fixpoint well_formed_rounds (us : list round) : Prop :=
  match us with
  | [] => False
  | u :: us' =>
      round_token u
      /\ match us' with
         | [] => string_forall (fun x => negb (is_digit x)) (round_sep u) = true
         | _ :: _ => separators (round_sep u) /\ well_formed_rounds us'
         end
  end.

Definition round_tuple (u : round) : list string :=
  [round_count u; round_sides u].

(** *** The groups as a function of the tape *)

(** The groups rolled for the tokens [ts] (count, sides), one after the
    other from the world [w] on. *)
Fixpoint roll_groups (w : World) (ts : list (Z * Z)) : list rolled :=
  match ts with
  | [] => []
  | (count, sides) :: ts' =>
      (sides, map (draw w sides) (seq 0 (Z.to_nat count)))
        :: roll_groups (after_draws w (Z.to_nat count)) ts'
  end.

(** The two numbers of an occurrence read as the token [p]. *)
Definition reads_as (t : string * string) (p : Z * Z) : Prop :=
  parse_int (fst t) = Some (fst p) /\ parse_int (snd t) = Some (snd p).

(** The number of dice the tokens ask for. *)
Definition dice_asked (ts : list (Z * Z)) : nat :=
  list_sum (map (fun t => Z.to_nat (fst t)) ts).

(** A token that asks for dice without sides. *)
Definition sideless (t : Z * Z) : Prop := 0 < fst t /\ snd t = 0.

(** The exception [randint] raises on an empty range. *)
Definition empty_range : exn := ValueError "empty range for randrange()".

(** All the characters of a class. *)
Definition blanks (s : string) : Prop := string_forall is_space s = true.

(** *** The loop on the numbers of the tokens *)

(** One turn of the loop of [get_items] once the two literals are read. *)
Definition roll_token (host : Host) (st : locals) (p : Z * Z) : Py locals :=
  let '(results, sum_all_rolls, all_rolls) := st in
  '(sum_rolls, rolls) <- roll_dice (fst p) (snd p) ;;
  item <- get_item_from_rolls host rolls sum_rolls (Some (snd p)) ;;
  ret ((results ++ [item])%list, sum_all_rolls + sum_rolls,
       (all_rolls ++ rolls)%list).

(** [get_items] on the numbers of the tokens. *)
Definition get_items_of_values (host : Host) (ps : list (Z * Z))
  : Py (list albert.Item) :=
  '(results, sum_all_rolls, all_rolls) <-
     for_each ps (roll_token host) ([], 0, []) ;;
  if (1 <? List.length ps)%nat
  then
    item <- get_item_from_rolls host all_rolls sum_all_rolls None ;;
    ret (results ++ [item])%list
  else ret results.

(** A literal [int] accepts as far as its length goes. *)
Definition short (s : string) : Prop :=
  (String.length s <= int_max_str_digits)%nat.

(** What a run of [get_items] changes at most: the generator advances. *)
Definition only_draws (w w' : World) : Prop :=
  tape w' = tape w /\ diagnostics w' = diagnostics w
  /\ (drawn w <= drawn w')%nat.

(** *** Dice notation with separators that exclude the letter

    The separators as the words non-digit-d read: neither a digit nor
    the letter of the token. *)
Definition strict_separators : string -> Prop :=
  run_of (fun x => negb (is_digit x) && negb (is_d x)).

Inductive strict_dice_notation : string -> Prop :=
| sdn_token_end t : token t -> strict_dice_notation t
| sdn_token_sep t sep :
    token t -> strict_separators sep -> strict_dice_notation (t ++ sep)
| sdn_more t sep rest :
    token t -> strict_separators sep -> strict_dice_notation rest ->
    strict_dice_notation (t ++ sep ++ rest).

(** Every letter [d] or [D] of the text has a digit after it. *)
Fixpoint letters_before_digits (s : string) : bool :=
  match s with
  | String x t =>
      (if is_d x
       then match t with
            | String y _ => is_digit y
            | EmptyString => false
            end
       else true)
      && letters_before_digits t
  | EmptyString => true
  end.

(** A side count of 251 digits: [d{sides}.svg] is a name of 256 bytes. *)
Definition ones_251 : string :=
  Eval vm_compute in
    String.concat EmptyString (repeat "1" 251).


(* ================================================================= *)
(** ** Facts about the built-ins *)

Unset Implicit Arguments.

(** Case analysis on the eight bits of a character. *)
Ltac each_char x := destruct x as [[] [] [] [] [] [] [] []].

(** The built-ins on small inputs. *)
Example decimal_samples : (decimal 0, decimal 7, decimal 120, decimal (-5)) = ("0", "7", "120", "-5").
Proof. reflexivity. Qed.

Example parse_int_samples :
  (parse_int "007", parse_int "20", parse_int "", parse_int "2d")
  = (Some 7, Some 20, None, None).
Proof. reflexivity. Qed.

Example strip_sample : strip "  2d6 3d8 	" = "2d6 3d8".
Proof. reflexivity. Qed.

Example join_sample : join ", " (map decimal [4; 5; 19]) = "4, 5, 19".
Proof. reflexivity. Qed.

(** The two patterns on small inputs. *)
Example fullmatch_samples :
  (fullmatch multiple_dice_regex "2d6 3d8 1D20",
   fullmatch multiple_dice_regex "2d6",
   fullmatch multiple_dice_regex "hello",
   fullmatch multiple_dice_regex "1d2d3",
   fullmatch multiple_dice_regex "2d6 and")
  = (Some [(2, "20"); (1, "1"); (2, "8"); (1, "3"); (2, "6"); (1, "2")]%nat,
     Some [(2, "6"); (1, "2")]%nat,
     None, None,
     Some [(2, "6"); (1, "2")]%nat).
Proof. reflexivity. Qed.

Example findall_samples :
  (findall single_dice_regex "2d6 3d8 1D20",
   findall single_dice_regex "1d2d3",
   findall single_dice_regex "x12d34 007D5!",
   findall single_dice_regex "hello")
  = ([["2"; "6"]; ["3"; "8"]; ["1"; "20"]],
     [["1"; "2"]],
     [["12"; "34"]; ["007"; "5"]],
     []).
Proof. reflexivity. Qed.

Section StringFacts.

Lemma string_forall_app p s t :
  string_forall p (s ++ t) = string_forall p s && string_forall p t.
Proof.
  induction s as [|x s IH]; simpl.
  - reflexivity.
  - rewrite IH. apply andb_assoc.
Qed.

Lemma string_forall_impl (p q : ascii -> bool) s :
  (forall x, p x = true -> q x = true) ->
  string_forall p s = true -> string_forall q s = true.
Proof.
  intros Hpq. induction s as [|x s IH]; simpl; [reflexivity|].
  intros H. apply andb_true_iff in H as [Hx Hs].
  rewrite (Hpq _ Hx), (IH Hs). reflexivity.
Qed.

Lemma append_nil_r s : s ++ EmptyString = s.
Proof. induction s as [|x s IH]; simpl; [|rewrite IH]; reflexivity. Qed.

Lemma append_assoc s t u : (s ++ t) ++ u = s ++ t ++ u.
Proof. induction s as [|x s IH]; simpl; [|rewrite IH]; reflexivity. Qed.

Lemma length_append s t :
  String.length (s ++ t) = (String.length s + String.length t)%nat.
Proof. induction s as [|x s IH]; simpl; [|rewrite IH]; reflexivity. Qed.

Lemma append_same_length_nil p s :
  String.length (p ++ s) = String.length s -> p = EmptyString.
Proof.
  rewrite length_append. destruct p; simpl; [reflexivity|lia].
Qed.

End StringFacts.

(** Decimal printing. *)
Section Decimal.

Lemma string_of_uint_digits d :
  string_forall is_digit (NilEmpty.string_of_uint d) = true.
Proof. induction d; simpl; auto. Qed.

Lemma nilzero_string_of_uint_digits d :
  string_forall is_digit (NilZero.string_of_uint d) = true.
Proof. destruct d; try reflexivity; apply (string_of_uint_digits (_ _)). Qed.

Lemma nilzero_string_of_uint_nonempty d :
  NilZero.string_of_uint d <> EmptyString.
Proof. destruct d; discriminate. Qed.

Lemma to_int_nonneg n :
  0 <= n -> exists d, Z.to_int n = Decimal.Pos d.
Proof.
  destruct n; intros H; simpl; eauto. lia.
Qed.

(** A number that is not negative prints as a run of digits. *)
Lemma decimal_digits n : 0 <= n -> digits (decimal n).
Proof.
  intros H. destruct (to_int_nonneg n H) as [d Hd].
  unfold decimal, digits, run_of. rewrite Hd. simpl. split.
  - apply nilzero_string_of_uint_nonempty.
  - apply nilzero_string_of_uint_digits.
Qed.

Lemma decimal_chars n : string_forall decimal_char (decimal n) = true.
Proof.
  unfold decimal. destruct (Z.to_int n) as [d|d]; simpl.
  - eapply string_forall_impl; [|apply nilzero_string_of_uint_digits].
    intros x Hx. unfold decimal_char. rewrite Hx. reflexivity.
  - eapply string_forall_impl; [|apply nilzero_string_of_uint_digits].
    intros x Hx. unfold decimal_char. rewrite Hx. reflexivity.
Qed.

Lemma decimal_nonempty n : decimal n <> EmptyString.
Proof.
  unfold decimal. destruct (Z.to_int n) as [d|d]; simpl.
  - apply nilzero_string_of_uint_nonempty.
  - discriminate.
Qed.

(** [int(decimal(n)) == n] *)
Lemma parse_int_decimal n : parse_int (decimal n) = Some n.
Proof.
  unfold parse_int, decimal. rewrite NilZero.isi.
  - simpl. rewrite DecimalZ.of_to. reflexivity.
  - destruct n; simpl; try discriminate.
    intros [= H]. revert H. apply Unsigned.to_uint_nonnil.
  - destruct n; simpl; try discriminate.
    intros [= H]. revert H. apply Unsigned.to_uint_nonnil.
Qed.

End Decimal.

(** Reading back what [get_item_from_rolls] prints. *)
Section Readers.

Lemma strip_prefix_app m rest : strip_prefix m (m ++ rest) = Some rest.
Proof.
  induction m as [|a m IH]; simpl.
  - reflexivity.
  - rewrite Ascii.eqb_refl. exact IH.
Qed.

Lemma after_here m s rest :
  strip_prefix m s = Some rest -> after m s = Some rest.
Proof.
  intros H. destruct s; unfold after; fold after; rewrite H; reflexivity.
Qed.

(** A marker is found after a prefix that lacks its first character. *)
Lemma after_skip a m pre rest :
  string_forall (fun x => negb (Ascii.eqb a x)) pre = true ->
  after (String a m) (pre ++ String a m ++ rest) = Some rest.
Proof.
  induction pre as [|x pre IH]; intros H.
  - apply after_here, (strip_prefix_app (String a m)).
  - simpl in H. apply andb_true_iff in H as [Hx Hpre].
    change ((String x pre) ++ String a m ++ rest)
      with (String x (pre ++ String a m ++ rest)).
    unfold after; fold after.
    assert (Hs : strip_prefix (String a m)
                   (String x (pre ++ String a m ++ rest)) = None).
    { simpl. apply negb_true_iff in Hx. rewrite Hx. reflexivity. }
    rewrite Hs. apply IH, Hpre.
Qed.

Lemma decimal_char_not_T s :
  string_forall decimal_char s = true ->
  string_forall (fun x => negb (Ascii.eqb "T" x)) s = true.
Proof.
  apply string_forall_impl. intros x.
  each_char x; vm_compute; congruence.
Qed.

Lemma decimal_not_T n :
  string_forall (fun x => negb (Ascii.eqb "T" x)) (decimal n) = true.
Proof. apply decimal_char_not_T, decimal_chars. Qed.

Lemma shown_total_group n sides total :
  shown_total ("Rolled " ++ decimal n ++ "d" ++ decimal sides ++ " - Total: "
               ++ decimal total) = Some total.
Proof.
  unfold shown_total.
  replace ("Rolled " ++ decimal n ++ "d" ++ decimal sides ++ " - Total: " ++ decimal total)
    with (("Rolled " ++ decimal n ++ "d" ++ decimal sides ++ " - ")
            ++ "Total: " ++ decimal total).
  - rewrite after_skip.
    + apply parse_int_decimal.
    + rewrite !string_forall_app, !decimal_not_T. reflexivity.
  - rewrite !append_assoc. reflexivity.
Qed.

Lemma shown_total_summary total :
  shown_total ("Overall Total: " ++ decimal total) = Some total.
Proof.
  unfold shown_total.
  change ("Overall Total: " ++ decimal total)
    with ("Overall " ++ "Total: " ++ decimal total).
  rewrite after_skip; [apply parse_int_decimal | reflexivity].
Qed.

Lemma split_commas_nonempty s : split_commas s <> [].
Proof.
  induction s as [|c t IH]; simpl; [discriminate|].
  destruct (split_commas t); [contradiction|].
  destruct (Ascii.eqb c ","); [|discriminate].
  destruct t as [|c' t']; [discriminate|].
  destruct (Ascii.eqb c' " "); discriminate.
Qed.

(** A piece without commas stays in front of what follows it. *)
Lemma split_commas_piece x rest :
  string_forall no_comma x = true ->
  split_commas (x ++ rest) =
  match split_commas rest with
  | h :: r => (x ++ h) :: r
  | [] => [x]
  end.
Proof.
  induction x as [|c x IH]; intros H.
  - simpl. destruct (split_commas rest) eqn:E; [|reflexivity].
    exfalso. exact (split_commas_nonempty _ E).
  - simpl in H. apply andb_true_iff in H as [Hc Hx].
    unfold no_comma in Hc. apply negb_true_iff in Hc.
    change (String c x ++ rest) with (String c (x ++ rest)).
    unfold split_commas; fold split_commas. rewrite Hc, (IH Hx).
    destruct (split_commas rest); reflexivity.
Qed.

Lemma split_commas_sep rest :
  split_commas (", " ++ rest) = EmptyString :: split_commas rest.
Proof. reflexivity. Qed.

Lemma split_commas_join xs :
  xs <> [] ->
  Forall (fun x => string_forall no_comma x = true) xs ->
  split_commas (join ", " xs) = xs.
Proof.
  induction xs as [|x xs IH]; intros Hne Hall; [contradiction|].
  inversion Hall as [|? ? Hx Hxs]; subst.
  destruct xs as [|y ys].
  - simpl. rewrite <- (append_nil_r x) at 1.
    rewrite (split_commas_piece _ _ Hx). simpl. rewrite append_nil_r.
    reflexivity.
  - change (join ", " (x :: y :: ys)) with (x ++ ", " ++ join ", " (y :: ys)).
    rewrite (split_commas_piece _ _ Hx), split_commas_sep, IH.
    + rewrite append_nil_r. reflexivity.
    + discriminate.
    + exact Hxs.
Qed.

Lemma decimal_no_comma n : string_forall no_comma (decimal n) = true.
Proof.
  eapply string_forall_impl; [|apply decimal_chars].
  intros x. each_char x; vm_compute; congruence.
Qed.

Lemma parse_all_decimal ns : parse_all (map decimal ns) = Some ns.
Proof.
  induction ns as [|n ns IH]; simpl; [reflexivity|].
  rewrite parse_int_decimal, IH. reflexivity.
Qed.

Lemma join_decimal_nonempty n ns : join ", " (map decimal (n :: ns)) <> EmptyString.
Proof.
  simpl. destruct (map decimal ns).
  - apply decimal_nonempty.
  - destruct (decimal n) eqn:E; [exfalso; exact (decimal_nonempty _ E)|discriminate].
Qed.

Lemma listed_rolls_subtext ns :
  listed_rolls ("Rolls: " ++ join ", " (map decimal ns)) = Some ns.
Proof.
  unfold listed_rolls. rewrite strip_prefix_app.
  destruct ns as [|n ns]; [reflexivity|].
  destruct (join ", " (map decimal (n :: ns))) eqn:E.
  - exfalso. exact (join_decimal_nonempty _ _ E).
  - rewrite <- E, split_commas_join.
    + apply parse_all_decimal.
    + discriminate.
    + apply Forall_forall. intros x Hx. apply in_map_iff in Hx as [k [<- _]].
      apply decimal_no_comma.
Qed.

End Readers.

(* ================================================================= *)
(** ** The matcher and what patterns denote *)

Section EngineFacts.

Variable A : Type.

Lemma orelse_some_l (x y : option A) : x <> None -> orelse x y <> None.
Proof. destruct x; simpl; congruence. Qed.

Lemma orelse_some_r (x y : option A) : y <> None -> orelse x y <> None.
Proof. destruct x; simpl; congruence. Qed.

Lemma one_char_extensional p : extensional (one_char (A:=A) p).
Proof.
  intros s c k1 k2 H. destruct s as [|x t]; simpl; [reflexivity|].
  destruct (p x); [apply H|reflexivity].
Qed.

Lemma plus_loop_extensional (body : matcher A) :
  extensional body -> forall fuel, extensional (plus_loop body fuel).
Proof.
  intros Hb fuel. induction fuel as [|fuel IH]; intros s c k1 k2 H; simpl.
  - apply Hb. intros s1 c1. rewrite H. reflexivity.
  - apply Hb. intros s1 c1. rewrite H, (IH s1 c1 k1 k2 H). reflexivity.
Qed.

Lemma run_extensional I r : extensional (run (A:=A) I r).
Proof.
  induction r as [| |ch|r1 IH1 r2 IH2|r1 IH1 r2 IH2|r1 IH1|i r1 IH1|];
    simpl; try apply one_char_extensional.
  - intros s c k1 k2 H. apply IH1. intros s1 c1. apply IH2, H.
  - intros s c k1 k2 H. rewrite (IH1 s c k1 k2 H), (IH2 s c k1 k2 H).
    reflexivity.
  - intros s c k1 k2 H. apply plus_loop_extensional; assumption.
  - intros s c k1 k2 H. apply IH1. intros s1 c1. apply H.
  - intros s c k1 k2 H. rewrite H. reflexivity.
Qed.

(** The fuel [String.length s] of a repetition never runs out: more fuel
    changes nothing. *)
Lemma plus_loop_fuel (body : matcher A) :
  extensional body ->
  forall f1 f2 s c k,
    (String.length s <= f1)%nat -> (String.length s <= f2)%nat ->
    plus_loop body f1 s c k = plus_loop body f2 s c k.
Proof.
  intros Hb f1. induction f1 as [|f1 IH]; intros f2 s c k H1 H2.
  - destruct f2; simpl; [reflexivity|].
    apply Hb. intros s1 c1.
    destruct (Nat.ltb_spec (String.length s1) (String.length s));
      [lia|reflexivity].
  - destruct f2; simpl.
    + apply Hb. intros s1 c1.
      destruct (Nat.ltb_spec (String.length s1) (String.length s));
        [lia|reflexivity].
    + apply Hb. intros s1 c1.
      destruct (Nat.ltb_spec (String.length s1) (String.length s));
        [|reflexivity].
      rewrite (IH f2 s1 c1 k); [reflexivity|lia|lia].
Qed.

Lemma matches_suffix I r s s1 :
  matches I r s s1 -> exists p, s = p ++ s1.
Proof.
  induction 1 as [x t _|x t _|ch x t _
                 |r1 r2 s s1 s2 _ [p1 ->] _ [p2 ->]
                 |r1 r2 s s1 _ IH|r1 r2 s s1 _ IH
                 |r s s1 _ IH
                 |r s s1 s2 _ [p1 ->] _ [p2 ->]
                 |i r s s1 _ IH|s _];
    try (exists (String x EmptyString); reflexivity);
    try exact IH.
  - exists (p1 ++ p2). symmetry. apply append_assoc.
  - exists (p1 ++ p2). symmetry. apply append_assoc.
  - exists EmptyString. reflexivity.
Qed.

(** Whatever the matcher returns, it returns at the end of a match. *)
Lemma run_sound I r :
  forall s c (k : kont A) a,
    run I r s c k = Some a ->
    exists s1 c1, matches I r s s1 /\ k s1 c1 = Some a.
Proof.
  induction r as [| |ch|r1 IH1 r2 IH2|r1 IH1 r2 IH2|r1 IH1|i r1 IH1|];
    intros s c k a H; simpl in H.
  - destruct s as [|x t]; simpl in H; [discriminate|].
    destruct (is_digit x) eqn:E; [|discriminate].
    exists t, c. split; [constructor; exact E|exact H].
  - destruct s as [|x t]; simpl in H; [discriminate|].
    destruct (is_digit x) eqn:E; simpl in H; [discriminate|].
    exists t, c. split; [constructor; exact E|exact H].
  - destruct s as [|x t]; simpl in H; [discriminate|].
    destruct (lit_matches I ch x) eqn:E; [|discriminate].
    exists t, c. split; [constructor; exact E|exact H].
  - apply IH1 in H as (s1 & c1 & M1 & H).
    apply IH2 in H as (s2 & c2 & M2 & H).
    exists s2, c2. split; [econstructor; eassumption|exact H].
  - destruct (run I r1 s c k) eqn:E; simpl in H.
    + injection H as <-. apply IH1 in E as (s1 & c1 & M1 & E).
      exists s1, c1. split; [apply M_AltL; exact M1|exact E].
    + apply IH2 in H as (s1 & c1 & M1 & H).
      exists s1, c1. split; [apply M_AltR; exact M1|exact H].
  - remember (String.length s) as fuel eqn:Ef. clear Ef.
    revert s c H. induction fuel as [|fuel IHf]; intros s c H; simpl in H.
    + apply IH1 in H as (s1 & c1 & M1 & H).
      exists s1, c1. split; [apply M_PlusOne; exact M1|].
      destruct (String.length s1 <? String.length s)%nat; exact H.
    + apply IH1 in H as (s1 & c1 & M1 & H).
      destruct (String.length s1 <? String.length s)%nat.
      * destruct (plus_loop (run I r1) fuel s1 c1 k) eqn:E; simpl in H.
        -- injection H as <-. apply IHf in E as (s2 & c2 & M2 & E).
           exists s2, c2. split; [eapply M_PlusMore; eassumption|exact E].
        -- exists s1, c1. split; [apply M_PlusOne; exact M1|exact H].
      * exists s1, c1. split; [apply M_PlusOne; exact M1|exact H].
  - apply IH1 in H as (s1 & c1 & M1 & H).
    exists s1, (cons (i, consumed s s1) c1).
    split; [constructor; exact M1|exact H].
  - destruct (at_eos s) eqn:E; [|discriminate].
    exists s, c. split; [constructor; exact E|exact H].
Qed.

(** Backtracking misses nothing: when some match ends where the
    continuation accepts, the matcher returns a result. *)
Lemma run_complete I r s s1 :
  matches I r s s1 ->
  forall c (k : kont A),
    (forall c1, k s1 c1 <> None) -> run I r s c k <> None.
Proof.
  induction 1 as [x t E|x t E|ch x t E
                 |r1 r2 s s1 s2 _ IH1 _ IH2
                 |r1 r2 s s1 _ IH|r1 r2 s s1 _ IH
                 |r s s1 _ IH
                 |r s s1 s2 M1 IH1 M2 IH2
                 |i r s s1 _ IH|s E];
    intros c k Hk; simpl.
  - rewrite E. apply Hk.
  - rewrite E. apply Hk.
  - rewrite E. apply Hk.
  - apply IH1. intros c1. apply IH2, Hk.
  - apply orelse_some_l, IH, Hk.
  - apply orelse_some_r, IH, Hk.
  - destruct (String.length s); simpl; apply IH; intros c1;
      destruct (String.length s1 <? _)%nat;
      try apply orelse_some_r; apply Hk.
  - destruct (Nat.ltb_spec (String.length s1) (String.length s)) as [Hlt|Hge].
    + destruct (String.length s) as [|n] eqn:En; [lia|]. simpl.
      apply IH1. intros c1.
      destruct (Nat.ltb_spec (String.length s1) (String.length s));
        [|lia].
      apply orelse_some_l.
      rewrite (plus_loop_fuel _ (run_extensional I r) n (String.length s1));
        [|lia|lia].
      apply (IH2 c1 k Hk).
    + destruct (matches_suffix _ _ _ _ M1) as [p Hp].
      assert (p = EmptyString) as ->.
      { apply (append_same_length_nil p s1). rewrite <- Hp.
        pose proof (length_append p s1) as L. rewrite <- Hp in L. lia. }
      simpl in Hp. subst s1. apply (IH2 c k Hk).
  - apply IH. intros c1. apply Hk.
  - rewrite E. apply Hk.
Qed.

End EngineFacts.

(** [fullmatch] succeeds exactly on the texts the pattern denotes. *)
Lemma fullmatch_iff p s :
  fullmatch p s <> None <-> matches (ignorecase p) (rx p) s EmptyString.
Proof.
  unfold fullmatch. split.
  - intros H.
    destruct (run (ignorecase p) (rx p) s []
                (fun s1 c1 => match s1 with
                              | EmptyString => Some c1
                              | String _ _ => None
                              end)) as [a|] eqn:E; [|congruence].
    apply run_sound in E as (s1 & c1 & M & E).
    destruct s1; [exact M|discriminate].
  - intros M. apply (run_complete _ _ _ _ _ M). intros c1. discriminate.
Qed.

(* ================================================================= *)
(** ** What the two patterns of the program denote *)

Section PatternLanguage.

Lemma lit_d_is_d x : lit_matches true "d" x = is_d x.
Proof. each_char x; reflexivity. Qed.

Lemma is_d_not_digit x : is_d x = true -> is_digit x = false.
Proof. each_char x; vm_compute; congruence. Qed.

Lemma run_of_cons p x s :
  p x = true -> string_forall p s = true -> run_of p (String x s).
Proof.
  intros Hx Hs. split; [discriminate|]. simpl. rewrite Hx, Hs. reflexivity.
Qed.

Lemma run_of_head p s :
  run_of p s -> exists x t, s = String x t /\ p x = true
                             /\ string_forall p t = true.
Proof.
  intros [Hne H]. destruct s as [|x t]; [contradiction|].
  simpl in H. apply andb_true_iff in H as [Hx Ht]. eauto.
Qed.

(** A repeated character class denotes the non-empty runs of the class. *)
Lemma matches_plus_run I r p :
  (forall s s1, matches I r s s1 <->
                exists x, p x = true /\ s = String x s1) ->
  forall s s1,
    matches I (Plus r) s s1 <-> exists ds, run_of p ds /\ s = ds ++ s1.
Proof.
  intros Hr s s1. split.
  - intros M. remember (Plus r) as r' eqn:Er.
    induction M as [| | | | | |r0 s s1 M _|r0 s s1 s2 M1 _ M2 IH| |];
      try discriminate; injection Er as ->.
    + apply Hr in M as (x & Hx & ->).
      exists (String x EmptyString). split; [|reflexivity].
      apply run_of_cons; [exact Hx|reflexivity].
    + apply Hr in M1 as (x & Hx & ->).
      destruct (IH eq_refl) as (ds & [_ Hds] & ->).
      exists (String x ds). split; [|reflexivity].
      apply run_of_cons; assumption.
  - intros (ds & Hds & ->). revert Hds.
    induction ds as [|x ds IH]; intros [Hne H]; [contradiction|].
    simpl in H. apply andb_true_iff in H as [Hx Hds].
    destruct ds as [|y ds'].
    + apply M_PlusOne, Hr. exists x. split; [exact Hx|reflexivity].
    + apply M_PlusMore with (s1 := String y ds' ++ s1).
      * apply Hr. exists x. split; [exact Hx|reflexivity].
      * apply IH. split; [discriminate|exact Hds].
Qed.

Lemma matches_Digit I s s1 :
  matches I Digit s s1 <-> exists x, is_digit x = true /\ s = String x s1.
Proof.
  split.
  - inversion 1; subst; eauto.
  - intros (x & Hx & ->). constructor; exact Hx.
Qed.

Lemma matches_NonDigit I s s1 :
  matches I NonDigit s s1 <->
  exists x, negb (is_digit x) = true /\ s = String x s1.
Proof.
  split.
  - inversion 1 as [|x t E| | | | | | | |]; subst. exists x.
    rewrite E. split; reflexivity.
  - intros (x & Hx & ->). constructor. apply negb_true_iff, Hx.
Qed.

Lemma matches_digits I s s1 :
  matches I (Plus Digit) s s1 <-> exists ds, digits ds /\ s = ds ++ s1.
Proof. apply matches_plus_run, matches_Digit. Qed.

Lemma matches_separators I s s1 :
  matches I (Plus NonDigit) s s1 <->
  exists sep, separators sep /\ s = sep ++ s1.
Proof. apply (matches_plus_run I NonDigit), matches_NonDigit. Qed.

Lemma matches_round s s1 :
  matches true round_rx s s1 <->
  exists t, token t /\
            ((exists sep, separators sep /\ s = t ++ sep ++ s1)
             \/ (s = t ++ s1 /\ at_eos s1 = true)).
Proof.
  unfold round_rx. split.
  - intros M.
    inversion M as [| | |? ? ? sa ? Mc M'| | | | | |]; subst; clear M.
    inversion Mc as [| | | | | | | |? ? ? ? Mc'|]; subst; clear Mc.
    apply matches_digits in Mc' as (count & Hc & ->).
    inversion M' as [| | |? ? ? sb ? Md M''| | | | | |]; subst; clear M'.
    inversion Md as [| |? x ? Hx| | | | | | |]; subst; clear Md.
    rewrite lit_d_is_d in Hx.
    inversion M'' as [| | |? ? ? sc ? Ms M3| | | | | |]; subst; clear M''.
    inversion Ms as [| | | | | | | |? ? ? ? Ms'|]; subst; clear Ms.
    apply matches_digits in Ms' as (sides & Hs & ->).
    exists (count ++ String x sides). split; [constructor; assumption|].
    inversion M3 as [| | | |? ? ? ? Msep|? ? ? ? Me| | | |]; subst; clear M3.
    + apply matches_separators in Msep as (sep & Hsep & ->).
      left. exists sep. split; [exact Hsep|].
      rewrite append_assoc. reflexivity.
    + inversion Me as [| | | | | | | | |? E]; subst.
      right. split; [|exact E]. rewrite append_assoc. reflexivity.
  - intros (t & Ht & Hrest). destruct Ht as [count x sides Hc Hx Hs].
    assert (Hfront : forall tail,
               matches true (Alt (Plus NonDigit) Eos) tail s1 ->
               matches true
                 (Cat (Group 1 (Plus Digit))
                    (Cat (Lit "d")
                       (Cat (Group 2 (Plus Digit))
                          (Alt (Plus NonDigit) Eos))))
                 ((count ++ String x sides) ++ tail) s1).
    { intros tail Mt. rewrite append_assoc.
      apply M_Cat with (s1 := String x sides ++ tail).
      - apply M_Group, matches_digits. exists count. split; [exact Hc|reflexivity].
      - apply M_Cat with (s1 := sides ++ tail).
        + simpl. constructor. rewrite lit_d_is_d. exact Hx.
        + apply M_Cat with (s1 := tail); [|exact Mt].
          apply M_Group, matches_digits. exists sides.
          split; [exact Hs|reflexivity]. }
    destruct Hrest as [(sep & Hsep & ->)|[-> E]].
    + apply Hfront, M_AltL, matches_separators.
      exists sep. split; [exact Hsep|reflexivity].
    + apply Hfront, M_AltR, M_Eos, E.
Qed.

Lemma token_starts_with_digit t :
  token t -> exists x u, t = String x u /\ is_digit x = true.
Proof.
  intros [count y sides Hc _ _].
  destruct (run_of_head _ _ Hc) as (x & u & -> & Hx & _).
  exists x, (u ++ String y sides). split; [reflexivity|exact Hx].
Qed.

Lemma dice_notation_starts_with_digit s :
  dice_notation s -> exists x u, s = String x u /\ is_digit x = true.
Proof.
  intros H.
  assert (Happ : forall t rest, token t ->
             exists x u, t ++ rest = String x u /\ is_digit x = true).
  { intros t rest Ht.
    destruct (token_starts_with_digit _ Ht) as (x & u & -> & Hx).
    exists x, (u ++ rest). split; [reflexivity|exact Hx]. }
  destruct H as [t Ht|t sep Ht _|t sep rest Ht _ _].
  - apply token_starts_with_digit, Ht.
  - apply Happ, Ht.
  - apply Happ, Ht.
Qed.

Lemma at_eos_not_dice_notation s :
  at_eos s = true -> ~ dice_notation s.
Proof.
  intros E H.
  destruct (dice_notation_starts_with_digit _ H) as (x & u & -> & Hx).
  destruct u; [|discriminate]. simpl in E.
  apply Ascii.eqb_eq in E. subst x. discriminate.
Qed.

(** The validation pattern denotes the dice notation. *)
Lemma multiple_dice_regex_denotes s :
  matches true (rx multiple_dice_regex) s EmptyString <-> dice_notation s.
Proof.
  change (rx multiple_dice_regex) with (Plus round_rx). split.
  - intros M. remember (Plus round_rx) as r eqn:Er.
    remember EmptyString as e eqn:Ee.
    induction M as [| | | | | |r0 s s1 M _|r0 s s1 s2 M1 _ M2 IH| |];
      try discriminate; injection Er as ->; subst.
    + apply matches_round in M as (t & Ht & [(sep & Hsep & ->)|[-> _]]).
      * rewrite append_nil_r. apply dn_token_sep; assumption.
      * rewrite append_nil_r. apply dn_token_end; assumption.
    + specialize (IH eq_refl eq_refl).
      apply matches_round in M1 as (t & Ht & [(sep & Hsep & ->)|[-> E]]).
      * apply dn_more; assumption.
      * exfalso. exact (at_eos_not_dice_notation _ E IH).
  - induction 1 as [t Ht|t sep Ht Hsep|t sep rest Ht Hsep _ IH].
    + apply M_PlusOne, matches_round. exists t. split; [exact Ht|].
      right. split; [symmetry; apply append_nil_r|reflexivity].
    + apply M_PlusOne, matches_round. exists t. split; [exact Ht|].
      left. exists sep. split; [exact Hsep|]. rewrite append_nil_r.
      reflexivity.
    + apply M_PlusMore with (s1 := rest); [|exact IH].
      apply matches_round. exists t. split; [exact Ht|].
      left. exists sep. split; [exact Hsep|reflexivity].
Qed.

End PatternLanguage.

(* ================================================================= *)
(** ** The scan of [findall] with the extraction pattern *)

Section Extraction.

Lemma span_digits_spec s :
  let (ds, rest) := span_digits s in
  s = ds ++ rest /\ string_forall is_digit ds = true
  /\ match rest with
     | String x _ => is_digit x = false
     | EmptyString => True
     end.
Proof.
  induction s as [|x t IH]; simpl.
  - repeat split.
  - destruct (is_digit x) eqn:E.
    + destruct (span_digits t) as [ds rest]. destruct IH as (-> & Hds & Hr).
      simpl. rewrite E, Hds. repeat split. exact Hr.
    + simpl. repeat split. exact E.
Qed.

(** A run of digits followed by something else is the longest one. *)
Lemma span_digits_run ds rest :
  string_forall is_digit ds = true ->
  match rest with
  | String x _ => is_digit x = false
  | EmptyString => True
  end ->
  span_digits (ds ++ rest) = (ds, rest).
Proof.
  intros Hds Hr. induction ds as [|x ds IH]; simpl.
  - destruct rest as [|y r]; simpl; [reflexivity|]. rewrite Hr. reflexivity.
  - simpl in Hds. apply andb_true_iff in Hds as [Hx Hds].
    rewrite Hx, (IH Hds). reflexivity.
Qed.

Lemma substring_prefix ds rest :
  substring 0 (String.length ds) (ds ++ rest) = ds.
Proof.
  induction ds as [|x ds IH]; simpl.
  - destruct rest; reflexivity.
  - rewrite IH. reflexivity.
Qed.

Lemma consumed_app ds rest : consumed (ds ++ rest) rest = ds.
Proof.
  unfold consumed. rewrite length_append.
  replace (String.length ds + String.length rest - String.length rest)%nat
    with (String.length ds) by lia.
  apply substring_prefix.
Qed.

Lemma run_plus_digit_cons A I x t c (k : kont A) :
  run I (Plus Digit) (String x t) c k =
  if is_digit x then orelse (run I (Plus Digit) t c k) (k t c) else None.
Proof.
  simpl. destruct (is_digit x); [|reflexivity].
  destruct (Nat.ltb_spec (String.length t) (S (String.length t))); [|lia].
  reflexivity.
Qed.

Lemma run_plus_digit_nil A I c (k : kont A) :
  run I (Plus Digit) EmptyString c k = None.
Proof. reflexivity. Qed.

(** Greedy digits: when the continuation refuses every text that starts
    with a digit, or refuses nothing, [\d+] takes the longest run. *)
Lemma run_plus_digit_longest A I s c (k : kont A) :
  (forall x t, is_digit x = true -> k (String x t) c = None)
  \/ (forall u, k u c <> None) ->
  run I (Plus Digit) s c k =
  match span_digits s with
  | (String _ _, rest) => k rest c
  | (EmptyString, _) => None
  end.
Proof.
  intros Hk. induction s as [|x t IH].
  - reflexivity.
  - rewrite run_plus_digit_cons. simpl span_digits.
    destruct (is_digit x) eqn:Ex; [|reflexivity].
    rewrite IH. pose proof (span_digits_spec t) as Ht.
    destruct (span_digits t) as [ds rest]. destruct Ht as (-> & Hds & Hr).
    destruct ds as [|y ds'].
    + reflexivity.
    + simpl in Hds. apply andb_true_iff in Hds as [Hy _].
      destruct Hk as [Hk|Hk].
      * change (String y ds' ++ rest) with (String y (ds' ++ rest)).
        rewrite (Hk y _ Hy). destruct (k rest c); reflexivity.
      * specialize (Hk rest). destruct (k rest c); [reflexivity|congruence].
Qed.

Lemma match_here_single s :
  match_here single_dice_regex s =
  match token_here s with
  | Some (count, sides, rest) => Some (rest, [(2%nat, sides); (1%nat, count)])
  | None => None
  end.
Proof.
  unfold match_here, token_here.
  change (run (ignorecase single_dice_regex) (rx single_dice_regex) s []
              (fun s1 c1 => Some (s1, c1)))
    with (run true (Plus Digit) s []
            (fun s1 c1 =>
               one_char (lit_matches true "d")
                 s1 ((1%nat, consumed s s1) :: c1)
                 (fun s2 c2 =>
                    run true (Plus Digit) s2 c2
                      (fun s3 c3 =>
                         Some (s3, (2%nat, consumed s2 s3) :: c3))))).
  rewrite run_plus_digit_longest.
  - pose proof (span_digits_spec s) as Hs.
    destruct (span_digits s) as [count r1]. destruct Hs as (-> & _ & _).
    destruct count as [|x0 count']; [reflexivity|].
    destruct r1 as [|x r]; [reflexivity|].
    unfold one_char. rewrite lit_d_is_d.
    destruct (is_d x); [|reflexivity].
    rewrite run_plus_digit_longest.
    + pose proof (span_digits_spec r) as Hr.
      destruct (span_digits r) as [sides rest]. destruct Hr as (-> & _ & _).
      destruct sides as [|y0 sides']; [reflexivity|].
      rewrite !consumed_app. reflexivity.
    + right. intros u. discriminate.
  - left. intros x t Hx. unfold one_char. rewrite lit_d_is_d.
    destruct (is_d x) eqn:E; [|reflexivity].
    apply is_d_not_digit in E. congruence.
Qed.

Lemma scan_single s :
  forall skip,
    scan single_dice_regex s skip = map tuple_of (occurrences s skip).
Proof.
  induction s as [|x t IH]; intros skip.
  - destruct skip; simpl; reflexivity.
  - destruct skip as [|n].
    + unfold scan; fold scan. unfold occurrences; fold occurrences.
      rewrite match_here_single.
      destruct (token_here (String x t)) as [[[count sides] rest]|].
      * rewrite IH. reflexivity.
      * apply IH.
    + simpl. apply IH.
Qed.

(** [findall] returns the occurrences of the token, from left to right. *)
Lemma findall_single s :
  findall single_dice_regex s = map tuple_of (occurrences s 0).
Proof. apply scan_single. Qed.

Lemma token_here_digits s count sides rest :
  token_here s = Some (count, sides, rest) ->
  digits count /\ digits sides
  /\ exists x, is_d x = true /\ s = count ++ String x (sides ++ rest).
Proof.
  unfold token_here. pose proof (span_digits_spec s) as Hs.
  destruct (span_digits s) as [c r1]. destruct Hs as (-> & Hc & _).
  destruct c as [|x0 c']; [discriminate|].
  destruct r1 as [|x r]; [discriminate|].
  destruct (is_d x) eqn:Ex; [|discriminate].
  pose proof (span_digits_spec r) as Hr.
  destruct (span_digits r) as [n rest']. destruct Hr as (-> & Hn & _).
  destruct n as [|y0 n']; [discriminate|].
  intros [= <- <- <-].
  split; [split; [discriminate|exact Hc]|].
  split; [split; [discriminate|exact Hn]|].
  exists x. split; [exact Ex|reflexivity].
Qed.

Lemma occurrences_digits s :
  forall skip,
    Forall (fun t => digits (fst t) /\ digits (snd t)) (occurrences s skip).
Proof.
  induction s as [|x t IH]; intros skip.
  - destruct skip; constructor.
  - destruct skip as [|n]; [|apply IH].
    unfold occurrences; fold occurrences.
    destruct (token_here (String x t)) as [[[count sides] rest]|] eqn:E.
    + constructor; [|apply IH].
      apply token_here_digits in E as (Hc & Hs & _). split; assumption.
    + apply IH.
Qed.

(** A text that starts with a token followed by a separator or by nothing
    has that token as its first occurrence. *)
Lemma token_here_token count x sides rest :
  digits count -> is_d x = true -> digits sides ->
  match rest with
  | String y _ => is_digit y = false
  | EmptyString => True
  end ->
  token_here (count ++ String x (sides ++ rest)) = Some (count, sides, rest).
Proof.
  intros [Hc0 Hc] Hx [Hs0 Hs] Hr. unfold token_here.
  rewrite (span_digits_run count (String x (sides ++ rest)) Hc
             (is_d_not_digit x Hx)).
  destruct count as [|c0 count']; [contradiction|].
  rewrite Hx, (span_digits_run sides rest Hs Hr).
  destruct sides as [|s0 sides']; [contradiction|]. reflexivity.
Qed.

End Extraction.

(* ================================================================= *)
(** ** Rolling *)

Section Rolling.

Lemma fold_left_add_acc xs a : fold_left Z.add xs a = a + sum xs.
Proof.
  unfold sum. revert a. induction xs as [|x xs IH]; intros a; simpl.
  - lia.
  - rewrite (IH (a + x)), (IH x). lia.
Qed.

Lemma sum_cons x xs : sum (x :: xs) = x + sum xs.
Proof. unfold sum at 1. simpl. apply fold_left_add_acc. Qed.

Lemma sum_app xs ys : sum (xs ++ ys) = sum xs + sum ys.
Proof.
  induction xs as [|x xs IH]; simpl.
  - reflexivity.
  - rewrite !sum_cons, IH. lia.
Qed.

Lemma after_draws_0 w : after_draws w 0 = w.
Proof. destruct w. unfold after_draws. simpl. rewrite Nat.add_0_r. reflexivity. Qed.

Lemma after_draws_advance w n :
  after_draws (random.advance w) n = after_draws w (S n).
Proof.
  unfold after_draws, random.advance. simpl. rewrite Nat.add_succ_r.
  reflexivity.
Qed.

Lemma draw_advance w sides i :
  draw (random.advance w) sides i = draw w sides (S i).
Proof. unfold draw. simpl. rewrite Nat.add_succ_r. reflexivity. Qed.

(** One call of [randint(1, sides)] on dice with a side at least. *)
Lemma randint_die sides w :
  1 <= sides ->
  random.randint 1 sides w = (Ok (draw w sides 0), random.advance w).
Proof.
  intros H. unfold random.randint, draw.
  replace (sides + 1 - 1) with sides by lia.
  destruct (Z.ltb_spec 0 sides); [|lia].
  rewrite Nat.add_0_r. reflexivity.
Qed.

Lemma randint_empty_range sides w :
  sides < 1 ->
  random.randint 1 sides w
  = (Raise (ValueError "empty range for randrange()"), w).
Proof.
  intros H. unfold random.randint.
  destruct (Z.ltb_spec 0 (sides + 1 - 1)); [lia|reflexivity].
Qed.

Lemma comprehension_randint sides (xs : list Z) :
  1 <= sides ->
  forall w,
    comprehension (fun _ => random.randint 1 sides) xs w
    = (Ok (map (draw w sides) (seq 0 (List.length xs))),
       after_draws w (List.length xs)).
Proof.
  intros H. induction xs as [|x xs IH]; intros w.
  - simpl. unfold ret. rewrite after_draws_0. reflexivity.
  - simpl comprehension. unfold bind. rewrite (randint_die sides w H), IH.
    unfold ret. rewrite after_draws_advance. simpl List.length.
    simpl seq. simpl map. rewrite <- seq_shift, map_map.
    f_equal. f_equal. f_equal. apply map_ext. intros i. apply draw_advance.
Qed.

Lemma length_range n : List.length (range n) = Z.to_nat n.
Proof. unfold range. rewrite length_map, length_seq. reflexivity. Qed.

Lemma draw_in_range w sides i : 1 <= sides -> 1 <= draw w sides i <= sides.
Proof.
  intros H. unfold draw.
  pose proof (Z.mod_pos_bound (tape w (drawn w + i)%nat) sides). lia.
Qed.

(** Dice with a side at least: [roll_dice] returns the next draws. *)
Lemma roll_dice_ok num_dice num_sides w :
  1 <= num_sides ->
  roll_dice num_dice num_sides w
  = (Ok (sum (map (draw w num_sides) (seq 0 (Z.to_nat num_dice))),
         map (draw w num_sides) (seq 0 (Z.to_nat num_dice))),
     after_draws w (Z.to_nat num_dice)).
Proof.
  intros H. unfold roll_dice, bind.
  rewrite (comprehension_randint num_sides (range num_dice) H w).
  rewrite length_range. reflexivity.
Qed.

(** No dice: nothing is drawn, whatever the number of sides. *)
Lemma roll_dice_none num_dice num_sides w :
  num_dice <= 0 -> roll_dice num_dice num_sides w = (Ok (0, []), w).
Proof.
  intros H. unfold roll_dice, range.
  replace (Z.to_nat num_dice) with O by lia. reflexivity.
Qed.

(** Dice without sides: the first call of [randint] raises. *)
Lemma roll_dice_raises num_dice num_sides w :
  0 < num_dice -> num_sides < 1 ->
  roll_dice num_dice num_sides w
  = (Raise (ValueError "empty range for randrange()"), w).
Proof.
  intros Hd Hs. unfold roll_dice, range.
  destruct (Z.to_nat num_dice) as [|n] eqn:E; [lia|].
  simpl. unfold bind. rewrite (randint_empty_range num_sides w Hs).
  reflexivity.
Qed.

(** What [roll_dice] returns when it returns. *)
Lemma roll_dice_inv num_dice num_sides w total rolls w' :
  roll_dice num_dice num_sides w = (Ok (total, rolls), w') ->
  rolls = map (draw w num_sides) (seq 0 (Z.to_nat num_dice))
  /\ total = sum rolls
  /\ w' = after_draws w (Z.to_nat num_dice)
  /\ Forall (fun x => 1 <= x <= num_sides) rolls.
Proof.
  intros H. destruct (Z_le_gt_dec 1 num_sides) as [Hs|Hs].
  - rewrite (roll_dice_ok num_dice num_sides w Hs) in H.
    injection H as <- <- <-. repeat split.
    apply Forall_forall. intros x Hx. apply in_map_iff in Hx as (i & <- & _).
    apply draw_in_range, Hs.
  - destruct (Z_le_gt_dec num_dice 0) as [Hd|Hd].
    + rewrite (roll_dice_none num_dice num_sides w Hd) in H.
      injection H as <- <- <-.
      replace (Z.to_nat num_dice) with O by lia.
      rewrite after_draws_0. repeat split. constructor.
    + rewrite roll_dice_raises in H by lia. discriminate.
Qed.

End Rolling.

(* ================================================================= *)
(** ** The limit on the digits of an [int] *)

Section DigitLimit.

Lemma length_string_of_uint u :
  String.length (NilEmpty.string_of_uint u) = Decimal.nb_digits u.
Proof. induction u; simpl; congruence. Qed.

Lemma length_nilzero_string_of_uint u :
  u <> Decimal.Nil ->
  String.length (NilZero.string_of_uint u) = Decimal.nb_digits u.
Proof.
  intros H. destruct u; try contradiction;
    apply (length_string_of_uint (_ _)).
Qed.

Lemma unorm_nonnil u : Decimal.unorm u <> Decimal.Nil.
Proof. unfold Decimal.unorm. destruct (Decimal.nzhead u); discriminate. Qed.

(** The numeral of the value of a run of digits is not longer than the
    run. *)
Lemma length_decimal_of_uint d :
  d <> Decimal.Nil ->
  (String.length (decimal (Z.of_uint d)) <= Decimal.nb_digits d)%nat.
Proof.
  intros H. unfold decimal.
  change (Z.of_uint d) with (Z.of_int (Decimal.Pos d)).
  rewrite DecimalZ.to_of. simpl.
  rewrite (length_nilzero_string_of_uint _ (unorm_nonnil d)).
  apply nb_digits_unorm, H.
Qed.

Lemma of_uint_nonneg d : 0 <= Z.of_uint d.
Proof. unfold Z.of_uint. apply N2Z.is_nonneg. Qed.

Lemma nilzero_uint_of_string_length s d :
  NilZero.uint_of_string s = Some d ->
  d <> Decimal.Nil /\ Decimal.nb_digits d = String.length s.
Proof.
  intros H.
  assert (Hd : d <> Decimal.Nil).
  { intros ->. exact (NilZero.uint_of_string_nonnil s H). }
  split; [exact Hd|].
  pose proof (NilZero.sus s d H) as E. rewrite <- E.
  symmetry. apply length_nilzero_string_of_uint, Hd.
Qed.

(** The value of a literal has no more digits than the literal. *)
Lemma parse_int_length s v :
  parse_int s = Some v ->
  (String.length (decimal (Z.abs v)) <= String.length (literal_digits s))%nat.
Proof.
  unfold parse_int, NilZero.int_of_string, literal_digits.
  destruct s as [|a s']; [discriminate|].
  destruct (Ascii.eqb a "-").
  - destruct (NilZero.uint_of_string s') as [d|] eqn:E; [|discriminate].
    unfold option_map. intros [= <-].
    change (Z.of_int (Decimal.Neg d)) with (- Z.of_uint d).
    destruct (nilzero_uint_of_string_length _ _ E) as [Hd <-].
    rewrite Z.abs_opp, Z.abs_eq by apply of_uint_nonneg.
    apply length_decimal_of_uint, Hd.
  - destruct (NilZero.uint_of_string (String a s')) as [d|] eqn:E;
      [|discriminate].
    unfold option_map. intros [= <-].
    change (Z.of_int (Decimal.Pos d)) with (Z.of_uint d).
    destruct (nilzero_uint_of_string_length _ _ E) as [Hd <-].
    rewrite Z.abs_eq by apply of_uint_nonneg.
    apply length_decimal_of_uint, Hd.
Qed.

(** What [int] accepts, [str] prints. *)
Lemma parse_int_fits s v :
  parse_int s = Some v ->
  (String.length (literal_digits s) <= int_max_str_digits)%nat ->
  fits v = true.
Proof.
  intros H Hs. unfold fits. apply Nat.leb_le.
  pose proof (parse_int_length s v H). lia.
Qed.

Lemma of_lu_upper e :
  (Unsigned.of_lu e < 10 ^ N.of_nat (Decimal.nb_digits e))%N.
Proof.
  induction e; cbn [Decimal.nb_digits Unsigned.of_lu];
    rewrite ?Nat2N.inj_succ, ?N.pow_succ_r'; simpl N.of_nat; lia.
Qed.

Lemma of_uint_upper d :
  (Pos.of_uint d < 10 ^ N.of_nat (Decimal.nb_digits d))%N.
Proof.
  rewrite Unsigned.of_uint_alt, <- nb_digits_rev. apply of_lu_upper.
Qed.

Lemma usize_nb_digits d :
  Unsigned.usize d = N.of_nat (Decimal.nb_digits d).
Proof.
  induction d; cbn [Decimal.nb_digits Unsigned.usize];
    rewrite ?Nat2N.inj_succ, ?IHd; reflexivity.
Qed.

Lemma to_uint_normal p : Decimal.unorm (Pos.to_uint p) = Pos.to_uint p.
Proof.
  rewrite <- (Unsigned.to_of (Pos.to_uint p)), Unsigned.of_to. reflexivity.
Qed.

(** A numeral without a leading zero is worth its length. *)
Lemma of_uint_lower u :
  Decimal.unorm u = u -> u <> Decimal.zero ->
  (10 ^ N.of_nat (Decimal.nb_digits u - 1) <= Pos.of_uint u)%N.
Proof.
  intros Hn Hz.
  assert (Hhead : forall v k,
             (1 <= Unsigned.of_lu k)%N ->
             Decimal.rev u = Decimal.revapp v k ->
             Decimal.nb_digits u = S (Decimal.nb_digits v) ->
             (10 ^ N.of_nat (Decimal.nb_digits u - 1) <= Pos.of_uint u)%N).
  { intros v k Hk Hrev Hlen.
    rewrite Unsigned.of_uint_alt, Hrev, Unsigned.of_lu_revapp.
    rewrite usize_nb_digits, Hlen.
    replace (S (Decimal.nb_digits v) - 1)%nat with (Decimal.nb_digits v)
      by lia.
    set (X := (10 ^ N.of_nat (Decimal.nb_digits v))%N). nia. }
  destruct u as [|v|v|v|v|v|v|v|v|v|v].
  - discriminate.
  - exfalso. change (Decimal.unorm (Decimal.D0 v)) with (Decimal.unorm v) in Hn.
    destruct v as [|v|v|v|v|v|v|v|v|v|v];
      try (apply Hz; reflexivity);
      match type of Hn with
      | Decimal.unorm ?w = _ =>
          assert (Hw : w <> Decimal.Nil) by discriminate;
          pose proof (nb_digits_unorm w Hw) as L;
          rewrite Hn in L; simpl in L; lia
      end.
  - apply (Hhead v (Decimal.D1 Decimal.Nil)); [simpl; lia|reflexivity|reflexivity].
  - apply (Hhead v (Decimal.D2 Decimal.Nil)); [simpl; lia|reflexivity|reflexivity].
  - apply (Hhead v (Decimal.D3 Decimal.Nil)); [simpl; lia|reflexivity|reflexivity].
  - apply (Hhead v (Decimal.D4 Decimal.Nil)); [simpl; lia|reflexivity|reflexivity].
  - apply (Hhead v (Decimal.D5 Decimal.Nil)); [simpl; lia|reflexivity|reflexivity].
  - apply (Hhead v (Decimal.D6 Decimal.Nil)); [simpl; lia|reflexivity|reflexivity].
  - apply (Hhead v (Decimal.D7 Decimal.Nil)); [simpl; lia|reflexivity|reflexivity].
  - apply (Hhead v (Decimal.D8 Decimal.Nil)); [simpl; lia|reflexivity|reflexivity].
  - apply (Hhead v (Decimal.D9 Decimal.Nil)); [simpl; lia|reflexivity|reflexivity].
Qed.

(** The length of the numeral of a positive number, as bounds on the
    number. *)
Lemma length_decimal_pos p :
  let k := String.length (decimal (Z.pos p)) in
  10 ^ Z.of_nat (k - 1) <= Z.pos p < 10 ^ Z.of_nat k.
Proof.
  unfold decimal. simpl Z.to_int. simpl NilZero.string_of_int.
  rewrite (length_nilzero_string_of_uint _ (Unsigned.to_uint_nonnil p)).
  pose proof (of_uint_upper (Pos.to_uint p)) as Hu.
  pose proof (of_uint_lower (Pos.to_uint p) (to_uint_normal p)
                (Unsigned.to_uint_nonzero p)) as Hl.
  rewrite Unsigned.of_to in Hu, Hl.
  cbv zeta. split.
  - apply N2Z.inj_le in Hl. rewrite N2Z.inj_pow, nat_N_Z in Hl. exact Hl.
  - apply N2Z.inj_lt in Hu. rewrite N2Z.inj_pow, nat_N_Z in Hu. exact Hu.
Qed.

(** An [int] fits when its absolute value is below [10 ** 4300]. *)
Lemma fits_iff n :
  fits n = true <-> Z.abs n < 10 ^ Z.of_nat int_max_str_digits.
Proof.
  unfold fits. rewrite Nat.leb_le.
  destruct (Z.abs n) as [|p|p] eqn:E.
  - split; intros _.
    + apply Z.pow_pos_nonneg; lia.
    + change (String.length (decimal 0)) with 1%nat.
      unfold int_max_str_digits. lia.
  - pose proof (length_decimal_pos p) as [Hl Hu]. cbv zeta in Hl, Hu.
    set (k := String.length (decimal (Z.pos p))) in *.
    split; intros H.
    + eapply Z.lt_le_trans; [exact Hu|].
      apply Z.pow_le_mono_r; lia.
    + destruct (Nat.le_gt_cases k int_max_str_digits) as [Hk|Hk];
        [exact Hk|exfalso].
      assert (10 ^ Z.of_nat int_max_str_digits <= 10 ^ Z.of_nat (k - 1))
        by (apply Z.pow_le_mono_r; lia).
      lia.
  - pose proof (Z.abs_nonneg n). lia.
Qed.

Lemma fits_le a b : Z.abs a <= Z.abs b -> fits b = true -> fits a = true.
Proof. rewrite !fits_iff. lia. Qed.

Lemma fits_0 : fits 0 = true.
Proof. reflexivity. Qed.

End DigitLimit.

(* ================================================================= *)
(** ** Printing the numbers of an entry *)

Section Rendering.

Variable host : Host.

Lemma str_run n w :
  str n w = if fits n then (Ok (decimal n), w)
            else (Raise (ValueError str_limit_message), w).
Proof. unfold str. destruct (fits n); reflexivity. Qed.

Lemma fmt_opt_run x w :
  fmt_opt x w = if fits_opt x then (Ok (decimal_opt x), w)
                else (Raise (ValueError str_limit_message), w).
Proof. destruct x as [n|]; [apply str_run|reflexivity]. Qed.

Lemma comprehension_str_run rolls w :
  comprehension str rolls w =
  if forallb fits rolls then (Ok (map decimal rolls), w)
  else (Raise (ValueError str_limit_message), w).
Proof.
  induction rolls as [|x rolls IH]; [reflexivity|].
  cbn [comprehension forallb map]. unfold bind at 1. rewrite str_run.
  destruct (fits x); [|reflexivity]. unfold bind at 1. rewrite IH.
  destruct (forallb fits rolls); reflexivity.
Qed.

Lemma child_icons dir name :
  child (child dir "icons") name = dir ++ "/icons/" ++ name.
Proof. unfold child. rewrite append_assoc. reflexivity. Qed.

(** [get_icon_path] in one equation: the name is printed, the file is
    looked for, and only then is the absent side count considered. *)
Lemma get_icon_path_run num_sides w :
  get_icon_path host num_sides w =
  if fits_opt num_sides
  then match stat_error host (icon_check_path host num_sides) with
       | Some msg => (Raise (OSError msg), w)
       | None => (Ok (icon_of host num_sides), w)
       end
  else (Raise (ValueError str_limit_message), w).
Proof.
  unfold get_icon_path, icon_of, icon_check_path. cbv zeta.
  unfold bind at 1. rewrite fmt_opt_run.
  destruct (fits_opt num_sides) eqn:F; [|reflexivity].
  unfold bind at 1. unfold path_exists.
  destruct (stat_error host _); [reflexivity|]. unfold ret at 1.
  destruct num_sides as [n|].
  - destruct (file_exists host _).
    + unfold bind. rewrite fmt_opt_run, F. reflexivity.
    + reflexivity.
  - destruct (file_exists host _); reflexivity.
Qed.

(** [get_item_from_rolls] in one equation. It leaves the world as it
    is; it returns [entry] unless a number cannot be printed or the icon
    cannot be looked for. *)
Lemma get_item_from_rolls_run rolls total num_sides w :
  get_item_from_rolls host rolls total num_sides w =
  if fits_opt num_sides
  then match stat_error host (icon_check_path host num_sides) with
       | Some msg => (Raise (OSError msg), w)
       | None =>
           if printable rolls total num_sides
           then (Ok (entry host rolls total num_sides), w)
           else (Raise (ValueError str_limit_message), w)
       end
  else (Raise (ValueError str_limit_message), w).
Proof.
  unfold get_item_from_rolls, printable, entry.
  unfold bind at 1. rewrite get_icon_path_run.
  destruct (fits_opt num_sides) eqn:F; [|reflexivity].
  destruct (stat_error host _); [reflexivity|].
  unfold bind at 1.
  assert (Htext :
            (if truthy num_sides
             then
               count <- str (Z.of_nat (List.length rolls)) ;;
               sides <- fmt_opt num_sides ;;
               total0 <- str total ;;
               ret ("Rolled " ++ count ++ "d" ++ sides ++ " - Total: "
                    ++ total0)
             else total0 <- str total ;; ret ("Overall Total: " ++ total0)) w
            = if (if truthy num_sides
                  then fits (Z.of_nat (List.length rolls)) else true)
                 && fits total
              then (Ok (if truthy num_sides
                        then "Rolled "
                             ++ decimal (Z.of_nat (List.length rolls))
                             ++ "d" ++ decimal_opt num_sides
                             ++ " - Total: " ++ decimal total
                        else "Overall Total: " ++ decimal total), w)
              else (Raise (ValueError str_limit_message), w)).
  { destruct (truthy num_sides).
    - unfold bind. rewrite str_run.
      destruct (fits (Z.of_nat (List.length rolls))); [|reflexivity].
      rewrite fmt_opt_run, F, str_run.
      destruct (fits total); reflexivity.
    - unfold bind. rewrite str_run. destruct (fits total); reflexivity. }
  rewrite Htext. clear Htext.
  destruct (if truthy num_sides
            then fits (Z.of_nat (List.length rolls)) else true);
    [|reflexivity].
  cbn [andb]. destruct (fits total) eqn:Ft; [|reflexivity].
  cbn [andb]. unfold bind at 1. rewrite comprehension_str_run.
  destruct (forallb fits rolls) eqn:Fr; [|reflexivity].
  unfold bind. rewrite str_run, Ft, comprehension_str_run, Fr.
  reflexivity.
Qed.

Lemma get_item_from_rolls_world rolls total num_sides w :
  snd (get_item_from_rolls host rolls total num_sides w) = w.
Proof.
  rewrite get_item_from_rolls_run.
  destruct (fits_opt num_sides); [|reflexivity].
  destruct (stat_error host _); [reflexivity|].
  destruct (printable rolls total num_sides); reflexivity.
Qed.

(** When [get_item_from_rolls] returns, it returns [entry], and it would
    in any world. *)
Lemma get_item_from_rolls_inv rolls total num_sides w item w' :
  get_item_from_rolls host rolls total num_sides w = (Ok item, w') ->
  item = entry host rolls total num_sides /\ w' = w
  /\ fits_opt num_sides = true
  /\ stat_error host (icon_check_path host num_sides) = None
  /\ printable rolls total num_sides = true.
Proof.
  rewrite get_item_from_rolls_run.
  destruct (fits_opt num_sides); [|discriminate].
  destruct (stat_error host _); [discriminate|].
  destruct (printable rolls total num_sides); [|discriminate].
  intros [= <- <-]. repeat split; reflexivity.
Qed.

Lemma get_item_from_rolls_ok rolls total num_sides w :
  fits_opt num_sides = true ->
  stat_error host (icon_check_path host num_sides) = None ->
  printable rolls total num_sides = true ->
  get_item_from_rolls host rolls total num_sides w
  = (Ok (entry host rolls total num_sides), w).
Proof.
  intros F S P. rewrite get_item_from_rolls_run, F, S, P. reflexivity.
Qed.

End Rendering.

(* ================================================================= *)
(** ** The loop of [get_items] *)

Section Aggregation.

Variable host : Host.

Lemma uint_of_string_digits s :
  string_forall is_digit s = true ->
  exists d, NilEmpty.uint_of_string s = Some d.
Proof.
  induction s as [|x s IH]; simpl; intros H.
  - eauto.
  - apply andb_true_iff in H as [Hx Hs]. destruct (IH Hs) as [d ->].
    revert Hx. each_char x;
      vm_compute; intros; try discriminate; eauto.
Qed.

(** A captured run of digits is a literal of a number that is not
    negative. *)
Lemma parse_int_digits s :
  digits s -> exists n, parse_int s = Some n /\ 0 <= n.
Proof.
  intros [Hne H]. destruct s as [|x t]; [contradiction|].
  destruct (uint_of_string_digits _ H) as [d Hd].
  unfold parse_int, NilZero.int_of_string.
  assert (Hx : Ascii.eqb x "-" = false).
  { simpl in H. apply andb_true_iff in H as [Hx _]. revert Hx.
    each_char x; vm_compute; congruence. }
  rewrite Hx. unfold NilZero.uint_of_string. rewrite Hd. simpl.
  eexists. split; [reflexivity|]. unfold Z.of_uint. apply N2Z.is_nonneg.
Qed.

(** A run of digits has no sign. *)
Lemma literal_digits_digits s : digits s -> literal_digits s = s.
Proof.
  intros [Hne H]. destruct s as [|x t]; [reflexivity|].
  simpl in H. apply andb_true_iff in H as [Hx _]. unfold literal_digits.
  replace (Ascii.eqb x "-") with false; [reflexivity|].
  revert Hx. each_char x; vm_compute; congruence.
Qed.

Lemma int_short s n w :
  parse_int s = Some n -> short (literal_digits s) -> int s w = (Ok n, w).
Proof.
  unfold short, int. intros Hp Hs.
  destruct (Nat.ltb_spec int_max_str_digits
              (String.length (literal_digits s))); [lia|].
  rewrite Hp. reflexivity.
Qed.

Lemma int_long s w :
  ~ short (literal_digits s) ->
  int s w = (Raise (ValueError (int_limit_message s)), w).
Proof.
  unfold short, int. intros Hs.
  destruct (Nat.ltb_spec int_max_str_digits
              (String.length (literal_digits s))); [reflexivity|lia].
Qed.

Lemma int_inv s n w w' :
  int s w = (Ok n, w') ->
  parse_int s = Some n /\ short (literal_digits s) /\ w' = w.
Proof.
  unfold short, int.
  destruct (Nat.ltb_spec int_max_str_digits
              (String.length (literal_digits s))); [discriminate|].
  destruct (parse_int s); [|discriminate].
  intros [= <- <-]. repeat split. assumption.
Qed.

Lemma int_world s w : snd (int s w) = w.
Proof.
  unfold int. destruct (_ <? _)%nat; [reflexivity|].
  destruct (parse_int s); reflexivity.
Qed.

Lemma short_dec s : {short s} + {~ short s}.
Proof. unfold short. apply le_dec. Qed.

Lemma roll_dice_total num_dice num_sides w :
  roll_dice num_dice num_sides w =
  if (0 <? num_dice) && (num_sides <? 1)
  then (Raise empty_range, w)
  else (Ok (sum (map (draw w num_sides) (seq 0 (Z.to_nat num_dice))),
            map (draw w num_sides) (seq 0 (Z.to_nat num_dice))),
        after_draws w (Z.to_nat num_dice)).
Proof.
  destruct (Z.ltb_spec num_sides 1) as [Hs|Hs].
  - destruct (Z.ltb_spec 0 num_dice) as [Hd|Hd]; simpl.
    + apply roll_dice_raises; assumption.
    + rewrite roll_dice_none by exact Hd.
      replace (Z.to_nat num_dice) with O by lia.
      rewrite after_draws_0. reflexivity.
  - rewrite andb_false_r. apply roll_dice_ok, Hs.
Qed.

Lemma for_each_cons {A S} (x : A) xs (body : S -> A -> Py S) st w :
  for_each (x :: xs) body st w =
  match body st x w with
  | (Ok st', w') => for_each xs body st' w'
  | (Raise e, w') => (Raise e, w')
  end.
Proof. reflexivity. Qed.

Lemma after_draws_after_draws w a b :
  after_draws (after_draws w a) b = after_draws w (a + b).
Proof.
  unfold after_draws. simpl. rewrite Nat.add_assoc. reflexivity.
Qed.

(** One turn of the loop on the numbers of a token, in one equation. *)
Lemma roll_token_run results total all count sides w :
  roll_token host (results, total, all) (count, sides) w =
  if (0 <? count) && (sides <? 1)
  then (Raise empty_range, w)
  else
    let rolls := map (draw w sides) (seq 0 (Z.to_nat count)) in
    match get_item_from_rolls host rolls (sum rolls) (Some sides)
                              (after_draws w (Z.to_nat count)) with
    | (Ok item, w') =>
        (Ok ((results ++ [item])%list, total + sum rolls,
             (all ++ rolls)%list), w')
    | (Raise e, w') => (Raise e, w')
    end.
Proof.
  unfold roll_token. cbn [fst snd]. unfold bind at 1.
  rewrite roll_dice_total.
  destruct ((0 <? count) && (sides <? 1)); [reflexivity|].
  cbv zeta. unfold bind.
  destruct (get_item_from_rolls host _ _ _ _) as [[item|e] w']; reflexivity.
Qed.

(** The body of the loop on a tuple of two literals [int] accepts. *)
Lemma get_items_body_tuple st c n count sides w :
  parse_int c = Some count -> parse_int n = Some sides ->
  short (literal_digits c) -> short (literal_digits n) ->
  get_items_body host st [c; n] w = roll_token host st (count, sides) w.
Proof.
  intros Hc Hn Sc Sn. destruct st as [[results total] all].
  unfold get_items_body, roll_token. cbn [fst snd].
  unfold bind at 1. unfold index at 1. cbn [nth_error]. unfold ret at 1.
  unfold bind at 1. rewrite (int_short c count w Hc Sc).
  unfold bind at 1. unfold index at 1. cbn [nth_error]. unfold ret at 1.
  unfold bind at 1. rewrite (int_short n sides w Hn Sn).
  reflexivity.
Qed.

(** A literal with too many digits stops the loop. *)
Lemma get_items_body_long st c n w :
  ~ short (literal_digits c)
  \/ (short (literal_digits c) /\ parse_int c <> None
      /\ ~ short (literal_digits n)) ->
  exists e, get_items_body host st [c; n] w = (Raise (ValueError e), w).
Proof.
  intros H. destruct st as [[results total] all].
  unfold get_items_body.
  unfold bind at 1. unfold index at 1. cbn [nth_error]. unfold ret at 1.
  unfold bind at 1.
  destruct H as [Hc|(Sc & Hc & Hn)].
  - rewrite (int_long c w Hc). eauto.
  - destruct (parse_int c) as [count|] eqn:Ec; [|congruence].
    rewrite (int_short c count w Ec Sc).
    unfold bind at 1. unfold index at 1. cbn [nth_error]. unfold ret at 1.
    unfold bind at 1. rewrite (int_long n w Hn). eauto.
Qed.

Lemma only_draws_refl w : only_draws w w.
Proof. unfold only_draws. auto. Qed.

Lemma only_draws_trans w1 w2 w3 :
  only_draws w1 w2 -> only_draws w2 w3 -> only_draws w1 w3.
Proof.
  unfold only_draws. intros (T1 & D1 & L1) (T2 & D2 & L2).
  split; [congruence|]. split; [congruence|lia].
Qed.

Lemma only_draws_after_draws w n : only_draws w (after_draws w n).
Proof.
  unfold only_draws, after_draws. simpl.
  split; [reflexivity|]. split; [reflexivity|lia].
Qed.

Lemma roll_token_only_draws st p w :
  only_draws w (snd (roll_token host st p w)).
Proof.
  destruct st as [[results total] all], p as [count sides].
  rewrite roll_token_run.
  destruct ((0 <? count) && (sides <? 1)); [apply only_draws_refl|].
  cbv zeta.
  pose proof (get_item_from_rolls_world host
                (map (draw w sides) (seq 0 (Z.to_nat count)))
                (sum (map (draw w sides) (seq 0 (Z.to_nat count))))
                (Some sides) (after_draws w (Z.to_nat count))) as Hw.
  destruct (get_item_from_rolls host _ _ _ _) as [[item|e] w'];
    simpl in Hw; subst w'; apply only_draws_after_draws.
Qed.

Lemma get_items_body_only_draws st m w :
  only_draws w (snd (get_items_body host st m w)).
Proof.
  destruct st as [[results total] all]. unfold get_items_body.
  unfold bind at 1. unfold index at 1.
  destruct (nth_error m 0) as [c|]; [|apply only_draws_refl].
  unfold ret at 1. unfold bind at 1.
  pose proof (int_world c w) as Wc.
  destruct (int c w) as [[count|e] w1]; simpl in Wc; subst w1;
    [|apply only_draws_refl].
  unfold bind at 1. unfold index at 1.
  destruct (nth_error m 1) as [n|]; [|apply only_draws_refl].
  unfold ret at 1. unfold bind at 1.
  pose proof (int_world n w) as Wn.
  destruct (int n w) as [[sides|e] w1]; simpl in Wn; subst w1;
    [|apply only_draws_refl].
  apply (roll_token_only_draws (results, total, all) (count, sides) w).
Qed.

Lemma for_each_only_draws {A} (body : locals -> A -> Py locals) ms :
  (forall st m w, only_draws w (snd (body st m w))) ->
  forall st w, only_draws w (snd (for_each ms body st w)).
Proof.
  intros Hbody. induction ms as [|m ms IH]; intros st w.
  - apply only_draws_refl.
  - rewrite for_each_cons. pose proof (Hbody st m w) as Hb.
    destruct (body st m w) as [[st'|e] w1]; simpl in Hb.
    + eapply only_draws_trans; [exact Hb|apply IH].
    + exact Hb.
Qed.

(** [get_items] draws from the generator and does nothing else to the
    world, whether it ends with items or with an exception. *)
Lemma get_items_only_draws q w :
  only_draws w (snd (get_items host q w)).
Proof.
  unfold get_items. cbv zeta. unfold bind at 1.
  pose proof (for_each_only_draws (get_items_body host)
                (findall single_dice_regex q) get_items_body_only_draws
                ([], 0, []) w) as H.
  destruct (for_each _ _ _ w) as [[[[results total] all]|e] w1];
    simpl in H; [|exact H].
  destruct (1 <? _)%nat; [|exact H].
  unfold bind.
  pose proof (get_item_from_rolls_world host all total None w1) as Hw.
  destruct (get_item_from_rolls host all total None w1) as [[item|e] w2];
    simpl in Hw; subst w2; exact H.
Qed.

Lemma get_items_diagnostics q w :
  diagnostics (snd (get_items host q w)) = diagnostics w.
Proof. apply (get_items_only_draws q w). Qed.

(** What a turn of the loop has done when it ends without an
    exception. *)
Lemma get_items_body_inv results total all c n w st' w' :
  get_items_body host (results, total, all) [c; n] w = (Ok st', w') ->
  exists count sides,
    parse_int c = Some count /\ parse_int n = Some sides
    /\ short (literal_digits c) /\ short (literal_digits n)
    /\ (0 <? count) && (sides <? 1) = false
    /\ (forall w0,
           get_item_from_rolls host
             (map (draw w sides) (seq 0 (Z.to_nat count)))
             (sum (map (draw w sides) (seq 0 (Z.to_nat count))))
             (Some sides) w0
           = (Ok (group_entry host
                    (sides, map (draw w sides) (seq 0 (Z.to_nat count)))),
              w0))
    /\ st' = ((results
               ++ [group_entry host
                     (sides,
                      map (draw w sides) (seq 0 (Z.to_nat count)))])%list,
              total + sum (map (draw w sides) (seq 0 (Z.to_nat count))),
              (all ++ map (draw w sides) (seq 0 (Z.to_nat count)))%list)
    /\ w' = after_draws w (Z.to_nat count).
Proof.
  intros H.
  destruct (short_dec (literal_digits c)) as [Sc|Lc].
  2:{ destruct (get_items_body_long (results, total, all) c n w
                  (or_introl Lc)) as [e He].
      rewrite He in H. discriminate. }
  destruct (parse_int c) as [count|] eqn:Ec.
  2:{ unfold get_items_body, bind, index, int in H. cbn [nth_error] in H.
      unfold ret at 1 in H. rewrite Ec in H.
      destruct (_ <? _)%nat; discriminate. }
  destruct (short_dec (literal_digits n)) as [Sn|Ln].
  2:{ destruct (get_items_body_long (results, total, all) c n w)
        as [e He].
      { right. split; [exact Sc|]. split; [congruence|exact Ln]. }
      rewrite He in H. discriminate. }
  destruct (parse_int n) as [sides|] eqn:En.
  2:{ unfold get_items_body in H.
      unfold bind at 1 in H. unfold index at 1 in H. cbn [nth_error] in H.
      unfold ret at 1 in H. unfold bind at 1 in H.
      rewrite (int_short c count w Ec Sc) in H.
      unfold bind at 1 in H. unfold index at 1 in H. cbn [nth_error] in H.
      unfold ret at 1 in H. unfold bind at 1 in H.
      unfold int in H. rewrite En in H.
      destruct (_ <? _)%nat; discriminate. }
  rewrite (get_items_body_tuple (results, total, all) c n count sides w
             Ec En Sc Sn) in H.
  rewrite roll_token_run in H.
  exists count, sides.
  destruct ((0 <? count) && (sides <? 1)); [discriminate|].
  cbv zeta in H.
  destruct (get_item_from_rolls host _ _ _ _) as [[item|e] w1] eqn:Ei;
    [|discriminate].
  apply get_item_from_rolls_inv in Ei as (-> & -> & F & St & P).
  injection H as <- <-.
  repeat split; try assumption; try reflexivity.
  intros w0. apply get_item_from_rolls_ok; assumption.
Qed.

End Aggregation.

(* ================================================================= *)
(** ** The entries as a function of the tape *)

Section Tape.

Variable host : Host.

Lemma digits_read ts :
  Forall (fun t => digits (fst t) /\ digits (snd t)) ts ->
  exists ps, Forall2 reads_as ts ps
             /\ Forall (fun p => 0 <= fst p /\ 0 <= snd p) ps.
Proof.
  induction 1 as [|[c n] ts [Hc Hn] _ (ps & Hps & Hnn)].
  - exists []. split; constructor.
  - simpl in Hc, Hn.
    destruct (parse_int_digits c Hc) as (count & Ec & Hcount).
    destruct (parse_int_digits n Hn) as (sides & En & Hsides).
    exists ((count, sides) :: ps). split; constructor; try assumption.
    + split; assumption.
    + split; assumption.
Qed.

Lemma reads_as_token_values t p :
  reads_as t p -> token_values (tuple_of t) = Some p.
Proof.
  destruct t as [c n], p as [count sides]. intros [Hc Hn].
  simpl in Hc, Hn. unfold token_values. simpl. rewrite Hc, Hn. reflexivity.
Qed.

Lemma token_values_reads_as t p :
  token_values (tuple_of t) = Some p -> reads_as t p.
Proof.
  destruct t as [c n], p as [count sides]. unfold token_values, reads_as.
  simpl. destruct (parse_int c); [|discriminate].
  destruct (parse_int n); [|discriminate].
  intros [= <- <-]. split; reflexivity.
Qed.

Lemma Forall2_reads_as ts ps :
  Forall2 (fun m p => token_values m = Some p) (map tuple_of ts) ps
  <-> Forall2 reads_as ts ps.
Proof.
  split.
  - revert ps. induction ts as [|t ts IH]; intros ps H;
      inversion H; subst; constructor.
    + apply token_values_reads_as. assumption.
    + apply IH. assumption.
  - induction 1; simpl; constructor.
    + apply reads_as_token_values. assumption.
    + assumption.
Qed.

Lemma sideless_dec p : {sideless p} + {~ sideless p}.
Proof.
  unfold sideless. destruct (Z_lt_dec 0 (fst p)) as [H|H].
  - destruct (Z.eq_dec (snd p) 0) as [E|E].
    + left. split; assumption.
    + right. intros [_ E']. contradiction.
  - right. intros [H' _]. contradiction.
Qed.

Lemma sideless_test count sides :
  0 <= sides ->
  (0 <? count) && (sides <? 1) = true <-> sideless (count, sides).
Proof.
  intros H. unfold sideless. simpl.
  rewrite andb_true_iff, Z.ltb_lt, Z.ltb_lt. lia.
Qed.

Lemma Forall2_token_values_unique ms ps ps' :
  Forall2 (fun m p => token_values m = Some p) ms ps ->
  Forall2 (fun m (p : Z * Z) => token_values m = Some p) ms ps' ->
  ps = ps'.
Proof.
  intros H. revert ps'. induction H as [|m p ms ps Hm _ IH]; intros ps' H'.
  - inversion H'. reflexivity.
  - inversion H' as [|? p' ? ps'' Hm' Hrest]; subst.
    rewrite Hm in Hm'. injection Hm' as <-. f_equal. apply IH, Hrest.
Qed.

(** The tokens [findall] returns, read as numbers. *)
Lemma findall_reads q :
  exists ts ps,
    findall single_dice_regex q = map tuple_of ts
    /\ Forall (fun t => digits (fst t) /\ digits (snd t)) ts
    /\ Forall2 reads_as ts ps
    /\ Forall (fun p => 0 <= fst p /\ 0 <= snd p) ps
    /\ Forall2 (fun m p => token_values m = Some p)
               (findall single_dice_regex q) ps.
Proof.
  destruct (digits_read (occurrences q 0) (occurrences_digits q 0))
    as (ps & Hps & Hnn).
  exists (occurrences q 0), ps. rewrite findall_single.
  split; [reflexivity|]. split; [apply occurrences_digits|].
  split; [exact Hps|]. split; [exact Hnn|].
  apply Forall2_reads_as, Hps.
Qed.

Lemma length_roll_groups ps :
  forall w, List.length (roll_groups w ps) = List.length ps.
Proof.
  induction ps as [|[count sides] ps IH]; intros w; simpl;
    [|rewrite IH]; reflexivity.
Qed.

Lemma length_rolls_of_groups ps :
  forall w,
    List.length (List.concat (map snd (roll_groups w ps))) = dice_asked ps.
Proof.
  induction ps as [|[count sides] ps IH]; intros w.
  - reflexivity.
  - simpl roll_groups. simpl map. simpl List.concat.
    rewrite length_app, length_map, length_seq, IH. reflexivity.
Qed.

(** The groups of the tape answer the tokens they are rolled for. *)
Lemma roll_groups_answers ms ps :
  Forall2 (fun m p => token_values m = Some p) ms ps ->
  Forall (fun p => 0 <= fst p /\ 0 <= snd p) ps ->
  forall w, Forall2 answers ms (roll_groups w ps).
Proof.
  induction 1 as [|m [count sides] ms ps Hm _ IH]; intros Hnn w.
  - constructor.
  - inversion Hnn as [|? ? [Hc _] Hnn']; subst. simpl in Hc.
    simpl roll_groups. constructor; [|apply IH, Hnn'].
    unfold answers. cbn [fst snd].
    rewrite length_map, length_seq, Z2Nat.id by exact Hc. exact Hm.
Qed.

(** The outcomes of a group lie on its die. *)
Lemma roll_groups_in_range ps :
  Forall (fun p => 0 <= fst p /\ 0 <= snd p) ps ->
  Forall (fun p => ~ sideless p) ps ->
  forall w,
    Forall (fun g => Forall (fun x => 1 <= x <= fst g) (snd g))
           (roll_groups w ps).
Proof.
  induction ps as [|[count sides] ps IH]; intros Hnn Hok w.
  - constructor.
  - inversion Hnn as [|? ? [Hc Hs] Hnn']; subst.
    inversion Hok as [|? ? Hhead Hok']; subst. simpl in Hc, Hs.
    simpl roll_groups. constructor; [|apply IH; assumption].
    cbn [fst snd]. apply Forall_forall. intros x Hx.
    apply in_map_iff in Hx as (i & <- & Hi).
    apply in_seq in Hi.
    apply draw_in_range.
    destruct (Z.eq_dec sides 0) as [E|E]; [|lia].
    exfalso. apply Hhead. unfold sideless. simpl. lia.
Qed.

(** The loop when it runs to its end: every literal was accepted, no
    token was sideless, every entry could be built, and the groups are
    those the tape gives. *)
Lemma for_each_inv ts :
  Forall (fun t => digits (fst t) /\ digits (snd t)) ts ->
  forall results total all w st' w',
    for_each (map tuple_of ts) (get_items_body host) (results, total, all) w
    = (Ok st', w') ->
    exists ps,
      Forall2 reads_as ts ps
      /\ Forall (fun p => 0 <= fst p /\ 0 <= snd p) ps
      /\ Forall (fun t => short (fst t) /\ short (snd t)) ts
      /\ Forall (fun p => ~ sideless p) ps
      /\ Forall (fun g =>
                   forall w0,
                     get_item_from_rolls host (snd g) (sum (snd g))
                                         (Some (fst g)) w0
                     = (Ok (group_entry host g), w0))
                (roll_groups w ps)
      /\ st' = ((results ++ map (group_entry host) (roll_groups w ps))%list,
                total + sum (map (fun g => sum (snd g)) (roll_groups w ps)),
                (all ++ List.concat (map snd (roll_groups w ps)))%list)
      /\ w' = after_draws w (dice_asked ps).
Proof.
  induction 1 as [|[c n] ts [Hc Hn] _ IH];
    intros results total all w st' w' H.
  - simpl in H. injection H as <- <-. exists [].
    split; [constructor|]. split; [constructor|]. split; [constructor|].
    split; [constructor|]. split; [constructor|]. split.
    + simpl. rewrite !List.app_nil_r. f_equal. f_equal.
      unfold sum. simpl. lia.
    + unfold dice_asked. simpl. rewrite after_draws_0. reflexivity.
  - simpl in Hc, Hn.
    change (map tuple_of ((c, n) :: ts)) with ([c; n] :: map tuple_of ts) in H.
    rewrite for_each_cons in H.
    destruct (get_items_body host (results, total, all) [c; n] w)
      as [[st1|e] w1] eqn:Eb; [|discriminate].
    apply get_items_body_inv in Eb
      as (count & sides & Ec & En & Sc & Sn & Hno & Hitem & -> & ->).
    apply IH in H as (ps & Hps & Hnn & Hshort & Hok & Hitems & -> & ->).
    destruct (parse_int_digits c Hc) as (count' & Ec' & Hcount).
    destruct (parse_int_digits n Hn) as (sides' & En' & Hsides).
    rewrite Ec in Ec'. rewrite En in En'.
    injection Ec' as <-. injection En' as <-.
    rewrite (literal_digits_digits c Hc) in Sc.
    rewrite (literal_digits_digits n Hn) in Sn.
    exists ((count, sides) :: ps).
    split; [constructor; [split; assumption|exact Hps]|].
    split; [constructor; [split; assumption|exact Hnn]|].
    split; [constructor; [split; assumption|exact Hshort]|].
    split.
    { constructor; [|exact Hok]. intros Hbad.
      apply (sideless_test count sides Hsides) in Hbad. congruence. }
    split.
    { simpl roll_groups. constructor; [exact Hitem|exact Hitems]. }
    split.
    + simpl roll_groups. simpl map. rewrite sum_cons. simpl List.concat.
      rewrite <- !List.app_assoc, Z.add_assoc. reflexivity.
    + unfold dice_asked. simpl map. simpl list_sum.
      rewrite after_draws_after_draws. reflexivity.
Qed.

(** The loop on literals [int] accepts is the loop on their numbers. *)
Lemma for_each_values ts ps :
  Forall2 reads_as ts ps ->
  Forall (fun t => short (literal_digits (fst t))
                   /\ short (literal_digits (snd t))) ts ->
  forall st w,
    for_each (map tuple_of ts) (get_items_body host) st w
    = for_each ps (roll_token host) st w.
Proof.
  induction 1 as [|[c n] [count sides] ts ps [Hc Hn] _ IH];
    intros Hshort st w; [reflexivity|].
  inversion Hshort as [|? ? [Sc Sn] Hshort']; subst.
  simpl in Hc, Hn, Sc, Sn.
  change (map tuple_of ((c, n) :: ts)) with ([c; n] :: map tuple_of ts).
  rewrite !for_each_cons.
  rewrite (get_items_body_tuple host st c n count sides w Hc Hn Sc Sn).
  destruct (roll_token host st (count, sides) w) as [[st1|e] w1];
    [apply IH, Hshort'|reflexivity].
Qed.

(** [get_items] on a text whose literals [int] accepts is [get_items]
    on the numbers of its tokens. *)
Lemma get_items_values q ps w :
  Forall2 (fun m p => token_values m = Some p)
          (findall single_dice_regex q) ps ->
  Forall (Forall (fun s => short (literal_digits s)))
         (findall single_dice_regex q) ->
  get_items host q w = get_items_of_values host ps w.
Proof.
  intros Htv Hshort. unfold get_items, get_items_of_values. cbv zeta.
  rewrite (Forall2_length Htv).
  rewrite findall_single in *.
  apply Forall2_reads_as in Htv.
  unfold bind.
  rewrite (for_each_values (occurrences q 0) ps Htv).
  - reflexivity.
  - clear Htv. induction (occurrences q 0) as [|[c n] ts IH];
      [constructor|].
    simpl in Hshort. inversion Hshort as [|? ? Hhead Htail]; subst.
    constructor; [|apply IH, Htail].
    inversion Hhead as [|? ? Sc Hrest]; subst.
    inversion Hrest as [|? ? Sn _]; subst. split; assumption.
Qed.

(** The groups [findall] captures are runs of digits: they are their
    own literal digits. *)
Lemma findall_short q :
  Forall (Forall short) (findall single_dice_regex q) ->
  Forall (Forall (fun s => short (literal_digits s)))
         (findall single_dice_regex q).
Proof.
  rewrite findall_single. pose proof (occurrences_digits q 0) as Hdig.
  induction Hdig as [|[c n] ts [Dc Dn] _ IH]; intros Hshort;
    [constructor|].
  change (map tuple_of ((c, n) :: ts)) with ([c; n] :: map tuple_of ts)
    in *.
  inversion Hshort as [|? ? Hhead Htail]; subst.
  constructor; [|apply IH, Htail].
  inversion Hhead as [|? ? Sc Hrest]; subst.
  inversion Hrest as [|? ? Sn _]; subst. simpl in Dc, Dn.
  constructor; [rewrite (literal_digits_digits c Dc); exact Sc|].
  constructor; [rewrite (literal_digits_digits n Dn); exact Sn|].
  constructor.
Qed.

(** Shortness of the literals of a list of tuples, by computation. *)
Lemma short_check ms :
  forallb (forallb (fun s => (String.length s <=? int_max_str_digits)%nat))
          ms = true ->
  Forall (Forall short) ms.
Proof.
  intros H. apply Forall_forall. intros m Hm.
  apply (proj1 (forallb_forall _ _) H) in Hm.
  apply Forall_forall. intros x Hx.
  apply (proj1 (forallb_forall _ _) Hm) in Hx.
  apply Nat.leb_le in Hx. exact Hx.
Qed.

(** What [get_items] has done when it returns. *)
Lemma get_items_inv_tape q w items w' :
  get_items host q w = (Ok items, w') ->
  exists ps,
    Forall2 (fun m p => token_values m = Some p)
            (findall single_dice_regex q) ps
    /\ Forall (fun p => 0 <= fst p /\ 0 <= snd p) ps
    /\ Forall (Forall short) (findall single_dice_regex q)
    /\ Forall (fun p => ~ sideless p) ps
    /\ Forall (fun g =>
                 forall w0,
                   get_item_from_rolls host (snd g) (sum (snd g))
                                       (Some (fst g)) w0
                   = (Ok (group_entry host g), w0))
              (roll_groups w ps)
    /\ ((1 < List.length ps)%nat ->
        forall w0,
          get_item_from_rolls host
            (List.concat (map snd (roll_groups w ps)))
            (sum (map (fun g => sum (snd g)) (roll_groups w ps))) None w0
          = (Ok (summary_entry host (roll_groups w ps)), w0))
    /\ items = (map (group_entry host) (roll_groups w ps)
                ++ if (1 <? List.length ps)%nat
                   then [summary_entry host (roll_groups w ps)]
                   else [])%list
    /\ w' = after_draws w (dice_asked ps).
Proof.
  unfold get_items. cbv zeta. unfold bind at 1. rewrite findall_single.
  intros H.
  destruct (for_each _ _ _ w) as [[[[results total] all]|e] w1] eqn:E;
    [|discriminate].
  apply for_each_inv in E
    as (ps & Hps & Hnn & Hshort & Hok & Hitems & Est & ->);
    [|apply occurrences_digits].
  injection Est as -> -> ->.
  exists ps. split; [apply Forall2_reads_as, Hps|].
  split; [exact Hnn|]. split.
  { clear -Hshort. induction Hshort as [|[c n] ts [Sc Sn] _ IH];
      simpl; constructor; [|exact IH].
    constructor; [exact Sc|]. constructor; [exact Sn|constructor]. }
  split; [exact Hok|]. split; [exact Hitems|].
  rewrite length_map, (Forall2_length Hps) in H.
  cbn [List.app] in H.
  destruct (Nat.ltb_spec 1 (List.length ps)) as [Hl|Hl].
  - unfold bind in H.
    destruct (get_item_from_rolls host _ _ None _) as [[item|e] w2] eqn:Ei;
      [|discriminate].
    apply get_item_from_rolls_inv in Ei as (-> & -> & F & St & P).
    injection H as <- <-.
    change (0 + sum (map (fun g => sum (snd g)) (roll_groups w ps)))
      with (sum (map (fun g => sum (snd g)) (roll_groups w ps))) in *.
    split; [|split; reflexivity].
    intros _ w0. apply get_item_from_rolls_ok; assumption.
  - injection H as <- <-. split; [intros; lia|].
    rewrite List.app_nil_r. split; reflexivity.
Qed.

(** What [get_items] returns when it returns: the group entries of the
    occurrences, then the summary when there are several. *)
Lemma get_items_inv q w items w' :
  get_items host q w = (Ok items, w') ->
  exists gs : list rolled,
    Forall2 answers (findall single_dice_regex q) gs
    /\ Forall (fun g => Forall (fun x => 1 <= x <= fst g) (snd g)) gs
    /\ items = (map (group_entry host) gs
                ++ if (1 <? List.length (findall single_dice_regex q))%nat
                   then [summary_entry host gs] else [])%list.
Proof.
  intros H.
  apply get_items_inv_tape in H
    as (ps & Htv & Hnn & _ & Hok & _ & _ & -> & _).
  exists (roll_groups w ps).
  split; [apply roll_groups_answers; assumption|].
  split; [apply roll_groups_in_range; assumption|].
  rewrite (Forall2_length Htv). reflexivity.
Qed.

End Tape.
(** ** The dice roller *)

Section DiceRoller.

Lemma nth_map_draw w sides n i :
  (i < n)%nat -> nth i (map (draw w sides) (seq 0 n)) 0 = draw w sides i.
Proof.
  intros H.
  rewrite (nth_indep _ 0 (draw w sides 0))
    by (rewrite length_map, length_seq; exact H).
  rewrite (map_nth (draw w sides) (seq 0 n) 0%nat i), seq_nth by exact H.
  reflexivity.
Qed.

Lemma randint_after_draws w sides i :
  1 <= sides ->
  random.randint 1 sides (after_draws w i)
  = (Ok (draw w sides i), after_draws w (S i)).
Proof.
  intros H. rewrite (randint_die sides (after_draws w i) H).
  unfold draw, after_draws, random.advance. simpl.
  rewrite Nat.add_0_r, Nat.add_succ_r. reflexivity.
Qed.

(** The tape is no restriction: whatever outcomes dice of [sides] sides
    can show, some tape makes [roll_dice] return them. *)
Lemma every_roll_has_a_tape sides outcomes :
  1 <= sides ->
  Forall (fun x => 1 <= x <= sides) outcomes ->
  exists tp, forall log,
    roll_dice (Z.of_nat (List.length outcomes)) sides (mkWorld tp 0 log)
    = (Ok (sum outcomes, outcomes),
       mkWorld tp (List.length outcomes) log).
Proof.
  intros Hs Hall. exists (fun i => nth i outcomes 1 - 1). intros log.
  rewrite roll_dice_ok by exact Hs. rewrite Nat2Z.id.
  assert (E : map (draw (mkWorld (fun i => nth i outcomes 1 - 1) 0 log) sides)
                  (seq 0 (List.length outcomes)) = outcomes).
  { apply (nth_ext _ _ 0 0).
    - rewrite length_map, length_seq. reflexivity.
    - intros i Hi. rewrite length_map, length_seq in Hi.
      rewrite (nth_map_draw _ sides _ i Hi). unfold draw.
      cbn [tape drawn Nat.add].
      rewrite (nth_indep outcomes 1 0 Hi).
      assert (Hin : 1 <= nth i outcomes 0 <= sides).
      { apply (proj1 (Forall_forall _ outcomes) Hall). apply nth_In, Hi. }
      rewrite Z.mod_small by lia. lia. }
  rewrite E. reflexivity.
Qed.

(** C2. For [count >= 0] and [sides >= 1], [roll_dice(count, sides)]
    returns a pair [(total, outcomes)]: [outcomes] has exactly [count]
    elements, each of them in [1..sides]; [total] is their sum; the
    element of index [i] is what the [i]-th call of [randint(1, sides)]
    returned, so the list is in generation order. *)
Theorem roll_dice_correct count sides w :
  0 <= count -> 1 <= sides ->
  exists outcomes w',
    roll_dice count sides w = (Ok (sum outcomes, outcomes), w')
    /\ Z.of_nat (List.length outcomes) = count
    /\ Forall (fun x => 1 <= x <= sides) outcomes
    /\ (forall i, (i < List.length outcomes)%nat ->
          random.randint 1 sides (after_draws w i)
          = (Ok (nth i outcomes 0), after_draws w (S i)))
    /\ w' = after_draws w (List.length outcomes).
Proof.
  intros Hc Hs.
  exists (map (draw w sides) (seq 0 (Z.to_nat count))),
         (after_draws w (Z.to_nat count)).
  rewrite length_map, length_seq.
  split; [apply roll_dice_ok, Hs|].
  split; [apply Z2Nat.id, Hc|].
  split.
  { apply Forall_forall. intros x Hx. apply in_map_iff in Hx as (i & <- & _).
    apply draw_in_range, Hs. }
  split; [|reflexivity].
  intros i Hi. rewrite (nth_map_draw w sides _ i Hi).
  apply randint_after_draws, Hs.
Qed.

Lemma roll_dice_correct_witness :
  0 <= 3 /\ 1 <= 8 /\
  exists outcomes w',
    roll_dice 3 8 sample_world = (Ok (sum outcomes, outcomes), w')
    /\ Z.of_nat (List.length outcomes) = 3
    /\ Forall (fun x => 1 <= x <= 8) outcomes
    /\ (forall i, (i < List.length outcomes)%nat ->
          random.randint 1 8 (after_draws sample_world i)
          = (Ok (nth i outcomes 0), after_draws sample_world (S i)))
    /\ w' = after_draws sample_world (List.length outcomes).
Proof.
  split; [lia|]. split; [lia|].
  apply (roll_dice_correct 3 8 sample_world); lia.
Defined.

End DiceRoller.

(* ================================================================= *)
(** ** Icons *)

Section Icons.

Lemma icon_check_path_text host num_sides :
  icon_check_path host num_sides
  = module_dir host ++ "/icons/d" ++ decimal_opt num_sides ++ ".svg".
Proof. unfold icon_check_path. rewrite child_icons. reflexivity. Qed.

Lemma icon_of_text host num_sides :
  icon_of host num_sides
  = match num_sides with
    | None => module_dir host ++ "/icons/dice.svg"
    | Some n =>
        if file_exists host
             (module_dir host ++ "/icons/d" ++ decimal n ++ ".svg")
        then module_dir host ++ "/icons/d" ++ decimal n ++ ".svg"
        else module_dir host ++ "/icons/d20.svg"
    end.
Proof.
  unfold icon_of. rewrite child_icons, icon_check_path_text.
  destruct num_sides as [n|]; [|reflexivity]. cbn [decimal_opt].
  destruct (file_exists host _); [|reflexivity].
  rewrite append_assoc. reflexivity.
Qed.

(** C8, as the program has it. [Path.exists] is called first, for an
    absent side count too, on [d{n}.svg] or on [dNone.svg]. When that
    call returns, [get_icon_path] resolves a side count [n] to [d{n}.svg]
    in the icons directory when that file exists and to [d20.svg]
    otherwise, and an absent side count to [dice.svg]. When the call
    fails, its [OSError] comes out of [get_icon_path], with or without a
    side count. A side count of more digits than [int] prints raises
    [ValueError]. *)
Theorem get_icon_path_resolution :
  (forall host n w,
      fits n = true ->
      stat_error host (module_dir host ++ "/icons/d" ++ decimal n ++ ".svg")
      = None ->
      get_icon_path host (Some n) w =
      (Ok (if file_exists host
                (module_dir host ++ "/icons/d" ++ decimal n ++ ".svg")
           then module_dir host ++ "/icons/d" ++ decimal n ++ ".svg"
           else module_dir host ++ "/icons/d20.svg"), w))
  /\ (forall host w,
         stat_error host (module_dir host ++ "/icons/dNone.svg") = None ->
         get_icon_path host None w
         = (Ok (module_dir host ++ "/icons/dice.svg"), w))
  /\ (forall host num_sides msg w,
         fits_opt num_sides = true ->
         stat_error host
           (module_dir host ++ "/icons/d" ++ decimal_opt num_sides ++ ".svg")
         = Some msg ->
         get_icon_path host num_sides w = (Raise (OSError msg), w))
  /\ (forall host n w,
         fits n = false ->
         get_icon_path host (Some n) w
         = (Raise (ValueError str_limit_message), w)).
Proof.
  split; [|split; [|split]].
  - intros host n w F S.
    rewrite get_icon_path_run, icon_check_path_text, icon_of_text.
    cbn [fits_opt decimal_opt]. rewrite F, S. reflexivity.
  - intros host w S.
    rewrite get_icon_path_run, icon_check_path_text, icon_of_text.
    cbn [fits_opt decimal_opt].
    change ("/icons/d" ++ "None" ++ ".svg") with "/icons/dNone.svg".
    rewrite S. reflexivity.
  - intros host num_sides msg w F S.
    rewrite get_icon_path_run, icon_check_path_text, F, S. reflexivity.
  - intros host n w F. rewrite get_icon_path_run. cbn [fits_opt].
    rewrite F. reflexivity.
Qed.

End Icons.

Lemma get_icon_path_resolution_witness :
  fits 6 = true /\ fits 8 = true
  /\ stat_error sample_host (module_dir sample_host ++ "/icons/d6.svg") = None
  /\ get_icon_path sample_host (Some 6) sample_world
     = (Ok "/usr/share/albert/dice_roll/icons/d6.svg", sample_world)
  /\ get_icon_path sample_host (Some 8) sample_world
     = (Ok "/usr/share/albert/dice_roll/icons/d20.svg", sample_world)
  /\ get_icon_path sample_host None sample_world
     = (Ok "/usr/share/albert/dice_roll/icons/dice.svg", sample_world)
  /\ get_icon_path unsearchable_host (Some 6) sample_world
     = (Raise (OSError "[Errno 13] Permission denied"), sample_world).
Proof.
  split; [reflexivity|]. split; [reflexivity|]. split; [reflexivity|].
  destruct get_icon_path_resolution as (H1 & H2 & H3 & _).
  split; [exact (H1 sample_host 6 sample_world eq_refl eq_refl)|].
  split; [exact (H1 sample_host 8 sample_world eq_refl eq_refl)|].
  split; [exact (H2 sample_host sample_world eq_refl)|].
  exact (H3 unsearchable_host (Some 6) "[Errno 13] Permission denied"
            sample_world eq_refl eq_refl).
Defined.

(** C8, as the specification words it, fails: without a side count the
    result does depend on the file system. In an icons directory that
    cannot be searched, [get_icon_path(None)] raises the [OSError] of
    [Path.exists] instead of returning [dice.svg]; and for a side count
    of 251 digits on a file system with names of 255 bytes at most it
    raises instead of falling back to [d20.svg]. *)
Lemma get_icon_path_counterexample :
  (get_icon_path unsearchable_host None sample_world
   = (Raise (OSError "[Errno 13] Permission denied"), sample_world)
   /\ get_icon_path unsearchable_host None sample_world
      <> (Ok (module_dir unsearchable_host ++ "/icons/dice.svg"),
          sample_world))
  /\ (exists n,
         parse_int ones_251 = Some n
         /\ file_exists name_max_host
              (module_dir name_max_host ++ "/icons/d" ++ decimal n ++ ".svg")
            = false
         /\ get_icon_path name_max_host (Some n) sample_world
            = (Raise (OSError "[Errno 36] File name too long"), sample_world)
         /\ get_icon_path name_max_host (Some n) sample_world
            <> (Ok (module_dir name_max_host ++ "/icons/d20.svg"),
                sample_world)).
Proof.
  split.
  - split; [reflexivity|discriminate].
  - eexists. split; [vm_compute; reflexivity|].
    split; [vm_compute; reflexivity|].
    assert (E : forall n,
               parse_int ones_251 = Some n ->
               get_icon_path name_max_host (Some n) sample_world
               = (Raise (OSError "[Errno 36] File name too long"),
                  sample_world)).
    { intros n Hn. vm_compute in Hn. injection Hn as <-.
      vm_compute. reflexivity. }
    split.
    + apply E. vm_compute. reflexivity.
    + rewrite E by (vm_compute; reflexivity). discriminate.
Qed.

(* ================================================================= *)
(** ** The query handler *)

Section QueryHandler.

Variable host : Host.

Lemma handleQuery_valid query w :
  fullmatch multiple_dice_regex (strip (albert.query_string query)) <> None ->
  handleQuery host query w =
  match get_items host (strip (albert.query_string query)) w with
  | (Ok items, w') => (Ok (Some items), w')
  | (Raise e, w') =>
      (Ok None,
       mkWorld (tape w') (drawn w')
               (diagnostics w' ++ [WarnCall e; InfoCall format_notice]))
  end.
Proof.
  intros H. unfold handleQuery.
  destruct (fullmatch multiple_dice_regex _); [|congruence].
  unfold try_except, bind.
  destruct (get_items host _ w) as [[items|e] w']; simpl.
  - reflexivity.
  - unfold albert.warn, albert.info, albert.log, ret. simpl.
    rewrite <- List.app_assoc. reflexivity.
Qed.

Lemma handleQuery_invalid query w :
  fullmatch multiple_dice_regex (strip (albert.query_string query)) = None ->
  handleQuery host query w = (Ok None, w).
Proof. intros H. unfold handleQuery. rewrite H. reflexivity. Qed.

(** The items the handler returns are those of [get_items]. *)
Lemma handleQuery_items query w items w' :
  handleQuery host query w = (Ok (Some items), w') ->
  fullmatch multiple_dice_regex (strip (albert.query_string query)) <> None
  /\ get_items host (strip (albert.query_string query)) w = (Ok items, w').
Proof.
  intros H.
  destruct (fullmatch multiple_dice_regex
              (strip (albert.query_string query))) eqn:E.
  - split; [discriminate|].
    rewrite handleQuery_valid in H by (rewrite E; discriminate).
    destruct (get_items host _ w) as [[items'|e] w1].
    + injection H as <- <-. reflexivity.
    + discriminate.
  - rewrite (handleQuery_invalid query w E) in H. discriminate.
Qed.

End QueryHandler.

(** C4. When the trimmed query does not fully match the validation
    pattern, [handleQuery] returns no items and raises nothing, and the
    world is as before: nothing was drawn from the generator and nothing
    written on the diagnostic channel. The query ["hello"] is such a
    text. *)
Theorem handleQuery_ignores_other_text :
  (forall host query w,
      fullmatch multiple_dice_regex (strip (albert.query_string query)) = None ->
      handleQuery host query w = (Ok None, w))
  /\ (forall host w,
         handleQuery host (albert.mkQuery "hello") w = (Ok None, w)).
Proof.
  split.
  - intros host query w. apply handleQuery_invalid.
  - intros host w. apply handleQuery_invalid. reflexivity.
Qed.

Lemma handleQuery_ignores_other_text_witness :
  fullmatch multiple_dice_regex (strip " roll 2 dice ") = None
  /\ handleQuery sample_host (albert.mkQuery " roll 2 dice ") sample_world
     = (Ok None, sample_world).
Proof.
  split; [reflexivity|].
  apply (proj1 handleQuery_ignores_other_text
               sample_host (albert.mkQuery " roll 2 dice ") sample_world).
  reflexivity.
Defined.

(** C5. When the trimmed query is valid and an exception [e] is raised
    while the tokens are extracted and rolled, [handleQuery] lets no
    exception out: it returns no items, and exactly two diagnostic calls
    are added, [albert.warn(e)] then [albert.info] with the fixed notice.
    A token with no sides, as in ["1d0"], raises such an exception. *)
Theorem handleQuery_contains_exceptions host query w e w1 :
  fullmatch multiple_dice_regex (strip (albert.query_string query)) <> None ->
  get_items host (strip (albert.query_string query)) w = (Raise e, w1) ->
  handleQuery host query w
  = (Ok None,
     mkWorld (tape w1) (drawn w1)
        (diagnostics w
         ++ [WarnCall e;
             InfoCall "Something went wrong. Make sure you're using the correct format."])).
Proof.
  intros Hv Hr. rewrite (handleQuery_valid host query w Hv), Hr.
  pose proof (get_items_diagnostics host
                (strip (albert.query_string query)) w) as Hd.
  rewrite Hr in Hd. simpl in Hd. rewrite Hd. reflexivity.
Qed.

Lemma handleQuery_contains_exceptions_witness :
  fullmatch multiple_dice_regex (strip "2d6 1d0") <> None
  /\ get_items sample_host (strip "2d6 1d0") sample_world
     = (Raise (ValueError "empty range for randrange()"),
        after_draws sample_world 2)
  /\ handleQuery sample_host (albert.mkQuery "2d6 1d0") sample_world
     = (Ok None,
        mkWorld sample_tape 2
          [WarnCall (ValueError "empty range for randrange()");
           InfoCall "Something went wrong. Make sure you're using the correct format."]).
Proof.
  split; [discriminate|]. split; [reflexivity|].
  apply (handleQuery_contains_exceptions
           sample_host (albert.mkQuery "2d6 1d0") sample_world
           (ValueError "empty range for randrange()")
           (after_draws sample_world 2)).
  - discriminate.
  - reflexivity.
Defined.

(** Nothing the handler does ends with an exception. *)
Lemma handleQuery_never_raises host query w e w' :
  handleQuery host query w <> (Raise e, w').
Proof.
  destruct (fullmatch multiple_dice_regex
              (strip (albert.query_string query))) eqn:E.
  - rewrite handleQuery_valid by (rewrite E; discriminate).
    destruct (get_items host _ w) as [[items|e1] w1]; discriminate.
  - rewrite (handleQuery_invalid host query w E). discriminate.
Qed.

(* ================================================================= *)
(** ** The entries *)

Section Entries.

Variable host : Host.

Lemma sum_concat (gs : list rolled) :
  sum (List.concat (map snd gs)) = sum (map (fun g => sum (snd g)) gs).
Proof.
  induction gs as [|g gs IH]; simpl; [reflexivity|].
  rewrite sum_app, sum_cons, IH. reflexivity.
Qed.

Lemma text_of_entry rolls total num_sides :
  albert.text (entry host rolls total num_sides) =
  if truthy num_sides
  then "Rolled " ++ decimal (Z.of_nat (List.length rolls)) ++ "d"
       ++ decimal_opt num_sides ++ " - Total: " ++ decimal total
  else "Overall Total: " ++ decimal total.
Proof. reflexivity. Qed.

Lemma subtext_of_entry rolls total num_sides :
  albert.subtext (entry host rolls total num_sides) =
  "Rolls: " ++ join ", " (map decimal rolls).
Proof. reflexivity. Qed.

(** An entry shows the total and lists the rolls it was built from. *)
Lemma entry_reads_back rolls total num_sides :
  shown_total (albert.text (entry host rolls total num_sides))
  = Some total
  /\ listed_rolls
       (albert.subtext (entry host rolls total num_sides))
     = Some rolls.
Proof.
  rewrite text_of_entry, subtext_of_entry. split.
  - destruct num_sides as [n|]; simpl truthy.
    + destruct (negb (n =? 0)).
      * apply shown_total_group.
      * apply shown_total_summary.
    + apply shown_total_summary.
  - apply listed_rolls_subtext.
Qed.

(** C1. For every query, every entry [get_items] produces, group entry or
    overall total, shows after ["Total: "] in its headline the sum of the
    values its subtext lists, split at [", "]. *)
Theorem entry_total_is_sum_of_listed_rolls q w items w' :
  get_items host q w = (Ok items, w') ->
  Forall (fun it =>
            exists rolls,
              listed_rolls (albert.subtext it) = Some rolls
              /\ shown_total (albert.text it) = Some (sum rolls))
         items.
Proof.
  intros H. apply get_items_inv in H as (gs & _ & _ & ->).
  apply Forall_app. split.
  - apply Forall_forall. intros it Hit.
    apply in_map_iff in Hit as (g & <- & _). exists (snd g).
    unfold group_entry.
    destruct (entry_reads_back (snd g) (sum (snd g)) (Some (fst g)))
      as [Ht Hr].
    split; assumption.
  - destruct (1 <? _)%nat; constructor; [|constructor].
    exists (List.concat (map snd gs)). unfold summary_entry.
    destruct (entry_reads_back (List.concat (map snd gs))
                (sum (map (fun g => sum (snd g)) gs)) None) as [Ht Hr].
    split; [exact Hr|]. rewrite sum_concat. exact Ht.
Qed.

(** C3. [get_items] produces one group entry for each matched token, in
    the order of the matches, and after them one summary entry exactly
    when more than one token matched. The summary lists the rolls of all
    groups, concatenated in match order, and shows the sum of the totals
    of the groups. With one matched token the group entry is alone. *)
Theorem get_items_groups_and_summary q w items w' :
  get_items host q w = (Ok items, w') ->
  exists gs : list rolled,
    Forall2 answers (findall single_dice_regex q) gs
    /\ items = (map (group_entry host) gs
                ++ if (1 <? List.length (findall single_dice_regex q))%nat
                   then [summary_entry host gs] else [])%list
    /\ Forall (fun g =>
                 listed_rolls (albert.subtext (group_entry host g))
                 = Some (snd g)
                 /\ shown_total (albert.text (group_entry host g))
                    = Some (sum (snd g))) gs
    /\ listed_rolls (albert.subtext (summary_entry host gs))
       = Some (List.concat (map snd gs))
    /\ shown_total (albert.text (summary_entry host gs))
       = Some (sum (map (fun g => sum (snd g)) gs))
    /\ (List.length (findall single_dice_regex q) = 1%nat ->
        exists g, gs = [g] /\ items = [group_entry host g]).
Proof.
  intros H. apply get_items_inv in H as (gs & Hans & _ & ->).
  exists gs. split; [exact Hans|]. split; [reflexivity|].
  split.
  { apply Forall_forall. intros g _. unfold group_entry.
    destruct (entry_reads_back (snd g) (sum (snd g)) (Some (fst g)))
      as [Ht Hr].
    split; assumption. }
  unfold summary_entry.
  destruct (entry_reads_back (List.concat (map snd gs))
              (sum (map (fun g => sum (snd g)) gs)) None) as [Ht Hr].
  split; [exact Hr|]. split; [exact Ht|].
  intros Hone. rewrite Hone. simpl.
  apply Forall2_length in Hans. rewrite Hone in Hans.
  destruct gs as [|g [|g' gs']]; try discriminate.
  exists g. split; reflexivity.
Qed.

End Entries.

Lemma entry_total_is_sum_of_listed_rolls_witness :
  get_items sample_host "2d6 3d8 1D20" sample_world
  = (Ok sample_entries, after_draws sample_world 6)
  /\ Forall (fun it =>
               exists rolls,
                 listed_rolls (albert.subtext it) = Some rolls
                 /\ shown_total (albert.text it) = Some (sum rolls))
            sample_entries.
Proof.
  split; [vm_compute; reflexivity|].
  apply (entry_total_is_sum_of_listed_rolls
           sample_host "2d6 3d8 1D20" sample_world
           sample_entries (after_draws sample_world 6)).
  vm_compute; reflexivity.
Defined.

Lemma get_items_groups_and_summary_witness :
  get_items sample_host "2d6 3d8 1D20" sample_world
  = (Ok sample_entries, after_draws sample_world 6)
  /\ exists gs : list rolled,
      Forall2 answers (findall single_dice_regex "2d6 3d8 1D20") gs
      /\ sample_entries
         = (map (group_entry sample_host) gs
            ++ if (1 <? List.length
                          (findall single_dice_regex "2d6 3d8 1D20"))%nat
               then [summary_entry sample_host gs] else [])%list
      /\ Forall (fun g =>
                   listed_rolls (albert.subtext (group_entry sample_host g))
                   = Some (snd g)
                   /\ shown_total (albert.text (group_entry sample_host g))
                      = Some (sum (snd g))) gs
      /\ listed_rolls (albert.subtext (summary_entry sample_host gs))
         = Some (List.concat (map snd gs))
      /\ shown_total (albert.text (summary_entry sample_host gs))
         = Some (sum (map (fun g => sum (snd g)) gs))
      /\ (List.length (findall single_dice_regex "2d6 3d8 1D20") = 1%nat ->
          exists g, gs = [g] /\ sample_entries = [group_entry sample_host g]).
Proof.
  split; [vm_compute; reflexivity|].
  apply (get_items_groups_and_summary
           sample_host "2d6 3d8 1D20" sample_world
           sample_entries (after_draws sample_world 6)).
  vm_compute; reflexivity.
Defined.


(* ================================================================= *)
(** ** Queries of one token *)

Section OneToken.

Variable host : Host.

Lemma sum_bounds sides rolls :
  Forall (fun x => 1 <= x <= sides) rolls ->
  Z.of_nat (List.length rolls) <= sum rolls
  <= Z.of_nat (List.length rolls) * sides.
Proof.
  induction 1 as [|x rolls Hx _ IH].
  - unfold sum. simpl. lia.
  - rewrite sum_cons. simpl List.length. rewrite Nat2Z.inj_succ. nia.
Qed.

(** The numbers of a group can be printed when the sides and the
    product of the count and the sides can. *)
Lemma printable_rolls count sides w :
  0 <= count -> 1 <= sides ->
  fits sides = true -> fits (count * sides) = true ->
  printable (map (draw w sides) (seq 0 (Z.to_nat count)))
            (sum (map (draw w sides) (seq 0 (Z.to_nat count))))
            (Some sides) = true.
Proof.
  intros Hc Hs Fs Fp.
  assert (Hrange : Forall (fun x => 1 <= x <= sides)
                          (map (draw w sides) (seq 0 (Z.to_nat count)))).
  { apply Forall_forall. intros x Hx.
    apply in_map_iff in Hx as (i & <- & _). apply draw_in_range, Hs. }
  pose proof (sum_bounds sides _ Hrange) as Hsum.
  rewrite length_map, length_seq, Z2Nat.id in Hsum by exact Hc.
  unfold printable. rewrite length_map, length_seq, Z2Nat.id by exact Hc.
  assert (Fc : fits count = true).
  { apply (fits_le count (count * sides)); [nia|exact Fp]. }
  rewrite Fc.
  assert (Ft : fits (sum (map (draw w sides) (seq 0 (Z.to_nat count))))
               = true).
  { apply (fits_le _ (count * sides)); [nia|exact Fp]. }
  rewrite Ft.
  assert (Fr : forallb fits (map (draw w sides) (seq 0 (Z.to_nat count)))
               = true).
  { apply forallb_forall. intros x Hx.
    apply (proj1 (Forall_forall _ _) Hrange) in Hx.
    apply (fits_le x sides); [lia|exact Fs]. }
  rewrite Fr. destruct (truthy (Some sides)); reflexivity.
Qed.

(** The run of [get_items] on the numbers of one token with sides. *)
Lemma get_items_of_values_one count sides w :
  0 <= count -> 1 <= sides ->
  fits sides = true -> fits (count * sides) = true ->
  stat_error host (icon_check_path host (Some sides)) = None ->
  get_items_of_values host [(count, sides)] w
  = (Ok [group_entry host
           (sides, map (draw w sides) (seq 0 (Z.to_nat count)))],
     after_draws w (Z.to_nat count)).
Proof.
  intros Hc Hs Fs Fp St. unfold get_items_of_values.
  unfold bind at 1. rewrite for_each_cons, roll_token_run.
  destruct (Z.ltb_spec sides 1); [lia|]. rewrite andb_false_r. cbv zeta.
  rewrite get_item_from_rolls_ok;
    [reflexivity|exact Fs|exact St|apply printable_rolls; assumption].
Qed.

Lemma occurrences_skip_all s :
  forall skip, (String.length s <= skip)%nat -> occurrences s skip = [].
Proof.
  induction s as [|x t IH]; intros skip H.
  - destruct skip; reflexivity.
  - destruct skip as [|n]; simpl in H; [lia|]. simpl. apply IH. lia.
Qed.

(** The only occurrence in a text that is one token. *)
Lemma occurrences_one_token count x sides :
  digits count -> is_d x = true -> digits sides ->
  occurrences (count ++ String x sides) 0 = [(count, sides)].
Proof.
  intros Hc Hx Hs.
  pose proof (token_here_token count x sides EmptyString Hc Hx Hs I) as Ht.
  rewrite append_nil_r in Ht.
  destruct Hc as [Hne Hc].
  destruct count as [|c0 count']; [contradiction|].
  change (String c0 count' ++ String x sides)
    with (String c0 (count' ++ String x sides)) in *.
  unfold occurrences; fold occurrences. rewrite Ht.
  rewrite occurrences_skip_all; [reflexivity|simpl; lia].
Qed.

(** A number that fits prints as a literal [int] accepts. *)
Lemma short_decimal n : 0 <= n -> fits n = true -> short (decimal n).
Proof.
  intros Hn F. unfold fits in F. rewrite Z.abs_eq in F by exact Hn.
  apply Nat.leb_le in F. exact F.
Qed.

(** The run of [get_items] on a printed token. *)
Lemma get_items_printed_token count x sides w :
  0 <= count -> 1 <= sides -> is_d x = true ->
  fits sides = true -> fits (count * sides) = true ->
  stat_error host (icon_check_path host (Some sides)) = None ->
  get_items host (decimal count ++ String x (decimal sides)) w
  = (Ok [group_entry host
           (sides, map (draw w sides) (seq 0 (Z.to_nat count)))],
     after_draws w (Z.to_nat count)).
Proof.
  intros Hc Hs Hx Fs Fp St.
  assert (Dc : digits (decimal count)) by (apply decimal_digits; exact Hc).
  assert (Ds : digits (decimal sides)) by (apply decimal_digits; lia).
  assert (Fc : fits count = true).
  { apply (fits_le count (count * sides)); [nia|exact Fp]. }
  assert (E : findall single_dice_regex
                (decimal count ++ String x (decimal sides))
              = [[decimal count; decimal sides]]).
  { rewrite findall_single.
    rewrite (occurrences_one_token _ x _ Dc Hx Ds). reflexivity. }
  rewrite (get_items_values host _ [(count, sides)] w).
  - apply get_items_of_values_one; assumption.
  - rewrite E. constructor; [|constructor].
    unfold token_values. simpl. rewrite !parse_int_decimal. reflexivity.
  - rewrite E. constructor; [|constructor].
    constructor; [|constructor; [|constructor]].
    + rewrite (literal_digits_digits _ Dc).
      apply short_decimal; assumption.
    + rewrite (literal_digits_digits _ Ds).
      apply short_decimal; [lia|assumption].
Qed.

Lemma roll_groups_app pre post :
  forall w,
    roll_groups w (pre ++ post)
    = (roll_groups w pre
       ++ roll_groups (after_draws w (dice_asked pre)) post)%list.
Proof.
  induction pre as [|[count sides] pre IH]; intros w.
  - unfold dice_asked. simpl. rewrite after_draws_0. reflexivity.
  - simpl. rewrite IH, after_draws_after_draws. reflexivity.
Qed.

Lemma dice_asked_app pre post :
  dice_asked (pre ++ post) = (dice_asked pre + dice_asked post)%nat.
Proof.
  unfold dice_asked. rewrite map_app, list_sum_app. reflexivity.
Qed.

(** Each group of the tape is what [roll_dice] returns for its token, in
    the world the tokens before it have left. *)
Lemma roll_groups_roll_dice w pre p post :
  ~ sideless p -> 0 <= snd p ->
  exists rolls,
    roll_dice (fst p) (snd p) (after_draws w (dice_asked pre))
    = (Ok (sum rolls, rolls), after_draws w (dice_asked (pre ++ [p])))
    /\ nth_error (roll_groups w (pre ++ p :: post)) (List.length pre)
       = Some (snd p, rolls).
Proof.
  destruct p as [count sides]. intros Hok Hs. cbn [fst snd] in *.
  exists (map (draw (after_draws w (dice_asked pre)) sides)
              (seq 0 (Z.to_nat count))).
  split.
  - rewrite roll_dice_total.
    destruct ((0 <? count) && (sides <? 1)) eqn:E.
    + apply (sideless_test count sides Hs) in E. contradiction.
    + rewrite after_draws_after_draws, dice_asked_app.
      replace (dice_asked [(count, sides)]) with (Z.to_nat count)
        by (unfold dice_asked; simpl; lia).
      reflexivity.
  - rewrite roll_groups_app, nth_error_app2
      by (rewrite length_roll_groups; lia).
    rewrite length_roll_groups, Nat.sub_diag. reflexivity.
Qed.

End OneToken.

(* ================================================================= *)
(** ** Headlines and subtexts *)

Section Headlines.

Variable host : Host.

(** The headline and subtext of the groups of the tape, token by
    token. *)
Lemma roll_groups_headlines ps :
  Forall (fun p => 0 <= fst p /\ 0 <= snd p) ps ->
  forall w,
    Forall2 (fun p g =>
               fst g = snd p
               /\ Z.of_nat (List.length (snd g)) = fst p
               /\ (snd p <> 0 ->
                   albert.text (group_entry host g)
                   = "Rolled " ++ decimal (fst p) ++ "d" ++ decimal (snd p)
                     ++ " - Total: " ++ decimal (sum (snd g)))
               /\ albert.subtext (group_entry host g)
                  = "Rolls: " ++ join ", " (map decimal (snd g)))
            ps (roll_groups w ps).
Proof.
  induction 1 as [|[count sides] ps [Hc Hs] _ IH]; intros w.
  - constructor.
  - simpl in Hc, Hs. simpl roll_groups. constructor; [|apply IH].
    cbn [fst snd]. split; [reflexivity|].
    split; [rewrite length_map, length_seq; apply Z2Nat.id, Hc|].
    split; [|reflexivity].
    intros Hsides. unfold group_entry. rewrite text_of_entry.
    cbn [fst snd truthy decimal_opt].
    apply Z.eqb_neq in Hsides. rewrite Hsides.
    rewrite length_map, length_seq, Z2Nat.id by exact Hc. reflexivity.
Qed.

(** C6, as the program has it. The headline of the group entry of a token
    with sides is ["Rolled {count}d{sides} - Total: {total}"], written with
    a hyphen-minus, [count] and [sides] being the numbers of the token and
    [total] the sum of the group; the headline of the summary entry is
    ["Overall Total: {total}"]; the subtext of every entry is ["Rolls: "]
    and the outcomes joined by [", "], in roll order: the list of a group
    is the list [roll_dice] returned for its token, in the world the
    tokens before it have left. The query ["2d6"], when the icon can be
    looked for, gives one entry, ["Rolled 2d6 - Total: {T}"], [T] being
    the sum of the two values [roll_dice] returned, each in [1..6]. *)
Theorem headlines_and_subtexts :
  (forall q w items w',
      get_items host q w = (Ok items, w') ->
      exists ps,
        Forall2 (fun m p => token_values m = Some p)
                (findall single_dice_regex q) ps
        /\ items = (map (group_entry host) (roll_groups w ps)
                    ++ if (1 <? List.length ps)%nat
                       then [summary_entry host (roll_groups w ps)]
                       else [])%list
        /\ Forall2 (fun p g =>
                      fst g = snd p
                      /\ Z.of_nat (List.length (snd g)) = fst p
                      /\ (snd p <> 0 ->
                          albert.text (group_entry host g)
                          = "Rolled " ++ decimal (fst p) ++ "d"
                            ++ decimal (snd p)
                            ++ " - Total: " ++ decimal (sum (snd g)))
                      /\ albert.subtext (group_entry host g)
                         = "Rolls: " ++ join ", " (map decimal (snd g)))
                   ps (roll_groups w ps)
        /\ (forall pre p post,
               ps = (pre ++ p :: post)%list ->
               exists rolls,
                 roll_dice (fst p) (snd p) (after_draws w (dice_asked pre))
                 = (Ok (sum rolls, rolls),
                    after_draws w (dice_asked (pre ++ [p])))
                 /\ nth_error (roll_groups w ps) (List.length pre)
                    = Some (snd p, rolls))
        /\ albert.text (summary_entry host (roll_groups w ps))
           = "Overall Total: "
             ++ decimal (sum (map (fun g => sum (snd g)) (roll_groups w ps)))
        /\ albert.subtext (summary_entry host (roll_groups w ps))
           = "Rolls: "
             ++ join ", "
                  (map decimal (List.concat (map snd (roll_groups w ps)))))
  /\ (forall w,
         stat_error host (module_dir host ++ "/icons/d6.svg") = None ->
         exists a b it,
           roll_dice 2 6 w = (Ok (a + b, [a; b]), after_draws w 2)
           /\ 1 <= a <= 6 /\ 1 <= b <= 6
           /\ get_items host "2d6" w = (Ok [it], after_draws w 2)
           /\ albert.text it = "Rolled 2d6 - Total: " ++ decimal (a + b)
           /\ albert.subtext it
              = "Rolls: " ++ decimal a ++ ", " ++ decimal b).
Proof.
  split.
  - intros q w items w' H.
    apply get_items_inv_tape in H
      as (ps & Htv & Hnn & _ & Hok & _ & _ & -> & _).
    exists ps. split; [exact Htv|]. split; [reflexivity|].
    split; [apply roll_groups_headlines, Hnn|].
    split; [|split; reflexivity].
    intros pre p post ->.
    apply roll_groups_roll_dice.
    + apply (proj1 (Forall_forall _ _) Hok). apply in_elt.
    + apply (proj1 (Forall_forall _ _) Hnn p). apply in_elt.
  - intros w St. exists (draw w 6 0), (draw w 6 1).
    eexists.
    split; [rewrite roll_dice_total; reflexivity|].
    split; [apply draw_in_range; lia|].
    split; [apply draw_in_range; lia|].
    split.
    + apply (get_items_printed_token host 2 "d" 6 w);
        try reflexivity; try lia.
      rewrite icon_check_path_text. exact St.
    + split; reflexivity.
Qed.

End Headlines.

Lemma headlines_and_subtexts_witness :
  get_items sample_host "2d6 3d8 1D20" sample_world
  = (Ok sample_entries, after_draws sample_world 6)
  /\ map albert.text sample_entries
     = ["Rolled 2d6 - Total: 9"; "Rolled 3d8 - Total: 11";
        "Rolled 1d20 - Total: 19"; "Overall Total: 39"]
  /\ map albert.subtext sample_entries
     = ["Rolls: 4, 5"; "Rolls: 2, 1, 8"; "Rolls: 19";
        "Rolls: 4, 5, 2, 1, 8, 19"]
  /\ stat_error sample_host (module_dir sample_host ++ "/icons/d6.svg") = None
  /\ exists a b it,
      roll_dice 2 6 sample_world
      = (Ok (a + b, [a; b]), after_draws sample_world 2)
      /\ 1 <= a <= 6 /\ 1 <= b <= 6
      /\ get_items sample_host "2d6" sample_world
         = (Ok [it], after_draws sample_world 2)
      /\ albert.text it = "Rolled 2d6 - Total: " ++ decimal (a + b)
      /\ albert.subtext it = "Rolls: " ++ decimal a ++ ", " ++ decimal b.
Proof.
  split; [vm_compute; reflexivity|]. split; [reflexivity|].
  split; [reflexivity|]. split; [reflexivity|].
  apply (proj2 (headlines_and_subtexts sample_host) sample_world).
  reflexivity.
Defined.

(** C6, as the specification words it, fails. The headline of ["2d6"] has
    a hyphen-minus where the specification writes the dash U+2014; and the
    group entry of the token ["0d0"] has the headline of a summary. *)
Lemma claimed_group_headline_counterexample :
  (exists it w',
      get_items sample_host "2d6" sample_world = (Ok [it], w')
      /\ albert.text it = "Rolled 2d6 - Total: 9"
      /\ albert.text it <> claimed_group_headline 2 6 9)
  /\ (exists it w',
         get_items sample_host "0d0" sample_world = (Ok [it], w')
         /\ albert.text it = "Overall Total: 0"
         /\ albert.text it <> claimed_group_headline 0 0 0
         /\ albert.text it <> "Rolled 0d0 - Total: 0").
Proof.
  split.
  - eexists. eexists. split; [vm_compute; reflexivity|].
    split; [reflexivity|]. discriminate.
  - eexists. eexists. split; [vm_compute; reflexivity|].
    split; [reflexivity|]. split; discriminate.
Qed.

(* ================================================================= *)
(** ** Tokens that ask for no dice *)

Section ZeroDice.

Variable host : Host.

Lemma digit_not_space x : is_digit x = true -> negb (is_space x) = true.
Proof. each_char x; vm_compute; congruence. Qed.

Lemma is_d_not_space x : is_d x = true -> negb (is_space x) = true.
Proof. each_char x; vm_compute; congruence. Qed.

Lemma token_text_no_blank count x sides :
  digits count -> is_d x = true -> digits sides ->
  string_forall (fun y => negb (is_space y)) (count ++ String x sides) = true.
Proof.
  intros [_ Hc] Hx [_ Hs]. rewrite string_forall_app. simpl.
  rewrite (string_forall_impl _ _ count digit_not_space Hc).
  rewrite (is_d_not_space x Hx).
  rewrite (string_forall_impl _ _ sides digit_not_space Hs). reflexivity.
Qed.

Lemma lstrip_no_blank s :
  string_forall (fun x => negb (is_space x)) s = true -> lstrip s = s.
Proof.
  intros H. destruct s as [|c t]; [reflexivity|]. simpl in *.
  apply andb_true_iff in H as [Hc _]. apply negb_true_iff in Hc.
  rewrite Hc. reflexivity.
Qed.

(** A text without blanks is left as it is. *)
Lemma strip_no_blank s :
  string_forall (fun x => negb (is_space x)) s = true -> strip s = s.
Proof.
  intros H. unfold strip. rewrite (lstrip_no_blank s H).
  induction s as [|c t IH]; simpl; [reflexivity|].
  simpl in H. apply andb_true_iff in H as [Hc Ht].
  apply negb_true_iff in Hc.
  rewrite (IH Ht), Hc. destruct t; reflexivity.
Qed.

(** The handler on a query that is one token. *)
Lemma handleQuery_one_token count x sides w :
  digits count -> is_d x = true -> digits sides ->
  handleQuery host (albert.mkQuery (count ++ String x sides)) w =
  match get_items host (count ++ String x sides) w with
  | (Ok items, w') => (Ok (Some items), w')
  | (Raise e, w') =>
      (Ok None,
       mkWorld (tape w') (drawn w')
               (diagnostics w' ++ [WarnCall e; InfoCall format_notice]))
  end.
Proof.
  intros Dc Hx Ds.
  assert (Hstrip : strip (albert.query_string
                            (albert.mkQuery (count ++ String x sides)))
                   = count ++ String x sides).
  { apply strip_no_blank, token_text_no_blank; assumption. }
  rewrite handleQuery_valid; rewrite Hstrip; [reflexivity|].
  apply fullmatch_iff, multiple_dice_regex_denotes, dn_token_end.
  constructor; assumption.
Qed.

(** A token whose sides have more digits than [int] reads stops
    [get_items] before anything is rolled. *)
Lemma get_items_long_sides count x sides w :
  digits count -> short count -> is_d x = true ->
  digits sides -> ~ short sides ->
  exists e,
    get_items host (count ++ String x sides) w = (Raise (ValueError e), w).
Proof.
  intros Dc Sc Hx Ds Ls. unfold get_items. cbv zeta.
  rewrite findall_single, (occurrences_one_token count x sides Dc Hx Ds).
  cbn [map]. change (tuple_of (count, sides)) with [count; sides].
  unfold bind. rewrite for_each_cons.
  destruct (get_items_body_long host ([], 0, []) count sides w) as [e He].
  - right. rewrite (literal_digits_digits count Dc).
    rewrite (literal_digits_digits sides Ds).
    split; [exact Sc|]. split; [|exact Ls].
    destruct (parse_int_digits count Dc) as (v & -> & _). discriminate.
  - rewrite He. eauto.
Qed.

(** C9, as the program has it. For [sides >= 1], [roll_dice(0, sides)]
    returns the total [0] and no outcomes and raises nothing. When the
    literals are ones [int] reads (4300 digits at most) and the icon
    [d{sides}.svg] can be looked for, the loop of [get_items] adds for
    such a token, wherever it stands, a group entry with the total [0]
    and an empty list of rolls, and the query made of that token alone
    yields that one entry and no exception. When the look-up of the icon
    fails, its [OSError] comes out of [get_items]; and sides of more
    digits than [int] reads make [get_items] raise [ValueError]. *)
Theorem zero_dice_is_not_an_error sides w :
  1 <= sides ->
  roll_dice 0 sides w = (Ok (0, []), w)
  /\ albert.text (entry host [] 0 (Some sides))
     = "Rolled 0d" ++ decimal sides ++ " - Total: 0"
  /\ albert.subtext (entry host [] 0 (Some sides)) = "Rolls: "
  /\ (fits sides = true ->
      stat_error host
        (module_dir host ++ "/icons/d" ++ decimal sides ++ ".svg") = None ->
      (forall results total all c n,
          parse_int c = Some 0 -> parse_int n = Some sides ->
          short (literal_digits c) -> short (literal_digits n) ->
          get_items_body host (results, total, all) [c; n] w
          = (Ok ((results ++ [entry host [] 0 (Some sides)])%list,
                 total, all), w))
      /\ get_items host ("0d" ++ decimal sides) w
         = (Ok [entry host [] 0 (Some sides)], w)
      /\ handleQuery host (albert.mkQuery ("0d" ++ decimal sides)) w
         = (Ok (Some [entry host [] 0 (Some sides)]), w))
  /\ (forall msg,
         fits sides = true ->
         stat_error host
           (module_dir host ++ "/icons/d" ++ decimal sides ++ ".svg")
         = Some msg ->
         get_items host ("0d" ++ decimal sides) w = (Raise (OSError msg), w))
  /\ (forall n,
         digits n -> ~ short n ->
         exists e,
           get_items host ("0d" ++ n) w = (Raise (ValueError e), w)).
Proof.
  intros H.
  assert (Hzero : digits "0") by (split; [discriminate|reflexivity]).
  assert (Ds : digits (decimal sides)) by (apply decimal_digits; lia).
  assert (Hp : printable [] 0 (Some sides) = true).
  { unfold printable. destruct (truthy (Some sides)); reflexivity. }
  split; [apply roll_dice_none; lia|].
  split.
  { rewrite text_of_entry. simpl truthy.
    destruct (Z.eqb_spec sides 0); [lia|]. reflexivity. }
  split; [reflexivity|].
  split; [|split].
  - intros F St.
    assert (St' : stat_error host (icon_check_path host (Some sides)) = None)
      by (rewrite icon_check_path_text; exact St).
    assert (Hitems : get_items host ("0d" ++ decimal sides) w
                     = (Ok [entry host [] 0 (Some sides)], w)).
    { change ("0d" ++ decimal sides)
        with (decimal 0 ++ String "d" (decimal sides)).
      rewrite (get_items_printed_token host 0 "d" sides w);
        try assumption; try reflexivity; try lia.
      change (Z.to_nat 0) with O. rewrite after_draws_0. reflexivity. }
    split; [|split; [exact Hitems|]].
    + intros results total all c n Hc Hn Sc Sn.
      rewrite (get_items_body_tuple host (results, total, all) c n 0 sides w
                 Hc Hn Sc Sn).
      rewrite roll_token_run.
      change (0 <? 0) with false. cbn [andb]. cbv zeta.
      change (Z.to_nat 0) with O. cbn [seq map]. rewrite after_draws_0.
      rewrite (get_item_from_rolls_ok host [] (sum []) (Some sides) w F St' Hp).
      rewrite List.app_nil_r.
      replace (total + sum []) with total by (unfold sum; simpl; lia).
      reflexivity.
    + change ("0d" ++ decimal sides) with ("0" ++ String "d" (decimal sides)).
      rewrite (handleQuery_one_token "0" "d" (decimal sides) w Hzero eq_refl Ds).
      change ("0" ++ String "d" (decimal sides)) with ("0d" ++ decimal sides).
      rewrite Hitems. reflexivity.
  - intros msg F St.
    assert (E : findall single_dice_regex ("0d" ++ decimal sides)
                = [["0"; decimal sides]]).
    { change ("0d" ++ decimal sides) with ("0" ++ String "d" (decimal sides)).
      rewrite findall_single.
      rewrite (occurrences_one_token "0" "d" _ Hzero eq_refl Ds).
      reflexivity. }
    rewrite (get_items_values host _ [(0, sides)] w).
    + unfold get_items_of_values. unfold bind.
      rewrite for_each_cons, roll_token_run.
      change (0 <? 0) with false. cbn [andb]. cbv zeta.
      change (Z.to_nat 0) with O. cbn [seq map]. rewrite after_draws_0.
      rewrite get_item_from_rolls_run. cbn [fits_opt]. rewrite F.
      rewrite icon_check_path_text. cbn [decimal_opt]. rewrite St.
      reflexivity.
    + rewrite E. constructor; [|constructor].
      unfold token_values. simpl. rewrite parse_int_decimal. reflexivity.
    + rewrite E. constructor; [|constructor].
      constructor; [|constructor; [|constructor]].
      * unfold short. simpl. unfold int_max_str_digits. lia.
      * rewrite (literal_digits_digits _ Ds).
        apply short_decimal; [lia|assumption].
  - intros n Dn Ln.
    change ("0d" ++ n) with ("0" ++ String "d" n).
    apply get_items_long_sides; try assumption; try reflexivity.
    unfold short. simpl. unfold int_max_str_digits. lia.
Qed.

End ZeroDice.

Lemma zero_dice_is_not_an_error_witness :
  1 <= 6
  /\ roll_dice 0 6 sample_world = (Ok (0, []), sample_world)
  /\ albert.text (entry sample_host [] 0 (Some 6)) = "Rolled 0d6 - Total: 0"
  /\ albert.subtext (entry sample_host [] 0 (Some 6)) = "Rolls: "
  /\ get_items sample_host "0d6" sample_world
     = (Ok [entry sample_host [] 0 (Some 6)], sample_world)
  /\ handleQuery sample_host (albert.mkQuery "0d6") sample_world
     = (Ok (Some [entry sample_host [] 0 (Some 6)]), sample_world).
Proof.
  split; [lia|].
  destruct (zero_dice_is_not_an_error sample_host 6 sample_world)
    as (H1 & H2 & H3 & H4 & _); [lia|].
  destruct (H4 eq_refl eq_refl) as (_ & H5 & H6).
  split; [exact H1|]. split; [exact H2|]. split; [exact H3|].
  split; [exact H5|exact H6].
Defined.

(** C9, as the specification words it, fails for sides of many digits.
    The token [0d111...1], with 251 digits of sides, passes the
    validation and asks for no dice, yet on a file system with names of
    255 bytes at most [get_items] raises the [OSError] of [Path.exists],
    and the handler returns no entry and reports the error. *)
Lemma zero_dice_counterexample :
  exists sides,
    1 <= sides
    /\ "0d" ++ decimal sides = "0d" ++ ones_251
    /\ fullmatch multiple_dice_regex ("0d" ++ decimal sides) <> None
    /\ roll_dice 0 sides sample_world = (Ok (0, []), sample_world)
    /\ get_items name_max_host ("0d" ++ decimal sides) sample_world
       = (Raise (OSError "[Errno 36] File name too long"), sample_world)
    /\ handleQuery name_max_host (albert.mkQuery ("0d" ++ decimal sides))
                   sample_world
       = (Ok None,
          mkWorld sample_tape 0
            [WarnCall (OSError "[Errno 36] File name too long");
             InfoCall format_notice]).
Proof.
  assert (Hn : exists n, parse_int ones_251 = Some n)
    by (eexists; vm_compute; reflexivity).
  destruct Hn as [n Hn]. exists n.
  assert (E : decimal n = ones_251).
  { vm_compute in Hn. injection Hn as <-. vm_compute. reflexivity. }
  rewrite E.
  split; [vm_compute in Hn; injection Hn as <-; discriminate|].
  split; [reflexivity|].
  split; [vm_compute; discriminate|].
  split; [vm_compute in Hn; injection Hn as <-; reflexivity|].
  split; vm_compute; reflexivity.
Qed.

(* ================================================================= *)
(** ** Validation and extraction *)

Section Validation.

(** C7, as the program has it. [fullmatch] with the validation pattern
    accepts exactly the texts made of one token [<digits>d<digits>] or
    more, each followed by a run of separator characters or by the end of
    the text, the letter being [d] or [D]. A separator is any character
    that is not a digit: the letters [d] and [D] are separators too, as
    in ["1d6d"] and ["1d6 and 2d8"]. [findall] with the extraction
    pattern is a scan of its own: it returns the numbers of every
    occurrence of the token, from left to right, none overlapping the one
    before, and it finds them in texts the validation refuses. *)
Theorem validation_and_extraction :
  (forall s, fullmatch multiple_dice_regex s <> None <-> dice_notation s)
  /\ (forall s,
         findall single_dice_regex s = map tuple_of (occurrences s 0))
  /\ (forall count sides,
         digits count -> digits sides ->
         fullmatch multiple_dice_regex (count ++ "d" ++ sides) <> None
         /\ fullmatch multiple_dice_regex (count ++ "D" ++ sides) <> None)
  /\ (fullmatch multiple_dice_regex "roll 2d6, then 1D20!" = None
      /\ findall single_dice_regex "roll 2d6, then 1D20!"
         = [["2"; "6"]; ["1"; "20"]])
  /\ (separators "d" /\ separators " and "
      /\ fullmatch multiple_dice_regex "1d6d" <> None
      /\ fullmatch multiple_dice_regex "1d6 and 2d8" <> None).
Proof.
  split; [|split; [|split; [|split]]].
  - intros s. rewrite fullmatch_iff. apply multiple_dice_regex_denotes.
  - apply findall_single.
  - intros count sides Hc Hs. split.
    + apply fullmatch_iff, multiple_dice_regex_denotes, dn_token_end.
      apply (@token_intro count "d" sides Hc eq_refl Hs).
    + apply fullmatch_iff, multiple_dice_regex_denotes, dn_token_end.
      apply (@token_intro count "D" sides Hc eq_refl Hs).
  - split; reflexivity.
  - split; [split; [discriminate|reflexivity]|].
    split; [split; [discriminate|reflexivity]|].
    split; discriminate.
Qed.

(** Between two tokens a run of separators may not be empty, and it
    holds no digit. *)
Example separator_samples :
  fullmatch multiple_dice_regex "1d6+2D8!" <> None
  /\ fullmatch multiple_dice_regex "1d62d8" = None
  /\ fullmatch multiple_dice_regex "1d6 7 2d8" = None.
Proof. repeat split; try discriminate; reflexivity. Qed.

Lemma validation_and_extraction_witness :
  dice_notation "2d6 3d8 1D20"
  /\ fullmatch multiple_dice_regex "2d6 3d8 1D20" <> None
  /\ findall single_dice_regex "2d6 3d8 1D20"
     = [["2"; "6"]; ["3"; "8"]; ["1"; "20"]].
Proof.
  assert (H : fullmatch multiple_dice_regex "2d6 3d8 1D20" <> None)
    by discriminate.
  split; [|split; [exact H|reflexivity]].
  exact (proj1 (proj1 validation_and_extraction "2d6 3d8 1D20") H).
Defined.

Lemma digit_not_d x : is_digit x = true -> negb (is_d x) = true.
Proof. each_char x; vm_compute; congruence. Qed.

Lemma letters_before_digits_app a b :
  string_forall (fun x => negb (is_d x)) a = true ->
  letters_before_digits (a ++ b) = letters_before_digits b.
Proof.
  induction a as [|x a IH]; intros H; [reflexivity|].
  simpl in H. apply andb_true_iff in H as [Hx Ha].
  apply negb_true_iff in Hx.
  change (String x a ++ b) with (String x (a ++ b)).
  cbn [letters_before_digits]. rewrite Hx. apply IH, Ha.
Qed.

Lemma letters_before_digits_token count x sides tail :
  digits count -> is_d x = true -> digits sides ->
  letters_before_digits (count ++ String x (sides ++ tail))
  = letters_before_digits tail.
Proof.
  intros [_ Hc] Hx Hs.
  rewrite letters_before_digits_app
    by (apply (string_forall_impl _ _ count digit_not_d Hc)).
  destruct (run_of_head _ _ Hs) as (y & u & E & Hy & _).
  cbn [letters_before_digits]. rewrite Hx.
  rewrite letters_before_digits_app
    by (apply (string_forall_impl _ _ sides digit_not_d (proj2 Hs))).
  rewrite E. simpl. rewrite Hy. reflexivity.
Qed.

Lemma strict_separators_no_d sep :
  strict_separators sep ->
  string_forall (fun x => negb (is_d x)) sep = true.
Proof.
  intros [_ H].
  apply (string_forall_impl
           (fun x => negb (is_digit x) && negb (is_d x))
           (fun x => negb (is_d x)) sep); [|exact H].
  intros x Hx. apply andb_true_iff in Hx as [_ Hx]. exact Hx.
Qed.

(** With separators that exclude the letter of the token, every [d] of
    a text in dice notation stands before a digit. *)
Lemma strict_dice_notation_letters s :
  strict_dice_notation s -> letters_before_digits s = true.
Proof.
  induction 1 as [t Ht|t sep Ht Hsep|t sep rest Ht Hsep _ IH];
    destruct Ht as [count x sides Hc Hx Hs].
  - rewrite <- (append_nil_r sides).
    apply (letters_before_digits_token count x sides EmptyString Hc Hx Hs).
  - rewrite append_assoc.
    change (String x sides ++ sep) with (String x (sides ++ sep)).
    rewrite (letters_before_digits_token count x sides sep Hc Hx Hs).
    rewrite <- (append_nil_r sep).
    apply (letters_before_digits_app sep EmptyString),
      strict_separators_no_d, Hsep.
  - rewrite append_assoc.
    change (String x sides ++ sep ++ rest)
      with (String x (sides ++ sep ++ rest)).
    rewrite (letters_before_digits_token count x sides (sep ++ rest)
               Hc Hx Hs).
    rewrite (letters_before_digits_app sep rest
               (strict_separators_no_d sep Hsep)).
    exact IH.
Qed.

(** C7, as the specification words it, fails: with separators that are
    neither digits nor the letter [d], the texts ["1d6d"] and
    ["1d6 and 2d8"] are not in the notation, and the validation accepts
    them. *)
Lemma strict_separators_counterexample :
  (fullmatch multiple_dice_regex "1d6d" <> None
   /\ ~ strict_dice_notation "1d6d")
  /\ (fullmatch multiple_dice_regex "1d6 and 2d8" <> None
      /\ ~ strict_dice_notation "1d6 and 2d8")
  /\ (strict_dice_notation "1d6 + 2D8"
      /\ fullmatch multiple_dice_regex "1d6 + 2D8" <> None).
Proof.
  split; [|split].
  - split; [discriminate|]. intros H.
    apply strict_dice_notation_letters in H. discriminate.
  - split; [discriminate|]. intros H.
    apply strict_dice_notation_letters in H. discriminate.
  - split; [|discriminate].
    apply (@sdn_more "1d6" " + " "2D8").
    + apply (@token_intro "1" "d" "6");
        [split; [discriminate|reflexivity]|reflexivity
        |split; [discriminate|reflexivity]].
    + split; [discriminate|reflexivity].
    + apply (@sdn_token_end "2D8").
      apply (@token_intro "2" "D" "8");
        [split; [discriminate|reflexivity]|reflexivity
        |split; [discriminate|reflexivity]].
Qed.

Lemma separators_head sep rest :
  separators sep ->
  match sep ++ rest with
  | String y _ => is_digit y = false
  | EmptyString => True
  end.
Proof.
  intros Hsep. destruct (run_of_head _ _ Hsep) as (y & u & -> & Hy & _).
  simpl. apply negb_true_iff, Hy.
Qed.

(** A text in dice notation starts with an occurrence of the token. *)
Lemma dice_notation_first_token s :
  dice_notation s ->
  exists count sides rest, token_here s = Some (count, sides, rest).
Proof.
  intros H.
  assert (Hfront : forall t tail,
             token t ->
             match tail with
             | String y _ => is_digit y = false
             | EmptyString => True
             end ->
             exists count sides rest,
               token_here (t ++ tail) = Some (count, sides, rest)).
  { intros t tail [count x sides Hc Hx Hs] Htail.
    exists count, sides, tail. rewrite append_assoc.
    apply (token_here_token count x sides tail Hc Hx Hs Htail). }
  destruct H as [t Ht|t sep Ht Hsep|t sep rest Ht Hsep _].
  - rewrite <- (append_nil_r t). apply Hfront; [exact Ht|exact I].
  - apply Hfront; [exact Ht|].
    rewrite <- (append_nil_r sep). apply separators_head, Hsep.
  - apply Hfront; [exact Ht|]. apply separators_head, Hsep.
Qed.

Lemma token_here_nil : token_here EmptyString = None.
Proof. reflexivity. Qed.

(** A valid text has an occurrence of the token. *)
Lemma valid_has_occurrence s :
  fullmatch multiple_dice_regex s <> None ->
  findall single_dice_regex s <> [].
Proof.
  intros Hv. apply fullmatch_iff, multiple_dice_regex_denotes in Hv.
  destruct (dice_notation_first_token s Hv) as (count & sides & rest & Ht).
  rewrite findall_single. destruct s as [|x t].
  - rewrite token_here_nil in Ht. discriminate.
  - unfold occurrences; fold occurrences. rewrite Ht. discriminate.
Qed.


End Validation.


(* ================================================================= *)
(** ** Blanks around a query *)

Section Blanks.

Lemma lstrip_blanks ws : blanks ws -> lstrip ws = EmptyString.
Proof.
  unfold blanks. induction ws as [|c ws IH]; simpl; [reflexivity|].
  intros H. apply andb_true_iff in H as [Hc Hws]. rewrite Hc. apply IH, Hws.
Qed.

Lemma rstrip_blanks ws : blanks ws -> rstrip ws = EmptyString.
Proof.
  unfold blanks. induction ws as [|c ws IH]; simpl; [reflexivity|].
  intros H. apply andb_true_iff in H as [Hc Hws].
  rewrite (IH Hws), Hc. reflexivity.
Qed.

Lemma lstrip_app q r :
  lstrip (q ++ r) =
  match lstrip q with
  | EmptyString => lstrip r
  | String _ _ => lstrip q ++ r
  end.
Proof.
  induction q as [|c q IH]; simpl.
  - destruct (lstrip r); reflexivity.
  - destruct (is_space c); [exact IH|reflexivity].
Qed.

Lemma rstrip_app_blanks s ws : blanks ws -> rstrip (s ++ ws) = rstrip s.
Proof.
  intros H. induction s as [|c s IH]; simpl.
  - apply rstrip_blanks, H.
  - rewrite IH. reflexivity.
Qed.

(** Blanks around a text do not change what [strip] returns. *)
Lemma strip_blanks_around ws q ws' :
  blanks ws -> blanks ws' -> strip (ws ++ q ++ ws') = strip q.
Proof.
  intros H H'. unfold strip.
  rewrite (lstrip_app ws), (lstrip_blanks ws H), (lstrip_app q).
  destruct (lstrip q) as [|c t] eqn:E.
  - rewrite (lstrip_blanks ws' H'). reflexivity.
  - apply rstrip_app_blanks, H'.
Qed.

(** X1. Blanks before and after the query do not count: with any run of
    blank characters on either side, [handleQuery] returns the same
    result and leaves the same world. *)
Theorem handleQuery_ignores_blanks_around host ws q ws' w :
  blanks ws -> blanks ws' ->
  handleQuery host (albert.mkQuery (ws ++ q ++ ws')) w
  = handleQuery host (albert.mkQuery q) w.
Proof.
  intros H H'. unfold handleQuery. cbv zeta. cbn [albert.query_string].
  rewrite (strip_blanks_around ws q ws' H H'). reflexivity.
Qed.

End Blanks.

Lemma handleQuery_ignores_blanks_around_witness :
  blanks "  " /\ blanks " 	" /\
  handleQuery sample_host (albert.mkQuery ("  " ++ "2d6 3d8" ++ " 	"))
              sample_world
  = handleQuery sample_host (albert.mkQuery "2d6 3d8") sample_world.
Proof.
  split; [reflexivity|]. split; [reflexivity|].
  apply (handleQuery_ignores_blanks_around sample_host "  " "2d6 3d8" " 	"
           sample_world); reflexivity.
Defined.

(* ================================================================= *)
(** ** When rolling fails *)

Section Failures.

Variable host : Host.

(** X9. [roll_dice] raises exactly when it is asked for a die at least
    and the dice have no side; the exception is the [ValueError] of
    [randint] and nothing has been drawn. A count that is not positive
    gives the total [0] and no outcomes, whatever the sides. *)
Theorem roll_dice_raises_iff num_dice num_sides w :
  ((exists e w', roll_dice num_dice num_sides w = (Raise e, w'))
   <-> 0 < num_dice /\ num_sides < 1)
  /\ (forall e w',
         roll_dice num_dice num_sides w = (Raise e, w') ->
         e = empty_range /\ w' = w)
  /\ (num_dice <= 0 -> roll_dice num_dice num_sides w = (Ok (0, []), w)).
Proof.
  rewrite roll_dice_total. split; [|split].
  - destruct (Z.ltb_spec 0 num_dice) as [Hd|Hd];
      destruct (Z.ltb_spec num_sides 1) as [Hs|Hs]; simpl; split.
    + intros _. split; assumption.
    + intros _. exists empty_range, w. reflexivity.
    + intros (e & w' & H). discriminate.
    + intros [_ H]. lia.
    + intros (e & w' & H). discriminate.
    + intros [H _]. lia.
    + intros (e & w' & H). discriminate.
    + intros [H _]. lia.
  - intros e w' H.
    destruct ((0 <? num_dice) && (num_sides <? 1)); [|discriminate].
    injection H as <- <-. split; reflexivity.
  - intros H. destruct (Z.ltb_spec 0 num_dice); [lia|]. simpl.
    replace (Z.to_nat num_dice) with O by lia.
    rewrite after_draws_0. reflexivity.
Qed.

(** A sideless token in the list stops the loop with an exception, its
    own or an earlier one. *)
Lemma for_each_sideless ts ps :
  Forall2 reads_as ts ps ->
  Forall (fun p => 0 <= fst p /\ 0 <= snd p) ps ->
  Exists sideless ps ->
  forall st w,
    exists e w',
      for_each (map tuple_of ts) (get_items_body host) st w = (Raise e, w').
Proof.
  induction 1 as [|[c n] [count sides] ts ps [Hc Hn] _ IH];
    intros Hnn Hbad [[results total] all] w.
  - inversion Hbad.
  - inversion Hnn as [|? ? [_ Hs] Hnn']; subst. simpl in Hc, Hn, Hs.
    change (map tuple_of ((c, n) :: ts)) with ([c; n] :: map tuple_of ts).
    rewrite for_each_cons.
    destruct (get_items_body host (results, total, all) [c; n] w)
      as [[st1|e] w1] eqn:Eb; [|eauto].
    apply get_items_body_inv in Eb
      as (count' & sides' & Ec & En & _ & _ & Hno & _ & _ & _).
    rewrite Hc in Ec. rewrite Hn in En.
    injection Ec as <-. injection En as <-.
    inversion Hbad as [? ? Hhead|? ? Htail]; subst.
    + apply (sideless_test count sides Hs) in Hhead. congruence.
    + apply (IH Hnn' Htail).
Qed.

(** The loop on the numbers of the tokens up to the first sideless
    one, when the entries of the groups before it can be built. *)
Lemma for_each_first_sideless pre p post :
  sideless p ->
  forall st w,
    Forall (fun p => ~ sideless p) pre ->
    Forall (fun p => 0 <= fst p /\ 0 <= snd p) pre ->
    Forall (fun g =>
              forall w0,
                get_item_from_rolls host (snd g) (sum (snd g))
                                    (Some (fst g)) w0
                = (Ok (group_entry host g), w0))
           (roll_groups w pre) ->
    for_each (pre ++ p :: post) (roll_token host) st w
    = (Raise empty_range, after_draws w (dice_asked pre)).
Proof.
  intros Hp. induction pre as [|[count sides] pre IH];
    intros [[results total] all] w Hok Hnn Hitems.
  - destruct p as [count sides]. destruct Hp as [Hc Hs]. simpl in Hc, Hs.
    cbn [List.app]. rewrite for_each_cons, roll_token_run.
    destruct (Z.ltb_spec 0 count); [|lia].
    destruct (Z.ltb_spec sides 1); [|lia].
    unfold dice_asked. simpl. rewrite after_draws_0. reflexivity.
  - inversion Hok as [|? ? Hhead Hok']; subst.
    inversion Hnn as [|? ? [_ Hs] Hnn']; subst. simpl in Hs.
    simpl roll_groups in Hitems.
    inversion Hitems as [|? ? Hitem Hitems']; subst.
    cbn [fst snd] in Hitem.
    change (((count, sides) :: pre) ++ p :: post)%list
      with ((count, sides) :: (pre ++ p :: post))%list.
    rewrite for_each_cons, roll_token_run.
    destruct ((0 <? count) && (sides <? 1)) eqn:E.
    { apply (sideless_test count sides Hs) in E. contradiction. }
    cbv zeta. rewrite Hitem.
    rewrite (IH _ _ Hok' Hnn' Hitems'), after_draws_after_draws.
    unfold dice_asked. reflexivity.
Qed.

(** X2. A matched token that asks for dice without sides makes
    [get_items] raise: whatever the other tokens, [get_items] ends with
    an exception and has done nothing but draw from the generator. When
    the literals are ones [int] reads and the entries of the groups
    before the first such token can be built, the exception is the
    [ValueError] of [randint], and the dice of the tokens before that
    token are all that has been drawn. *)
Theorem get_items_raises_on_sideless_tokens q w ps :
  Forall2 (fun m p => token_values m = Some p)
          (findall single_dice_regex q) ps ->
  Exists sideless ps ->
  (exists e w', get_items host q w = (Raise e, w') /\ only_draws w w')
  /\ (forall pre p post,
         ps = (pre ++ p :: post)%list ->
         Forall (fun p => ~ sideless p) pre -> sideless p ->
         Forall (Forall short) (findall single_dice_regex q) ->
         Forall (fun g =>
                   forall w0,
                     get_item_from_rolls host (snd g) (sum (snd g))
                                         (Some (fst g)) w0
                     = (Ok (group_entry host g), w0))
                (roll_groups w pre) ->
         get_items host q w
         = (Raise empty_range, after_draws w (dice_asked pre))).
Proof.
  intros Htv Hbad.
  destruct (findall_reads q) as (ts & ps' & Hf & Hdig & Hps & Hnn & Htv').
  pose proof (Forall2_token_values_unique _ _ _ Htv' Htv) as ->.
  split.
  - destruct (for_each_sideless ts ps Hps Hnn Hbad ([], 0, []) w)
      as (e & w' & Hrun).
    exists e, w'.
    assert (E : get_items host q w = (Raise e, w')).
    { unfold get_items. cbv zeta. unfold bind. rewrite Hf, Hrun.
      reflexivity. }
    split; [exact E|].
    pose proof (get_items_only_draws host q w) as Hw.
    rewrite E in Hw. exact Hw.
  - intros pre p post -> Hpre Hp Hshort Hitems.
    rewrite (get_items_values host q (pre ++ p :: post) w Htv).
    + unfold get_items_of_values. unfold bind.
      rewrite (for_each_first_sideless pre p post Hp ([], 0, []) w
                 Hpre).
      * reflexivity.
      * apply Forall_app in Hnn as [Hnn _]. exact Hnn.
      * exact Hitems.
    + apply findall_short, Hshort.
Qed.

(** X3. When [get_items] returns, its entries are a function of the
    query and of the tape: the tokens are rolled one after the other,
    each group taking the next draws of the tape, and the generator has
    advanced by the number of dice asked for. *)
Theorem get_items_reads_the_tape q w items w' :
  get_items host q w = (Ok items, w') ->
  exists ps,
    Forall2 (fun m p => token_values m = Some p)
            (findall single_dice_regex q) ps
    /\ items = (map (group_entry host) (roll_groups w ps)
                ++ if (1 <? List.length ps)%nat
                   then [summary_entry host (roll_groups w ps)]
                   else [])%list
    /\ w' = after_draws w (dice_asked ps)
    /\ List.length (List.concat (map snd (roll_groups w ps)))
       = dice_asked ps.
Proof.
  intros H.
  apply get_items_inv_tape in H
    as (ps & Htv & _ & _ & _ & _ & _ & -> & ->).
  exists ps. split; [exact Htv|]. split; [reflexivity|].
  split; [reflexivity|]. apply length_rolls_of_groups.
Qed.

End Failures.

Lemma get_items_reads_the_tape_witness :
  get_items sample_host "2d6 3d8 1D20" sample_world
  = (Ok sample_entries, after_draws sample_world 6)
  /\ roll_groups sample_world [(2, 6); (3, 8); (1, 20)]
     = [(6, [4; 5]); (8, [2; 1; 8]); (20, [19])]
  /\ exists ps,
      Forall2 (fun m p => token_values m = Some p)
              (findall single_dice_regex "2d6 3d8 1D20") ps
      /\ sample_entries
         = (map (group_entry sample_host) (roll_groups sample_world ps)
            ++ if (1 <? List.length ps)%nat
               then [summary_entry sample_host (roll_groups sample_world ps)]
               else [])%list
      /\ after_draws sample_world 6
         = after_draws sample_world (dice_asked ps)
      /\ List.length (List.concat (map snd (roll_groups sample_world ps)))
         = dice_asked ps.
Proof.
  split; [vm_compute; reflexivity|]. split; [reflexivity|].
  apply (get_items_reads_the_tape sample_host "2d6 3d8 1D20" sample_world
           sample_entries (after_draws sample_world 6)).
  vm_compute; reflexivity.
Defined.

Lemma roll_dice_raises_iff_witness :
  (0 < 2 /\ 0 < 1)
  /\ exists e w', roll_dice 2 0 sample_world = (Raise e, w').
Proof.
  split; [lia|].
  apply (proj2 (proj1 (roll_dice_raises_iff 2 0 sample_world))). lia.
Defined.

Lemma get_items_raises_on_sideless_tokens_witness :
  Forall2 (fun m p => token_values m = Some p)
          (findall single_dice_regex "2d6 1d0 3d8") [(2, 6); (1, 0); (3, 8)]
  /\ Exists sideless [(2, 6); (1, 0); (3, 8)]
  /\ (exists e w',
         get_items sample_host "2d6 1d0 3d8" sample_world = (Raise e, w')
         /\ only_draws sample_world w')
  /\ get_items sample_host "2d6 1d0 3d8" sample_world
     = (Raise empty_range, after_draws sample_world 2).
Proof.
  assert (E : findall single_dice_regex "2d6 1d0 3d8"
              = [["2"; "6"]; ["1"; "0"]; ["3"; "8"]])
    by (vm_compute; reflexivity).
  assert (Htv : Forall2 (fun m p => token_values m = Some p)
                  (findall single_dice_regex "2d6 1d0 3d8")
                  [(2, 6); (1, 0); (3, 8)]).
  { rewrite E. constructor; [reflexivity|].
    constructor; [reflexivity|]. constructor; [reflexivity|constructor]. }
  assert (Hbad : Exists sideless [(2, 6); (1, 0); (3, 8)]).
  { apply Exists_cons_tl, Exists_cons_hd. split; [reflexivity|reflexivity]. }
  split; [exact Htv|]. split; [exact Hbad|].
  destruct (get_items_raises_on_sideless_tokens
              sample_host "2d6 1d0 3d8" sample_world
              [(2, 6); (1, 0); (3, 8)] Htv Hbad) as [H1 H2].
  split; [exact H1|].
  apply (H2 [(2, 6)] (1, 0) [(3, 8)] eq_refl).
  - constructor; [|constructor]. intros [_ H]. discriminate H.
  - split; reflexivity.
  - apply short_check. rewrite E. reflexivity.
  - constructor; [|constructor]. intros w0. reflexivity.
Defined.

(* ================================================================= *)
(** ** What the entries hold *)

Section EntryFacts.

Variable host : Host.

(** X4. [get_items] returns as many entries as tokens matched, and one
    more when several matched; so it never returns exactly two entries,
    and [handleQuery], when it returns entries, returns one or three or
    more. *)
Theorem number_of_entries :
  (forall q w items w',
      get_items host q w = (Ok items, w') ->
      List.length items
      = (List.length (findall single_dice_regex q)
         + if (1 <? List.length (findall single_dice_regex q))%nat
           then 1 else 0)%nat
      /\ List.length items <> 2%nat)
  /\ (forall query w items w',
         handleQuery host query w = (Ok (Some items), w') ->
         (List.length items = 1 \/ 3 <= List.length items)%nat).
Proof.
  assert (Hcount : forall q w items w',
             get_items host q w = (Ok items, w') ->
             List.length items
             = (List.length (findall single_dice_regex q)
                + if (1 <? List.length (findall single_dice_regex q))%nat
                  then 1 else 0)%nat).
  { intros q w items w' H.
    apply get_items_inv in H as (gs & Hans & _ & ->).
    apply Forall2_length in Hans.
    rewrite length_app, length_map, Hans.
    destruct (1 <? List.length gs)%nat; reflexivity. }
  split.
  - intros q w items w' H. pose proof (Hcount q w items w' H) as E.
    split; [exact E|]. rewrite E.
    destruct (Nat.ltb_spec 1 (List.length (findall single_dice_regex q)));
      lia.
  - intros query w items w' H.
    apply handleQuery_items in H as [Hv H].
    apply valid_has_occurrence in Hv.
    rewrite (Hcount _ w items w' H).
    destruct (findall single_dice_regex _) as [|m ms]; [congruence|].
    simpl List.length.
    destruct (Nat.ltb_spec 1 (S (List.length ms))); lia.
Qed.

(** X5. Whatever the query, [handleQuery] raises nothing and leaves the
    tape as it is. It ends in one of three ways: the text is not dice
    notation, and it returns no items with the world untouched;
    [get_items] returns, and it returns those items, one at least, with
    no diagnostic call; [get_items] raises an exception, and it returns
    no items after exactly two diagnostic calls, the warning with that
    exception and the notice. *)
Theorem handleQuery_outcomes query w :
  exists r w',
    handleQuery host query w = (Ok r, w')
    /\ tape w' = tape w
    /\ (drawn w <= drawn w')%nat
    /\ ((fullmatch multiple_dice_regex (strip (albert.query_string query))
         = None
         /\ r = None /\ w' = w)
        \/ (exists items,
               fullmatch multiple_dice_regex
                 (strip (albert.query_string query)) <> None
               /\ get_items host (strip (albert.query_string query)) w
                  = (Ok items, w')
               /\ r = Some items /\ items <> []
               /\ diagnostics w' = diagnostics w)
        \/ (exists e w1,
               fullmatch multiple_dice_regex
                 (strip (albert.query_string query)) <> None
               /\ get_items host (strip (albert.query_string query)) w
                  = (Raise e, w1)
               /\ r = None
               /\ drawn w' = drawn w1
               /\ diagnostics w'
                  = (diagnostics w
                     ++ [WarnCall e; InfoCall format_notice])%list)).
Proof.
  destruct (fullmatch multiple_dice_regex
              (strip (albert.query_string query))) eqn:E.
  - assert (Hv : fullmatch multiple_dice_regex
                   (strip (albert.query_string query)) <> None)
      by (rewrite E; discriminate).
    rewrite (handleQuery_valid host query w Hv).
    pose proof (get_items_only_draws host
                  (strip (albert.query_string query)) w) as Hw.
    destruct (get_items host (strip (albert.query_string query)) w)
      as [[items|e] w1] eqn:Er; destruct Hw as (Ht & Hd & Hl);
      cbn [snd] in Ht, Hd, Hl.
    + exists (Some items), w1. split; [reflexivity|].
      split; [exact Ht|]. split; [exact Hl|].
      right. left. exists items.
      split; [discriminate|]. split; [reflexivity|].
      split; [reflexivity|]. split; [|exact Hd].
      apply get_items_inv in Er as (gs & Hans & _ & ->).
      apply valid_has_occurrence in Hv. apply Forall2_length in Hans.
      destruct gs as [|g gs]; [|discriminate].
      destruct (findall single_dice_regex _); [congruence|discriminate].
    + eexists. eexists. split; [reflexivity|].
      split; [exact Ht|]. split; [exact Hl|].
      right. right. exists e, w1.
      split; [discriminate|]. split; [reflexivity|].
      split; [reflexivity|]. split; [reflexivity|].
      cbn [diagnostics]. rewrite Hd. reflexivity.
  - rewrite (handleQuery_invalid host query w E).
    exists None, w. split; [reflexivity|]. split; [reflexivity|].
    split; [lia|]. left. repeat split.
Qed.

(** X6. What the two actions of an entry copy is what the entry shows:
    the first copies the total of the headline, the second the list of
    rolls of the subtext; every entry carries the title of the
    extension. *)
Theorem clipboard_matches_display q w items w' :
  get_items host q w = (Ok items, w') ->
  Forall (fun it =>
            albert.id it = "Dice Roll"
            /\ exists total rolls,
                albert.actions it
                = [albert.mkClipAction "Copy total to clipboard" total;
                   albert.mkClipAction "Copy rolls to clipboard" rolls]
                /\ albert.subtext it = "Rolls: " ++ rolls
                /\ parse_int total = shown_total (albert.text it)
                /\ shown_total (albert.text it) <> None)
         items.
Proof.
  intros H. apply get_items_inv in H as (gs & _ & _ & ->).
  assert (Hentry : forall rolls total num_sides,
             let it := entry host rolls total num_sides in
             albert.id it = "Dice Roll"
             /\ exists t r,
                 albert.actions it
                 = [albert.mkClipAction "Copy total to clipboard" t;
                    albert.mkClipAction "Copy rolls to clipboard" r]
                 /\ albert.subtext it = "Rolls: " ++ r
                 /\ parse_int t = shown_total (albert.text it)
                 /\ shown_total (albert.text it) <> None).
  { intros rolls total num_sides it. split; [reflexivity|].
    exists (decimal total), (join ", " (map decimal rolls)).
    destruct (entry_reads_back host rolls total num_sides) as [Ht _].
    split; [reflexivity|]. split; [reflexivity|]. fold it in Ht.
    rewrite Ht, parse_int_decimal. split; [reflexivity|discriminate]. }
  apply Forall_app. split.
  - apply Forall_forall. intros it Hit.
    apply in_map_iff in Hit as (g & <- & _). apply Hentry.
  - destruct (1 <? _)%nat; constructor; [apply Hentry|constructor].
Qed.

End EntryFacts.

Lemma number_of_entries_witness :
  get_items sample_host "2d6 3d8 1D20" sample_world
  = (Ok sample_entries, after_draws sample_world 6)
  /\ List.length sample_entries = 4%nat
  /\ List.length sample_entries <> 2%nat.
Proof.
  split; [vm_compute; reflexivity|]. split; [reflexivity|].
  apply (proj1 (number_of_entries sample_host)
               "2d6 3d8 1D20" sample_world sample_entries
               (after_draws sample_world 6)).
  vm_compute; reflexivity.
Defined.

Lemma clipboard_matches_display_witness :
  get_items sample_host "2d6 3d8 1D20" sample_world
  = (Ok sample_entries, after_draws sample_world 6)
  /\ Forall (fun it =>
               albert.id it = "Dice Roll"
               /\ exists total rolls,
                   albert.actions it
                   = [albert.mkClipAction "Copy total to clipboard" total;
                      albert.mkClipAction "Copy rolls to clipboard" rolls]
                   /\ albert.subtext it = "Rolls: " ++ rolls
                   /\ parse_int total = shown_total (albert.text it)
                   /\ shown_total (albert.text it) <> None)
            sample_entries.
Proof.
  split; [vm_compute; reflexivity|].
  apply (clipboard_matches_display sample_host "2d6 3d8 1D20" sample_world
           sample_entries (after_draws sample_world 6)).
  vm_compute; reflexivity.
Defined.

(* ================================================================= *)
(** ** Totals, sides and icons *)

Section Totals.

Variable host : Host.

(** X8. A total lies between the number of dice and that number times
    the sides: for what [roll_dice] returns, and for the total every
    group entry of [get_items] shows, with the count and the sides of its
    token. *)
Theorem totals_are_bounded :
  (forall num_dice num_sides w total rolls w',
      roll_dice num_dice num_sides w = (Ok (total, rolls), w') ->
      List.length rolls = Z.to_nat num_dice
      /\ Z.of_nat (List.length rolls) <= total
         <= Z.of_nat (List.length rolls) * num_sides)
  /\ (forall q w items w',
         get_items host q w = (Ok items, w') ->
         exists gs : list rolled,
           Forall2 answers (findall single_dice_regex q) gs
           /\ items = (map (group_entry host) gs
                       ++ if (1 <? List.length (findall single_dice_regex q))%nat
                          then [summary_entry host gs] else [])%list
           /\ Forall (fun g =>
                        exists total,
                          shown_total (albert.text (group_entry host g))
                          = Some total
                          /\ Z.of_nat (List.length (snd g)) <= total
                             <= Z.of_nat (List.length (snd g)) * fst g) gs).
Proof.
  split.
  - intros num_dice num_sides w total rolls w' H.
    apply roll_dice_inv in H as (Hr & -> & _ & Hrange).
    split; [rewrite Hr, length_map, length_seq; reflexivity|].
    apply sum_bounds, Hrange.
  - intros q w items w' H.
    apply get_items_inv in H as (gs & Hans & Hall & ->).
    exists gs. split; [exact Hans|]. split; [reflexivity|].
    apply Forall_forall. intros g Hg. exists (sum (snd g)).
    split.
    + apply (entry_reads_back host (snd g) (sum (snd g)) (Some (fst g))).
    + apply sum_bounds. apply (proj1 (Forall_forall _ gs) Hall g Hg).
Qed.

(** X7. A token without sides can only be rolled when it asks for no
    dice; the entry of its group then has no rolls and the headline of a
    summary, ["Overall Total: 0"], the test [if num_sides] being false
    for [0]; its icon is the one [get_icon_path] returns for [0]
    sides. *)
Theorem zero_sides_group_has_summary_headline q w items w' :
  get_items host q w = (Ok items, w') ->
  exists gs : list rolled,
    Forall2 answers (findall single_dice_regex q) gs
    /\ items = (map (group_entry host) gs
                ++ if (1 <? List.length (findall single_dice_regex q))%nat
                   then [summary_entry host gs] else [])%list
    /\ Forall (fun g =>
                 fst g = 0 ->
                 snd g = []
                 /\ albert.text (group_entry host g) = "Overall Total: 0"
                 /\ albert.subtext (group_entry host g) = "Rolls: "
                 /\ forall w0,
                     get_icon_path host (Some 0) w0
                     = (Ok (albert.icon (group_entry host g)), w0)) gs.
Proof.
  intros H.
  apply get_items_inv_tape in H
    as (ps & Htv & Hnn & _ & Hok & Hitems & _ & -> & _).
  exists (roll_groups w ps).
  split; [apply roll_groups_answers; assumption|].
  split; [rewrite (Forall2_length Htv); reflexivity|].
  pose proof (roll_groups_in_range ps Hnn Hok w) as Hall.
  apply Forall_forall. intros [sides rolls] Hg Hs. simpl in Hs. subst sides.
  pose proof (proj1 (Forall_forall _ _) Hall _ Hg) as Hrange.
  pose proof (proj1 (Forall_forall _ _) Hitems _ Hg) as Hitem.
  cbn [fst snd] in Hrange, Hitem.
  assert (rolls = []) as ->.
  { destruct rolls as [|x rolls]; [reflexivity|].
    inversion Hrange; subst. lia. }
  split; [reflexivity|]. split; [reflexivity|]. split; [reflexivity|].
  intros w0.
  destruct (get_item_from_rolls_inv host _ _ _ _ _ _ (Hitem w0))
    as (_ & _ & F & St & _).
  rewrite get_icon_path_run, F, St. reflexivity.
Qed.

Lemma icon_of_exists num_sides :
  file_exists host (module_dir host ++ "/icons/d20.svg") = true ->
  file_exists host (module_dir host ++ "/icons/dice.svg") = true ->
  file_exists host (icon_of host num_sides) = true.
Proof.
  intros H20 Hdice. rewrite icon_of_text.
  destruct num_sides as [n|]; [|exact Hdice].
  destruct (file_exists host
              (module_dir host ++ "/icons/d" ++ decimal n ++ ".svg")) eqn:E;
    [exact E|exact H20].
Qed.

(** X10. When the two fallback icons [d20.svg] and [dice.svg] are in the
    icons directory, the icon of every entry is a file that exists. *)
Theorem entry_icons_exist q w items w' :
  file_exists host (module_dir host ++ "/icons/d20.svg") = true ->
  file_exists host (module_dir host ++ "/icons/dice.svg") = true ->
  get_items host q w = (Ok items, w') ->
  Forall (fun it => file_exists host (albert.icon it) = true) items.
Proof.
  intros H20 Hdice H. apply get_items_inv in H as (gs & _ & _ & ->).
  apply Forall_app. split.
  - apply Forall_forall. intros it Hit.
    apply in_map_iff in Hit as (g & <- & _).
    apply icon_of_exists; assumption.
  - destruct (1 <? _)%nat; constructor; [|constructor].
    apply icon_of_exists; assumption.
Qed.

End Totals.

Lemma totals_are_bounded_witness :
  roll_dice 3 8 sample_world = (Ok (9, [4; 3; 2]), after_draws sample_world 3)
  /\ List.length [4; 3; 2] = Z.to_nat 3
  /\ Z.of_nat (List.length [4; 3; 2]) <= 9
     <= Z.of_nat (List.length [4; 3; 2]) * 8.
Proof.
  split; [reflexivity|].
  apply (proj1 (totals_are_bounded sample_host)
               3 8 sample_world 9 [4; 3; 2] (after_draws sample_world 3)).
  reflexivity.
Defined.

Lemma zero_sides_group_has_summary_headline_witness :
  exists items w',
    get_items sample_host "0d0 2d6" sample_world = (Ok items, w')
    /\ map albert.text items
       = ["Overall Total: 0"; "Rolled 2d6 - Total: 9"; "Overall Total: 9"]
    /\ exists gs : list rolled,
        Forall2 answers (findall single_dice_regex "0d0 2d6") gs
        /\ items = (map (group_entry sample_host) gs
                    ++ if (1 <? List.length
                                  (findall single_dice_regex "0d0 2d6"))%nat
                       then [summary_entry sample_host gs] else [])%list
        /\ Forall (fun g =>
                     fst g = 0 ->
                     snd g = []
                     /\ albert.text (group_entry sample_host g)
                        = "Overall Total: 0"
                     /\ albert.subtext (group_entry sample_host g) = "Rolls: "
                     /\ forall w0,
                         get_icon_path sample_host (Some 0) w0
                         = (Ok (albert.icon (group_entry sample_host g)),
                            w0)) gs.
Proof.
  eexists. eexists. split; [vm_compute; reflexivity|].
  split; [reflexivity|].
  eapply (zero_sides_group_has_summary_headline
            sample_host "0d0 2d6" sample_world).
  vm_compute; reflexivity.
Defined.

Lemma entry_icons_exist_witness :
  file_exists stocked_host (module_dir stocked_host ++ "/icons/d20.svg") = true
  /\ file_exists stocked_host (module_dir stocked_host ++ "/icons/dice.svg")
     = true
  /\ exists items w',
      get_items stocked_host "2d6 3d8" sample_world = (Ok items, w')
      /\ map albert.icon items
         = ["/usr/share/albert/dice_roll/icons/d6.svg";
            "/usr/share/albert/dice_roll/icons/d20.svg";
            "/usr/share/albert/dice_roll/icons/dice.svg"]
      /\ Forall (fun it => file_exists stocked_host (albert.icon it) = true)
                items.
Proof.
  split; [reflexivity|]. split; [reflexivity|].
  eexists. eexists. split; [vm_compute; reflexivity|].
  split; [reflexivity|].
  eapply (entry_icons_exist stocked_host "2d6 3d8" sample_world);
    reflexivity.
Defined.

(* ================================================================= *)
(** ** Validation and extraction agree on valid texts *)

Section Rounds.

Lemma occurrences_skip_prefix pre rest :
  occurrences (pre ++ rest) (String.length pre) = occurrences rest 0.
Proof.
  induction pre as [|c pre IH]; simpl.
  - destruct rest; reflexivity.
  - exact IH.
Qed.

Lemma token_here_nondigit y t :
  is_digit y = false -> token_here (String y t) = None.
Proof. intros H. unfold token_here. simpl. rewrite H. reflexivity. Qed.

Lemma occurrences_nondigits sep rest :
  string_forall (fun x => negb (is_digit x)) sep = true ->
  occurrences (sep ++ rest) 0 = occurrences rest 0.
Proof.
  induction sep as [|y sep IH]; intros H; [reflexivity|].
  simpl in H. apply andb_true_iff in H as [Hy Hsep].
  apply negb_true_iff in Hy.
  change (String y sep ++ rest) with (String y (sep ++ rest)).
  unfold occurrences; fold occurrences.
  rewrite (token_here_nondigit y _ Hy). apply IH, Hsep.
Qed.

(** The scan over one round. *)
Lemma occurrences_round count x sides tail :
  digits count -> is_d x = true -> digits sides ->
  match tail with
  | String y _ => is_digit y = false
  | EmptyString => True
  end ->
  occurrences (count ++ String x (sides ++ tail)) 0
  = (count, sides) :: occurrences tail 0.
Proof.
  intros Hc Hx Hs Htail.
  pose proof (token_here_token count x sides tail Hc Hx Hs Htail) as Ht.
  destruct Hc as [Hne Hc].
  destruct count as [|c0 count']; [contradiction|].
  change (String c0 count' ++ String x (sides ++ tail))
    with (String c0 (count' ++ String x (sides ++ tail))) in *.
  unfold occurrences; fold occurrences. rewrite Ht. f_equal.
  replace (count' ++ String x (sides ++ tail))
    with ((count' ++ String x sides) ++ tail)
    by (rewrite append_assoc; reflexivity).
  change (String c0 ((count' ++ String x sides) ++ tail))
    with (String c0 (count' ++ String x sides) ++ tail).
  rewrite (length_append (String c0 (count' ++ String x sides)) tail).
  change (String.length (String c0 (count' ++ String x sides)))
    with (S (String.length (count' ++ String x sides))).
  replace (S (String.length (count' ++ String x sides)) + String.length tail
           - String.length tail - 1)%nat
    with (String.length (count' ++ String x sides)) by lia.
  apply occurrences_skip_prefix.
Qed.

Lemma well_formed_rounds_nonempty us : well_formed_rounds us -> us <> [].
Proof. destruct us; simpl; [contradiction|discriminate]. Qed.

Lemma rounds_text_head u us :
  round_token u ->
  exists x t, rounds_text (u :: us) = String x t /\ is_digit x = true.
Proof.
  intros [Hc _]. destruct (run_of_head _ _ Hc) as (x & t & E & Hx & _).
  simpl. unfold round_text. rewrite E. simpl. eauto.
Qed.

Lemma occurrences_rounds us :
  well_formed_rounds us ->
  occurrences (rounds_text us) 0
  = map (fun u => (round_count u, round_sides u)) us.
Proof.
  induction us as [|u us IH]; intros H; [contradiction|].
  destruct H as [[Hc [Hx Hs]] Hrest].
  simpl rounds_text. unfold round_text. rewrite append_assoc.
  change (String (round_letter u) (round_sides u ++ round_sep u)
          ++ rounds_text us)
    with (String (round_letter u)
            ((round_sides u ++ round_sep u) ++ rounds_text us)).
  rewrite append_assoc.
  destruct us as [|v us'].
  - simpl rounds_text. rewrite append_nil_r.
    rewrite (occurrences_round _ _ _ (round_sep u) Hc Hx Hs).
    + rewrite <- (append_nil_r (round_sep u)).
      rewrite (occurrences_nondigits _ EmptyString Hrest). reflexivity.
    + destruct (round_sep u) as [|y t]; [exact I|].
      simpl in Hrest. apply andb_true_iff in Hrest as [Hy _].
      apply negb_true_iff, Hy.
  - destruct Hrest as [Hsep Hwf].
    rewrite (occurrences_round _ _ _ (round_sep u ++ rounds_text (v :: us'))
               Hc Hx Hs (separators_head _ _ Hsep)).
    rewrite (occurrences_nondigits _ _ (proj2 Hsep)), (IH Hwf).
    reflexivity.
Qed.

Lemma dice_notation_rounds s :
  dice_notation s <-> exists us, well_formed_rounds us /\ s = rounds_text us.
Proof.
  split.
  - induction 1 as [t Ht|t sep Ht Hsep|t sep rest Ht Hsep _ (us & Hus & ->)];
      destruct Ht as [count x sides Hc Hx Hs].
    + exists [mkRound count x sides EmptyString]. split.
      * split; [exact (conj Hc (conj Hx Hs))|reflexivity].
      * simpl. unfold round_text. simpl. rewrite !append_nil_r. reflexivity.
    + exists [mkRound count x sides sep]. split.
      * split; [exact (conj Hc (conj Hx Hs))|apply Hsep].
      * simpl. unfold round_text. simpl.
        rewrite append_nil_r, append_assoc. reflexivity.
    + exists (mkRound count x sides sep :: us). split.
      * pose proof (well_formed_rounds_nonempty us Hus) as Hne.
        destruct us as [|v us']; [contradiction|].
        split; [exact (conj Hc (conj Hx Hs))|]. split; assumption.
      * simpl. unfold round_text. simpl.
        rewrite !append_assoc. simpl. rewrite append_assoc. reflexivity.
  - intros (us & Hus & ->). induction us as [|u us IH]; [contradiction|].
    destruct Hus as [[Hc [Hx Hs]] Hrest].
    assert (Ht : token (round_count u
                        ++ String (round_letter u) (round_sides u)))
      by (constructor; assumption).
    assert (E : forall tail,
               round_count u
               ++ String (round_letter u) (round_sides u ++ tail)
               = (round_count u
                  ++ String (round_letter u) (round_sides u)) ++ tail)
      by (intros tail; rewrite append_assoc; reflexivity).
    destruct us as [|v us'].
    + simpl. unfold round_text. rewrite append_nil_r, E.
      destruct (round_sep u) as [|y t] eqn:Esep.
      * rewrite append_nil_r. apply dn_token_end, Ht.
      * apply dn_token_sep; [exact Ht|]. split; [discriminate|exact Hrest].
    + destruct Hrest as [Hsep Hwf]. simpl rounds_text. unfold round_text.
      rewrite E, append_assoc.
      apply dn_more; [exact Ht|exact Hsep|]. apply IH, Hwf.
Qed.

(** X11. The texts the validation accepts are the lists of rounds
    (a token and the separators after it, separators being required
    between two rounds); on such a text the extraction returns the two
    numbers of each round, in order, and nothing else. *)
Theorem validation_and_extraction_agree :
  (forall s,
      fullmatch multiple_dice_regex s <> None
      <-> exists us, well_formed_rounds us /\ s = rounds_text us)
  /\ (forall us,
         well_formed_rounds us ->
         findall single_dice_regex (rounds_text us) = map round_tuple us).
Proof.
  split.
  - intros s. rewrite fullmatch_iff, multiple_dice_regex_denotes.
    apply dice_notation_rounds.
  - intros us H. rewrite findall_single, (occurrences_rounds us H), map_map.
    reflexivity.
Qed.

End Rounds.

Lemma validation_and_extraction_agree_witness :
  well_formed_rounds [mkRound "2" "d" "6" ", "; mkRound "03" "D" "20" "!"]
  /\ rounds_text [mkRound "2" "d" "6" ", "; mkRound "03" "D" "20" "!"]
     = "2d6, 03D20!"
  /\ findall single_dice_regex "2d6, 03D20!" = [["2"; "6"]; ["03"; "20"]].
Proof.
  assert (H : well_formed_rounds
                [mkRound "2" "d" "6" ", "; mkRound "03" "D" "20" "!"]).
  { simpl. unfold round_token, digits, separators, run_of. simpl.
    repeat split; discriminate. }
  split; [exact H|]. split; [reflexivity|].
  exact (proj2 validation_and_extraction_agree _ H).
Defined.

(* ================================================================= *)
(** ** Queries of one printed token, and texts that are not queries *)

Section SingleToken.

Variable host : Host.

(** X12. Numbers printed into a query come back. For [count >= 0] and
    [sides >= 1] such that [sides] and [count * sides] have no more
    digits than [int] prints, and an icon [d{sides}.svg] that can be
    looked for, the query [{count}d{sides}], with the letter in either
    case, yields one entry, built from the next [count] draws of the
    tape; its headline prints [count] and [sides] again, with a small
    [d]. *)
Theorem handleQuery_printed_token count x sides w :
  0 <= count -> 1 <= sides -> is_d x = true ->
  fits sides = true -> fits (count * sides) = true ->
  stat_error host (module_dir host ++ "/icons/d" ++ decimal sides ++ ".svg")
  = None ->
  let rolls := map (draw w sides) (seq 0 (Z.to_nat count)) in
  roll_dice count sides w
  = (Ok (sum rolls, rolls), after_draws w (Z.to_nat count))
  /\ handleQuery host
       (albert.mkQuery (decimal count ++ String x (decimal sides))) w
     = (Ok (Some [entry host rolls (sum rolls) (Some sides)]),
        after_draws w (Z.to_nat count))
  /\ albert.text (entry host rolls (sum rolls) (Some sides))
     = "Rolled " ++ decimal count ++ "d" ++ decimal sides
       ++ " - Total: " ++ decimal (sum rolls).
Proof.
  intros Hc Hs Hx Fs Fp St rolls.
  assert (Dc : digits (decimal count)) by (apply decimal_digits; exact Hc).
  assert (Ds : digits (decimal sides)) by (apply decimal_digits; lia).
  split; [apply roll_dice_ok, Hs|]. split.
  - rewrite (handleQuery_one_token host _ x _ w Dc Hx Ds).
    rewrite (get_items_printed_token host count x sides w Hc Hs Hx Fs Fp).
    + reflexivity.
    + rewrite icon_check_path_text. exact St.
  - rewrite text_of_entry. simpl truthy.
    destruct (Z.eqb_spec sides 0); [lia|]. simpl negb. cbv iota.
    unfold rolls. rewrite length_map, length_seq, Z2Nat.id by exact Hc.
    reflexivity.
Qed.

(** X13. A query whose trimmed text does not start with a digit is not
    for the extension: the empty query, a word, a token without its
    count such as ["d20"]. [handleQuery] returns no items for it and
    touches nothing. *)
Theorem handleQuery_needs_a_leading_count query w :
  match strip (albert.query_string query) with
  | String x _ => is_digit x = false
  | EmptyString => True
  end ->
  handleQuery host query w = (Ok None, w).
Proof.
  intros H. apply handleQuery_invalid.
  destruct (fullmatch multiple_dice_regex
              (strip (albert.query_string query))) eqn:E; [|reflexivity].
  exfalso.
  assert (Hv : fullmatch multiple_dice_regex
                 (strip (albert.query_string query)) <> None)
    by (rewrite E; discriminate).
  apply fullmatch_iff, multiple_dice_regex_denotes in Hv.
  destruct (dice_notation_starts_with_digit _ Hv) as (x & u & Ex & Hx).
  rewrite Ex in H. congruence.
Qed.

(** X14. [get_items] returns the empty list exactly when the text has
    no occurrence of the token, and then it draws nothing; a text
    without digits is such a text. *)
Theorem get_items_empty :
  (forall q w,
      findall single_dice_regex q = [] -> get_items host q w = (Ok [], w))
  /\ (forall q w w',
         get_items host q w = (Ok [], w') ->
         findall single_dice_regex q = [])
  /\ (forall q,
         string_forall (fun x => negb (is_digit x)) q = true ->
         findall single_dice_regex q = []).
Proof.
  split; [|split].
  - intros q w H. unfold get_items. rewrite H. reflexivity.
  - intros q w w' H. apply get_items_inv in H as (gs & Hans & _ & H).
    apply Forall2_length in Hans.
    destruct gs as [|g gs]; [|discriminate].
    destruct (findall single_dice_regex q); [reflexivity|discriminate].
  - intros q H. rewrite findall_single, <- (append_nil_r q).
    rewrite (occurrences_nondigits q EmptyString H). reflexivity.
Qed.

End SingleToken.

Lemma handleQuery_printed_token_witness :
  0 <= 3 /\ 1 <= 8 /\ is_d "D" = true
  /\ fits 8 = true /\ fits (3 * 8) = true
  /\ stat_error sample_host (module_dir sample_host ++ "/icons/d8.svg") = None
  /\ roll_dice 3 8 sample_world
     = (Ok (9, [4; 3; 2]), after_draws sample_world 3)
  /\ handleQuery sample_host (albert.mkQuery "3D8") sample_world
     = (Ok (Some [entry sample_host [4; 3; 2] 9 (Some 8)]),
        after_draws sample_world 3)
  /\ albert.text (entry sample_host [4; 3; 2] 9 (Some 8))
     = "Rolled 3d8 - Total: 9".
Proof.
  split; [lia|]. split; [lia|]. split; [reflexivity|].
  split; [reflexivity|]. split; [reflexivity|]. split; [reflexivity|].
  apply (handleQuery_printed_token sample_host 3 "D" 8 sample_world);
    [lia|lia|reflexivity|reflexivity|reflexivity|reflexivity].
Defined.

Lemma handleQuery_needs_a_leading_count_witness :
  match strip (albert.query_string (albert.mkQuery " d20 ")) with
  | String x _ => is_digit x = false
  | EmptyString => True
  end
  /\ handleQuery sample_host (albert.mkQuery " d20 ") sample_world
     = (Ok None, sample_world).
Proof.
  split; [reflexivity|].
  apply (handleQuery_needs_a_leading_count
           sample_host (albert.mkQuery " d20 ") sample_world).
  reflexivity.
Defined.

Lemma get_items_empty_witness :
  string_forall (fun x => negb (is_digit x)) "roll the dice" = true
  /\ findall single_dice_regex "roll the dice" = []
  /\ get_items sample_host "roll the dice" sample_world
     = (Ok [], sample_world).
Proof.
  assert (H : string_forall (fun x => negb (is_digit x)) "roll the dice"
              = true) by reflexivity.
  pose proof (proj2 (proj2 (get_items_empty sample_host))
                "roll the dice" H) as Hf.
  split; [exact H|]. split; [exact Hf|].
  exact (proj1 (get_items_empty sample_host)
           "roll the dice" sample_world Hf).
Defined.

(* ================================================================= *)
(** ** Only the numbers of the tokens count *)

Section TokenValues.

Variable host : Host.

(** X15. When the literals of its tokens are ones [int] reads (4300
    digits at most, leading zeros counted), the result of [get_items]
    depends on the text only through the numbers of those tokens: two
    such texts whose tokens read as the same counts and sides, whatever
    their separators, the case of the letter or the leading zeros, give
    the same entries, the same exception and the same world, those of
    the loop run on the numbers. *)
Theorem get_items_depends_on_token_values q q' ps w :
  Forall2 (fun m p => token_values m = Some p)
          (findall single_dice_regex q) ps ->
  Forall2 (fun m p => token_values m = Some p)
          (findall single_dice_regex q') ps ->
  Forall (Forall short) (findall single_dice_regex q) ->
  Forall (Forall short) (findall single_dice_regex q') ->
  get_items host q w = get_items host q' w
  /\ get_items host q w = get_items_of_values host ps w.
Proof.
  intros H H' S S'.
  rewrite (get_items_values host q ps w H (findall_short q S)).
  rewrite (get_items_values host q' ps w H' (findall_short q' S')).
  split; reflexivity.
Qed.

End TokenValues.

Lemma get_items_depends_on_token_values_witness :
  Forall2 (fun m p => token_values m = Some p)
          (findall single_dice_regex "2d6 3d8") [(2, 6); (3, 8)]
  /\ Forall2 (fun m p => token_values m = Some p)
             (findall single_dice_regex "02D6, then 003d08!")
             [(2, 6); (3, 8)]
  /\ Forall (Forall short) (findall single_dice_regex "2d6 3d8")
  /\ Forall (Forall short)
            (findall single_dice_regex "02D6, then 003d08!")
  /\ get_items sample_host "2d6 3d8" sample_world
     = get_items sample_host "02D6, then 003d08!" sample_world
  /\ get_items sample_host "2d6 3d8" sample_world
     = get_items_of_values sample_host [(2, 6); (3, 8)] sample_world.
Proof.
  assert (E : findall single_dice_regex "2d6 3d8" = [["2"; "6"]; ["3"; "8"]])
    by (vm_compute; reflexivity).
  assert (E' : findall single_dice_regex "02D6, then 003d08!"
               = [["02"; "6"]; ["003"; "08"]])
    by (vm_compute; reflexivity).
  assert (H : Forall2 (fun m p => token_values m = Some p)
                (findall single_dice_regex "2d6 3d8") [(2, 6); (3, 8)]).
  { rewrite E. constructor; [reflexivity|].
    constructor; [reflexivity|constructor]. }
  assert (H' : Forall2 (fun m p => token_values m = Some p)
                 (findall single_dice_regex "02D6, then 003d08!")
                 [(2, 6); (3, 8)]).
  { rewrite E'. constructor; [reflexivity|].
    constructor; [reflexivity|constructor]. }
  assert (S : Forall (Forall short) (findall single_dice_regex "2d6 3d8"))
    by (apply short_check; rewrite E; reflexivity).
  assert (S' : Forall (Forall short)
                 (findall single_dice_regex "02D6, then 003d08!"))
    by (apply short_check; rewrite E'; reflexivity).
  split; [exact H|]. split; [exact H'|].
  split; [exact S|]. split; [exact S'|].
  exact (get_items_depends_on_token_values
           sample_host "2d6 3d8" "02D6, then 003d08!"
           [(2, 6); (3, 8)] sample_world H H' S S').
Defined.
